(** * AI Writing Studio: the content-generation route and the client history

    A shallow embedding of [backend/routes/generate.js] (the route mounted by
    [backend/server.js] under [/api/generate]) and of the version-history part
    of [frontend/src/app/app.component.ts], followed by the properties of the
    specification that concern them.

    Part I also embeds the earlier variant of the route kept in
    [unnamed/part_001] (AI image generation with its cooldown, three models),
    the two requests the component sends, and the getter [formattedContent] of
    the component; Part III holds further properties of all of these.

    Conventions.
    - A JavaScript string is a [string]; its characters are read as UTF-16
      code units below 256 (the Latin-1 range).  Code units above 255 are
      outside the model.
    - JavaScript numbers that are array lengths, delays in milliseconds or
      clock readings are natural numbers ([nat] or [N]); all of them stay far
      below 2^53, where double arithmetic is exact.
    - The outside world (text-generation provider, photo-search provider,
      environment variable, clock) is a record of oracles; every external call
      and every timer is written to a trace. *)

From Stdlib Require Import List String Ascii Bool Arith NArith Lia.
From Stdlib Require Import Sorted Permutation FinFun DecimalString DecimalN.
Import ListNotations.

Local Open Scope string_scope.
Local Open Scope list_scope.
Local Open Scope nat_scope.

(* ================================================================== *)
(** * Part I.  Definitions                                             *)
(* ================================================================== *)

(** ** JavaScript strings *)

Definition code (c : ascii) : nat := nat_of_ascii c.

Definition between (lo hi n : nat) : bool := (lo <=? n) && (n <=? hi).

(** [\w] : the class [[A-Za-z0-9_]]. *)
Definition isWordChar (c : ascii) : bool :=
  let n := code c in
  between 65 90 n || between 97 122 n || between 48 57 n || (n =? 95).

(** [\s] restricted to code units below 256: TAB, LF, VT, FF, CR, SPACE and
    NO-BREAK SPACE. *)
Definition isSpaceChar (c : ascii) : bool :=
  let n := code c in
  between 9 13 n || (n =? 32) || (n =? 160).

(** [String.prototype.toLowerCase] on one code unit below 256: the ASCII
    capitals and the Latin-1 capitals (U+00C0..U+00DE except U+00D7) move up
    by 32. *)
Definition lowerChar (c : ascii) : ascii :=
  let n := code c in
  if between 65 90 n || between 192 214 n || between 216 222 n
  then ascii_of_nat (n + 32)
  else c.

Fixpoint mapString (f : ascii -> ascii) (s : string) : string :=
  match s with
  | EmptyString => EmptyString
  | String c r => String (f c) (mapString f r)
  end.

Fixpoint filterString (f : ascii -> bool) (s : string) : string :=
  match s with
  | EmptyString => EmptyString
  | String c r => if f c then String c (filterString f r) else filterString f r
  end.

Definition toLowerCase (s : string) : string := mapString lowerChar s.

(** [s.replace(/[^\w\s]/g, '')]. *)
Definition stripNonWord (s : string) : string :=
  filterString (fun c => isWordChar c || isSpaceChar c) s.

(** [s.split(/\s+/)], as the scan of the separator: [cur] is the piece being
    read, [inSep] tells that the previous character belonged to a separator.
    A separator at the start or at the end of the string yields an empty
    piece there, and the empty string yields one empty piece. *)
Fixpoint splitScan (cur : string) (inSep : bool) (s : string) : list string :=
  match s with
  | EmptyString => [cur]
  | String c r =>
      if isSpaceChar c
      then if inSep then splitScan EmptyString true r
           else cur :: splitScan EmptyString true r
      else splitScan (cur ++ String c EmptyString)%string false r
  end.

Definition splitWhitespace (s : string) : list string :=
  splitScan EmptyString false s.

(** [s.includes(sub)]. *)
Fixpoint includes (s sub : string) : bool :=
  match s with
  | EmptyString => String.prefix sub EmptyString
  | String _ r => String.prefix sub s || includes r sub
  end.

(** [Array.prototype.includes] on an array of strings. *)
Definition arrayIncludes (l : list string) (w : string) : bool :=
  existsb (String.eqb w) l.

(** [[...new Set(words)]]: the distinct elements in order of first
    occurrence.  [seen] is the set built so far. *)
Fixpoint setScan (seen : list string) (l : list string) : list string :=
  match l with
  | [] => []
  | x :: r =>
      if arrayIncludes seen x then setScan seen r
      else x :: setScan (x :: seen) r
  end.

Definition uniqueOf (l : list string) : list string := setScan [] l.

(** [arr.sort((a, b) => b.length - a.length)]: a stable sort, longest first.
    [insertByLength x l] puts [x], which preceded every element of [l] in the
    input, in front of the first element that is not longer than [x]. *)
Fixpoint insertByLength (x : string) (l : list string) : list string :=
  match l with
  | [] => [x]
  | y :: r =>
      if String.length y <=? String.length x then x :: y :: r
      else y :: insertByLength x r
  end.

Fixpoint sortByLengthDesc (l : list string) : list string :=
  match l with
  | [] => []
  | x :: r => insertByLength x (sortByLengthDesc r)
  end.

(** Number to string, for the non-negative integers the route prints. *)
Definition numberToString (n : N) : string :=
  NilEmpty.string_of_uint (N.to_uint n).

(** ** JavaScript values of a request field

    What the route can observe of a field of the JSON body: whether it is
    absent, whether it is a string, and for any other value (null, boolean,
    number, array, object) its truthiness and its string rendering.  A value
    that has no string rendering, an object whose conversion to a string
    throws, is outside these values. *)
Inductive jsval : Type :=
| JUndefined
| JStr (s : string)
| JOther (truthy : bool) (rendered : string).

Definition truthy (v : jsval) : bool :=
  match v with
  | JUndefined => false
  | JStr s => negb (String.eqb s EmptyString)
  | JOther t _ => t
  end.

Definition render (v : jsval) : string :=
  match v with
  | JUndefined => "undefined"
  | JStr s => s
  | JOther _ r => r
  end.

(** [v || d]. *)
Definition orElse (v d : jsval) : jsval := if truthy v then v else d.

(** ** Keyword extraction *)

Definition stopWords : list string :=
  ["the"; "a"; "an"; "and"; "or"; "but"; "in"; "on"; "at"; "to"; "for"; "of";
   "with"; "by"; "from"; "as"; "is"; "was"; "are"; "were"; "been"; "be";
   "have"; "has"; "had"; "do"; "does"; "did"; "will"; "would"; "could";
   "should"; "may"; "might"; "can"; "this"; "that"; "these"; "those"; "i";
   "you"; "he"; "she"; "it"; "we"; "they"; "what"; "which"; "who"; "when";
   "where"; "why"; "how"; "all"; "each"; "every"; "both"; "few"; "more";
   "most"; "other"; "some"; "such"; "no"; "nor"; "not"; "only"; "own"; "same";
   "so"; "than"; "too"; "very"; "just"; "about"; "write"; "create"; "make";
   "generate"; "content"; "article"; "blog"; "post"; "essay"; "email";
   "script"; "ad"; "seo"; "social"].

(** The predicate of the [filter]: [w.length > 3 && !stopWords.includes(w)]. *)
Definition keepWord (w : string) : bool :=
  (3 <? String.length w) && negb (arrayIncludes stopWords w).

(** The [words] array. *)
Definition promptWords (prompt : string) : list string :=
  filter keepWord (splitWhitespace (stripNonWord (toLowerCase prompt))).

Definition fallbackKeywords : list string :=
  ["professional"; "business"; "content"].

(** A JavaScript call either completes with a value or throws. *)
Inductive Completion (A : Type) : Type :=
| Normal (a : A)
| Throw (reason : string).
Arguments Normal {A} a.
Arguments Throw {A} reason.

(** [prompt.toLowerCase] exists on strings only: for any other value of
    [prompt] the first member access throws a [TypeError].  The second
    parameter is never read. *)
Definition extractKeywordsSimple (prompt contentType : jsval)
  : Completion (list string) :=
  match prompt with
  | JStr p =>
      let words := promptWords p in
      let uniqueWords := sortByLengthDesc (uniqueOf words) in
      let keywords := firstn 3 uniqueWords in
      Normal (if 0 <? List.length keywords then keywords else fallbackKeywords)
  | _ => Throw "TypeError"
  end.

Definition extractImageKeywords (prompt contentType : jsval)
  (generatedContent : string) : Completion (list string) :=
  extractKeywordsSimple prompt contentType.

(** ** The outside world *)

Inductive Event : Type :=
| LlmCall (model prompt : string)      (* model.generateContent(prompt) *)
| Sleep (ms : nat)                     (* setTimeout(resolve, ms) awaited *)
| UnsplashSearch (keyword : string).   (* fetch of the photo search *)

Definition Trace : Type := list Event.

(** The [error] caught around a provider call: its [status] and [message]
    properties, either of which may be missing. *)
Record ApiError : Type := mkApiError {
  status : option nat;
  message : option string
}.

Inductive LlmOutcome : Type :=
| Generated (text : string)
| Failed (error : ApiError).

(** One photo search: the fetch rejects, the response is not [ok], the body
    cannot be read as expected, the result list is missing or empty, or the
    first result carries a URL. *)
Inductive SearchOutcome : Type :=
| FetchRejected
| NotOk (httpStatus : nat)
| BadBody
| NoResults
| Found (imageUrl : string).

(** The oracles see the trace of what happened before the call. *)
Record World : Type := mkWorld {
  llm : Trace -> string -> string -> LlmOutcome;
  unsplashKey : option string;          (* process.env.VITE_UNSPLASH_ACCESS_KEY *)
  unsplash : Trace -> string -> SearchOutcome;
  now : N                               (* Date.now() *)
}.

(** ** Content generation: models and retries *)

Inductive ErrorClass : Type := RateLimited | NotFound | OtherError.

Definition statusIs (e : ApiError) (n : nat) : bool :=
  match status e with
  | Some s => s =? n
  | None => false
  end.

(** [error.message?.includes(sub)]. *)
Definition messageIncludes (e : ApiError) (sub : string) : bool :=
  match message e with
  | Some m => includes m sub
  | None => false
  end.

(** The order of the tests of the [catch] block: the rate-limit test comes
    first, the 404 test second. *)
Definition classify (e : ApiError) : ErrorClass :=
  if statusIs e 429 || messageIncludes e "quota" || messageIncludes e "429"
  then RateLimited
  else if statusIs e 404 then NotFound
  else OtherError.

(** [if (attempt < maxRetries - 1) await setTimeout(base * (attempt + 1))]. *)
Definition backoff (base attempt maxRetries : nat) (tr : Trace) : Trace :=
  if attempt <? maxRetries - 1
  then tr ++ [Sleep (base * (attempt + 1))]
  else tr.

Inductive Attempted : Type :=
| Returned (text : string)
| NextModel.

(** The inner [for] loop on one model.  [remaining] is the number of
    iterations the loop still has, [maxRetries - attempt]. *)
Fixpoint attemptLoop (w : World) (modelName prompt : string)
  (maxRetries remaining attempt : nat) (tr : Trace) : Attempted * Trace :=
  match remaining with
  | 0 => (NextModel, tr)
  | S k =>
      let tr1 := tr ++ [LlmCall modelName prompt] in
      match llm w tr modelName prompt with
      | Generated text => (Returned text, tr1)
      | Failed e =>
          match classify e with
          | RateLimited =>
              attemptLoop w modelName prompt maxRetries k (S attempt)
                (backoff 2000 attempt maxRetries tr1)
          | NotFound => (NextModel, tr1)
          | OtherError =>
              attemptLoop w modelName prompt maxRetries k (S attempt)
                (backoff 1000 attempt maxRetries tr1)
          end
      end
  end.

Definition exhaustedMessage : string :=
  "All models failed after retries. Free tier quota may be exceeded. Please check your API billing at https://ai.google.dev/".

(** The outer [for] loop and the final [throw]. *)
Fixpoint modelLoop (w : World) (prompt : string) (maxRetries : nat)
  (models : list string) (tr : Trace) : Completion string * Trace :=
  match models with
  | [] => (Throw exhaustedMessage, tr)
  | modelName :: rest =>
      match attemptLoop w modelName prompt maxRetries maxRetries 0 tr with
      | (Returned text, tr') => (Normal text, tr')
      | (NextModel, tr') => modelLoop w prompt maxRetries rest tr'
      end
  end.

Definition models : list string := ["gemini-2.5-flash"].

Definition generateWithRetry (w : World) (prompt : string) (maxRetries : nat)
  (tr : Trace) : Completion string * Trace :=
  modelLoop w prompt maxRetries models tr.

(** ** Image sourcing *)

Record ImageResult : Type := mkImage {
  url : string;
  source : string
}.

Definition envIsSet (v : option string) : bool :=
  match v with
  | Some s => negb (String.eqb s EmptyString)
  | None => false
  end.

(** The [for] loop over the keywords; every outcome but a found image skips
    the keyword. *)
Fixpoint searchLoop (w : World) (keywords : list string)
  (images : list ImageResult) (tr : Trace) : list ImageResult * Trace :=
  match keywords with
  | [] => (images, tr)
  | keyword :: rest =>
      let tr1 := tr ++ [UnsplashSearch keyword] in
      match unsplash w tr keyword with
      | Found imageUrl =>
          searchLoop w rest (images ++ [mkImage imageUrl "unsplash"]) tr1
      | _ => searchLoop w rest images tr1
      end
  end.

(** [None] is the [null] result. *)
Definition fetchUnsplashImages (w : World) (keywords : list string)
  (tr : Trace) : option (list ImageResult) * Trace :=
  if negb (envIsSet (unsplashKey w)) then (None, tr)
  else
    let '(images, tr') := searchLoop w keywords [] tr in
    if 0 <? List.length images then (Some images, tr') else (None, tr').

Definition placeholder (baseTime : N) (index : nat) : ImageResult :=
  let imageId := ((baseTime + N.of_nat index * 100) mod 1000 + 1)%N in
  let cacheBuster := (baseTime + N.of_nat index)%N in
  mkImage ("https://picsum.photos/800/600?random=" ++ numberToString imageId
           ++ "&t=" ++ numberToString cacheBuster)%string
          "stock".

(** [while (imageResults.length < 3)]; the loop runs at most three times. *)
Fixpoint padLoop (fuel : nat) (baseTime : N) (imageResults : list ImageResult)
  : list ImageResult :=
  match fuel with
  | 0 => imageResults
  | S k =>
      if List.length imageResults <? 3
      then padLoop k baseTime
             (imageResults ++ [placeholder baseTime (List.length imageResults)])
      else imageResults
  end.

Record ImageSuggestions : Type := mkSuggestions {
  images : list string;
  tags : list string
}.

(** The [try] block. *)
Definition imageSuggestionsBody (w : World) (prompt contentType : jsval)
  (generatedContent : string) (tr : Trace)
  : Completion (ImageSuggestions * Trace) :=
  match extractImageKeywords prompt contentType generatedContent with
  | Throw reason => Throw reason
  | Normal keywords =>
      let '(unsplashImages, tr1) :=
        fetchUnsplashImages w (firstn 3 keywords) tr in
      let imageResults :=
        match unsplashImages with
        | Some l => if 0 <? List.length l then l else []
        | None => []
        end in
      let baseTime := now w in
      let picumCount := 3 - List.length imageResults in
      let imageResults :=
        if 0 <? picumCount then padLoop 3 baseTime imageResults
        else imageResults in
      Normal (mkSuggestions (map url (firstn 3 imageResults))
                            (map source (firstn 3 imageResults)), tr1)
  end.

(** The value of the [catch] block. *)
Definition finalFallback : ImageSuggestions :=
  mkSuggestions
    ["https://picsum.photos/800/600?random=1";
     "https://picsum.photos/800/600?random=2";
     "https://picsum.photos/800/600?random=3"]
    ["stock"; "stock"; "stock"].

Definition generateImageSuggestions (w : World) (prompt contentType : jsval)
  (generatedContent : string) (tr : Trace) : ImageSuggestions * Trace :=
  match imageSuggestionsBody w prompt contentType generatedContent tr with
  | Normal r => r
  | Throw _ => (finalFallback, tr)
  end.

(** ** The request handler *)

Record Request : Type := mkRequest {
  prompt : jsval;
  tone : jsval;
  wordCount : jsval;
  contentType : jsval;
  platform : jsval
}.

Inductive Response : Type :=
| Ok200 (content : string) (wordCount : nat) (platform : jsval)
        (images imageTypes : list string)
| Bad400 (error : string)
| Err500 (error : string).

Definition platformInstructions : list (string * string) :=
  [("standard", "Use clear paragraphs with proper spacing.");
   ("linkedin", "Format for LinkedIn: Use short paragraphs (2-3 lines), include relevant hashtags at the end, start with a hook, and use emojis sparingly for emphasis.");
   ("facebook", "Format for Facebook: Conversational tone, use line breaks for readability, include a call-to-action, and make it engaging for social sharing.");
   ("medium", "Format for Medium: Use a compelling title suggestion, include subheadings (marked with ##), write in a storytelling style, and structure with introduction, body, and conclusion.");
   ("twitter", "Format for Twitter/X: Create a thread-style format with numbered points, keep each section under 280 characters, use relevant hashtags.");
   ("instagram", "Format for Instagram caption: Start with an attention-grabbing first line, use line breaks, include relevant emojis, and add hashtags at the end.");
   ("blog", "Format as a blog post: Include a catchy title, introduction, multiple sections with subheadings, bullet points where appropriate, and a conclusion with call-to-action.")].

Fixpoint property (table : list (string * string)) (key : string)
  : option string :=
  match table with
  | [] => None
  | (k, v) :: rest => if String.eqb k key then Some v else property rest key
  end.

(** [platformInstructions[platform] || platformInstructions.standard], on
    the own keys of the table.  The keys an object literal inherits
    ([constructor], [toString], ...) are not modelled: the text composed here
    is only handed to the provider oracle, which is arbitrary. *)
Definition platformInstruction (platform : jsval) : string :=
  match property platformInstructions (render platform) with
  | Some v => v
  | None => "Use clear paragraphs with proper spacing."
  end.

Definition nl : string := String (ascii_of_nat 10) EmptyString.
Definition dq : string := String (ascii_of_nat 34) EmptyString.
(** The bullet character U+2022, written as its three UTF-8 bytes. *)
Definition bullet : string :=
  String (ascii_of_nat 226)
    (String (ascii_of_nat 128) (String (ascii_of_nat 162) EmptyString)).

Definition unlines (l : list string) : string := String.concat nl l.

Definition enhancedPrompt (req : Request) : string :=
  unlines
    [("Generate " ++ render (orElse (contentType req) (JStr "content"))
      ++ " with a " ++ render (orElse (tone req) (JStr "professional"))
      ++ " tone, approximately "
      ++ render (orElse (wordCount req) (JOther true "500")) ++ " words.")%string;
     "";
     ("Platform: " ++ render (orElse (platform req) (JStr "standard")))%string;
     ("Formatting: " ++ platformInstruction (platform req))%string;
     "";
     ("Content request: " ++ render (prompt req))%string;
     "";
     "IMPORTANT FORMATTING RULES:";
     "1. Use **bold** for key points and important phrases";
     ("2. Use bullet points (" ++ bullet ++ ") for lists")%string;
     ("3. Mark section headings with ## (e.g., " ++ dq
      ++ "## Benefits of Cloud Computing" ++ dq ++ ")")%string;
     "4. Mark sub-headings with ### if needed";
     "5. Highlight main takeaways";
     "6. Make it visually scannable and engaging";
     "7. Use proper spacing between sections";
     "";
     "CRITICAL: Provide ONLY the requested content. Do NOT include:";
     ("- Meta-commentary like " ++ dq ++ "Here is..." ++ dq ++ ", " ++ dq
      ++ "Here's a breakdown..." ++ dq ++ ", " ++ dq ++ "I'll provide..."
      ++ dq)%string;
     "- Explanations about what you're doing";
     "- Introductory phrases about the content";
     "- Any text that isn't part of the actual content itself";
     "";
     "Start directly with the content."].

(** The message of the 500 answer. *)
Definition failureMessage (errorMessage : string) : string :=
  ("Failed to generate content. "
   ++ (if includes errorMessage "quota"
       then "Free tier quota exceeded. Please upgrade your plan at https://ai.google.dev/"
       else errorMessage))%string.

(** [router.post("/", ...)]: the answer sent and the trace of the external
    calls and timers of the request.  [generateWithRetry] is called with its
    default [maxRetries = 2]. *)
Definition router_post (w : World) (req : Request) : Response * Trace :=
  if negb (truthy (prompt req)) then (Bad400 "Prompt is required", [])
  else
    match generateWithRetry w (enhancedPrompt req) 2 [] with
    | (Throw errorMessage, tr) => (Err500 (failureMessage errorMessage), tr)
    | (Normal text, tr) =>
        let '(imageResult, tr') :=
          generateImageSuggestions w (prompt req) (contentType req) text tr in
        let imageUrls := images imageResult in
        let imageTags := tags imageResult in
        (Ok200 text
               (List.length (splitWhitespace text))
               (orElse (platform req) (JStr "standard"))
               imageUrls
               (if 0 <? List.length imageTags then imageTags else []),
         tr')
    end.

(** ** The earlier variant of the route

    The repository also carries an earlier text of the route (three models,
    an AI image tried first).  Its retry loop and its keyword extraction
    differ from the mounted route and are kept here for comparison. *)
Module Legacy.

Definition stopWords : list string :=
  ["the"; "a"; "an"; "and"; "or"; "but"; "in"; "on"; "at"; "to"; "for"; "of";
   "with"; "by"; "from"; "as"; "is"; "was"; "are"; "were"; "been"; "be";
   "have"; "has"; "had"; "do"; "does"; "did"; "will"; "would"; "could";
   "should"; "may"; "might"; "can"; "this"; "that"; "these"; "those"; "i";
   "you"; "he"; "she"; "it"; "we"; "they"; "what"; "which"; "who"; "when";
   "where"; "why"; "how"; "all"; "each"; "every"; "both"; "few"; "more";
   "most"; "other"; "some"; "such"; "no"; "nor"; "not"; "only"; "own"; "same";
   "so"; "than"; "too"; "very"; "just"; "about"; "write"; "create"; "make";
   "generate"; "content"; "article"; "blog"; "post"].

Definition keepWord (w : string) : bool :=
  (3 <? String.length w) && negb (arrayIncludes stopWords w).

(** Here the content type is pushed after the prompt keywords when fewer
    than three were found, and it heads the fallback list. *)
Definition extractKeywordsSimple (prompt contentType : jsval)
  : Completion (list jsval) :=
  match prompt with
  | JStr p =>
      let words :=
        filter keepWord (splitWhitespace (stripNonWord (toLowerCase p))) in
      let uniqueWords := sortByLengthDesc (uniqueOf words) in
      let keywords := map JStr (firstn 3 uniqueWords) in
      let keywords :=
        if (List.length keywords <? 3) && truthy contentType
        then keywords ++ [contentType] else keywords in
      Normal (if 0 <? List.length keywords then keywords
              else [orElse contentType (JStr "business");
                    JStr "technology"; JStr "professional"])
  | _ => Throw "TypeError"
  end.

(** The inner loop: every error is retried, with the same delay. *)
Fixpoint attemptLoop (w : World) (modelName prompt : string)
  (maxRetries remaining attempt : nat) (tr : Trace) : Attempted * Trace :=
  match remaining with
  | 0 => (NextModel, tr)
  | S k =>
      let tr1 := tr ++ [LlmCall modelName prompt] in
      match llm w tr modelName prompt with
      | Generated text => (Returned text, tr1)
      | Failed _ =>
          attemptLoop w modelName prompt maxRetries k (S attempt)
            (backoff 1000 attempt maxRetries tr1)
      end
  end.

Fixpoint modelLoop (w : World) (prompt : string) (maxRetries : nat)
  (models : list string) (tr : Trace) : Completion string * Trace :=
  match models with
  | [] => (Throw "All models failed after retries", tr)
  | modelName :: rest =>
      match attemptLoop w modelName prompt maxRetries maxRetries 0 tr with
      | (Returned text, tr') => (Normal text, tr')
      | (NextModel, tr') => modelLoop w prompt maxRetries rest tr'
      end
  end.

Definition models : list string :=
  ["gemini-2.0-flash"; "gemini-1.5-flash-latest"; "gemini-1.5-pro-latest"].

Definition generateWithRetry (w : World) (prompt : string) (maxRetries : nat)
  (tr : Trace) : Completion string * Trace :=
  modelLoop w prompt maxRetries models tr.

End Legacy.

(** ** The client: draft, status and version history *)
Module Client.

Inductive Status : Type := draft | approved | rejected.

Record ContentVersion : Type := mkVersion {
  content : string;
  timestamp : N          (* new Date(), as milliseconds *)
}.

(** The answer of the service as the component reads it. *)
Record GenerateResponse : Type := mkResponse {
  responseContent : string;
  responseWordCount : nat;
  responseImages : option (list string)
}.

(** The fields of [AppComponent] that the editing workflow touches. *)
Record AppComponent : Type := mkApp {
  prompt : string;
  generatedContent : string;
  actualWordCount : nat;
  isLoading : bool;
  isRefining : bool;
  error : string;
  refinePrompt : string;
  contentStatus : Status;
  isEditing : bool;
  editableContent : string;
  contentHistory : list ContentVersion;
  currentVersion : nat;
  contentImages : list string
}.

(** The field initialisers of the class. *)
Definition initial : AppComponent :=
  mkApp "" "" 0 false false "" "" draft false "" [] 0 [].

(** [!s.trim()]: the string is empty once its white space is trimmed. *)
Fixpoint isBlank (s : string) : bool :=
  match s with
  | EmptyString => true
  | String c r => isSpaceChar c && isBlank r
  end.

(** [contentHistory.unshift(...)] and [currentVersion = 0]. *)
Definition addToHistory (s : AppComponent) (text : string) (t : N)
  : AppComponent :=
  mkApp (prompt s) (generatedContent s) (actualWordCount s) (isLoading s)
        (isRefining s) (error s) (refinePrompt s) (contentStatus s)
        (isEditing s) (editableContent s)
        (mkVersion text t :: contentHistory s) 0 (contentImages s).

(** [generate()] up to the moment the request is sent; with a blank prompt
    only the error text is set and no request is sent. *)
Definition generate (s : AppComponent) : AppComponent :=
  if isBlank (prompt s)
  then mkApp (prompt s) (generatedContent s) (actualWordCount s) (isLoading s)
             (isRefining s) "Please enter a prompt" (refinePrompt s)
             (contentStatus s) (isEditing s) (editableContent s)
             (contentHistory s) (currentVersion s) (contentImages s)
  else mkApp (prompt s) "" 0 true
             (isRefining s) "" (refinePrompt s)
             (contentStatus s) (isEditing s) (editableContent s)
             (contentHistory s) (currentVersion s) (contentImages s).

(** The [next] callback of [generate()]. *)
Definition generateNext (s : AppComponent) (r : GenerateResponse) (t : N)
  : AppComponent :=
  let s1 :=
    mkApp (prompt s) (responseContent r) (responseWordCount r) (isLoading s)
          (isRefining s) (error s) (refinePrompt s) draft
          (isEditing s) (editableContent s)
          (contentHistory s) (currentVersion s)
          (match responseImages r with Some l => l | None => [] end) in
  let s2 := addToHistory s1 (responseContent r) t in
  mkApp (prompt s2) (generatedContent s2) (actualWordCount s2) false
        (isRefining s2) (error s2) (refinePrompt s2) (contentStatus s2)
        (isEditing s2) (editableContent s2)
        (contentHistory s2) (currentVersion s2) (contentImages s2).

(** The [error] callback of [generate()]. *)
Definition generateError (s : AppComponent) : AppComponent :=
  mkApp (prompt s) (generatedContent s) (actualWordCount s) false
        (isRefining s) "Failed to generate content. Please try again."
        (refinePrompt s) (contentStatus s) (isEditing s) (editableContent s)
        (contentHistory s) (currentVersion s) (contentImages s).

(** [loadVersion(index)]: the index is stored first; reading the content of
    a version that does not exist throws and leaves the draft as it was. *)
Definition loadVersion (s : AppComponent) (index : nat) : AppComponent :=
  match nth_error (contentHistory s) index with
  | Some v =>
      mkApp (prompt s) (content v)
            (List.length (splitWhitespace (content v))) (isLoading s)
            (isRefining s) (error s) (refinePrompt s) (contentStatus s)
            (isEditing s) (editableContent s)
            (contentHistory s) index (contentImages s)
  | None =>
      mkApp (prompt s) (generatedContent s) (actualWordCount s) (isLoading s)
            (isRefining s) (error s) (refinePrompt s) (contentStatus s)
            (isEditing s) (editableContent s)
            (contentHistory s) index (contentImages s)
  end.

Definition approveContent (s : AppComponent) : AppComponent :=
  mkApp (prompt s) (generatedContent s) (actualWordCount s) (isLoading s)
        (isRefining s) (error s) (refinePrompt s) approved
        (isEditing s) (editableContent s)
        (contentHistory s) (currentVersion s) (contentImages s).

Definition rejectContent (s : AppComponent) : AppComponent :=
  mkApp (prompt s) "" (actualWordCount s) (isLoading s)
        (isRefining s) (error s) (refinePrompt s) rejected
        (isEditing s) (editableContent s)
        [] (currentVersion s) (contentImages s).

Definition startEditing (s : AppComponent) : AppComponent :=
  mkApp (prompt s) (generatedContent s) (actualWordCount s) (isLoading s)
        (isRefining s) (error s) (refinePrompt s) (contentStatus s)
        true (generatedContent s)
        (contentHistory s) (currentVersion s) (contentImages s).

(** The editor's text area is bound to [editableContent]. *)
Definition typeEdit (s : AppComponent) (text : string) : AppComponent :=
  mkApp (prompt s) (generatedContent s) (actualWordCount s) (isLoading s)
        (isRefining s) (error s) (refinePrompt s) (contentStatus s)
        (isEditing s) text
        (contentHistory s) (currentVersion s) (contentImages s).

(** The prompt field is bound to [prompt]. *)
Definition typePrompt (s : AppComponent) (text : string) : AppComponent :=
  mkApp text (generatedContent s) (actualWordCount s) (isLoading s)
        (isRefining s) (error s) (refinePrompt s) (contentStatus s)
        (isEditing s) (editableContent s)
        (contentHistory s) (currentVersion s) (contentImages s).

Definition saveEdit (s : AppComponent) (t : N) : AppComponent :=
  let text := editableContent s in
  let s1 :=
    mkApp (prompt s) text (List.length (splitWhitespace text)) (isLoading s)
          (isRefining s) (error s) (refinePrompt s) (contentStatus s)
          (isEditing s) (editableContent s)
          (contentHistory s) (currentVersion s) (contentImages s) in
  let s2 := addToHistory s1 text t in
  mkApp (prompt s2) (generatedContent s2) (actualWordCount s2) (isLoading s2)
        (isRefining s2) (error s2) (refinePrompt s2) draft
        false (editableContent s2)
        (contentHistory s2) (currentVersion s2) (contentImages s2).

Definition cancelEdit (s : AppComponent) : AppComponent :=
  mkApp (prompt s) (generatedContent s) (actualWordCount s) (isLoading s)
        (isRefining s) (error s) (refinePrompt s) (contentStatus s)
        false ""
        (contentHistory s) (currentVersion s) (contentImages s).

(** [applySuggestion(suggestion)]. *)
Definition applySuggestion (s : AppComponent) (suggestion : string)
  : AppComponent :=
  mkApp (prompt s) (generatedContent s) (actualWordCount s) (isLoading s)
        (isRefining s) (error s) suggestion (contentStatus s)
        (isEditing s) (editableContent s)
        (contentHistory s) (currentVersion s) (contentImages s).

(** [refineContent()] up to the moment the request is sent. *)
Definition refineContent (s : AppComponent) : AppComponent :=
  if isBlank (refinePrompt s) || String.eqb (generatedContent s) ""
  then s
  else mkApp (prompt s) (generatedContent s) (actualWordCount s) (isLoading s)
             true "" (refinePrompt s) (contentStatus s)
             (isEditing s) (editableContent s)
             (contentHistory s) (currentVersion s) (contentImages s).

(** The [error] callback of [refineContent()]. *)
Definition refineError (s : AppComponent) : AppComponent :=
  mkApp (prompt s) (generatedContent s) (actualWordCount s) (isLoading s)
        false "Failed to refine content. Please try again."
        (refinePrompt s) (contentStatus s) (isEditing s) (editableContent s)
        (contentHistory s) (currentVersion s) (contentImages s).

(** The [next] callback of [refineContent()]. *)
Definition refineNext (s : AppComponent) (r : GenerateResponse) (t : N)
  : AppComponent :=
  let s1 :=
    mkApp (prompt s) (responseContent r) (responseWordCount r) (isLoading s)
          (isRefining s) (error s) (refinePrompt s) draft
          (isEditing s) (editableContent s)
          (contentHistory s) (currentVersion s) (contentImages s) in
  let s2 := addToHistory s1 (responseContent r) t in
  mkApp (prompt s2) (generatedContent s2) (actualWordCount s2) (isLoading s2)
        false (error s2) "" (contentStatus s2)
        (isEditing s2) (editableContent s2)
        (contentHistory s2) (currentVersion s2) (contentImages s2).

(** What the user and the service do to the component, one event each. *)
Inductive Action : Type :=
| TypePrompt (text : string)
| Generate
| GenerateNext (r : GenerateResponse) (t : N)
| GenerateError
| LoadVersion (index : nat)
| Approve
| Reject
| StartEditing
| TypeEdit (text : string)
| SaveEdit (t : N)
| CancelEdit
| ApplySuggestion (suggestion : string)
| Refine
| RefineNext (r : GenerateResponse) (t : N)
| RefineError.

Definition step (s : AppComponent) (a : Action) : AppComponent :=
  match a with
  | TypePrompt text => typePrompt s text
  | Generate => generate s
  | GenerateNext r t => generateNext s r t
  | GenerateError => generateError s
  | LoadVersion i => loadVersion s i
  | Approve => approveContent s
  | Reject => rejectContent s
  | StartEditing => startEditing s
  | TypeEdit text => typeEdit s text
  | SaveEdit t => saveEdit s t
  | CancelEdit => cancelEdit s
  | ApplySuggestion suggestion => applySuggestion s suggestion
  | Refine => refineContent s
  | RefineNext r t => refineNext s r t
  | RefineError => refineError s
  end.

Definition run (s : AppComponent) (acts : list Action) : AppComponent :=
  fold_left step acts s.

(** The version an action puts on the history, if it puts one. *)
Definition appended (s : AppComponent) (a : Action) : option ContentVersion :=
  match a with
  | GenerateNext r t => Some (mkVersion (responseContent r) t)
  | RefineNext r t => Some (mkVersion (responseContent r) t)
  | SaveEdit t => Some (mkVersion (editableContent s) t)
  | _ => None
  end.

(** The versions put on the history along a run, oldest first. *)
Fixpoint chronicle (s : AppComponent) (acts : list Action)
  : list ContentVersion :=
  match acts with
  | [] => []
  | a :: rest =>
      match appended s a with
      | Some v => v :: chronicle (step s a) rest
      | None => chronicle (step s a) rest
      end
  end.

(** The actions of the claim on the history: generations and refinements
    with their outcome, saved edits, and what goes with them; all actions but
    rejecting the content and loading an earlier version. *)
Definition isWriting (a : Action) : bool :=
  match a with
  | Reject | LoadVersion _ => false
  | _ => true
  end.

Definition isAppend (a : Action) : bool :=
  match a with
  | GenerateNext _ _ | SaveEdit _ | RefineNext _ _ => true
  | _ => false
  end.

End Client.

(** ** Predicates of the statements *)

(** Every character of the string satisfies the test. *)
Fixpoint allChars (f : ascii -> bool) (s : string) : bool :=
  match s with
  | EmptyString => true
  | String c r => f c && allChars f r
  end.

(** The characters a keyword taken from a prompt is made of: [[a-z0-9_]]. *)
Definition isKeywordChar (c : ascii) : bool :=
  let n := code c in
  between 97 122 n || between 48 57 n || (n =? 95).

(** Longest first. *)
Definition longerFirst (a b : string) : Prop :=
  String.length b <= String.length a.

(** The provider calls of a trace, the number of those made to one model,
    and the delays waited. *)
Definition isCall (e : Event) : bool :=
  match e with
  | LlmCall _ _ => true
  | _ => false
  end.

Definition isExternal (e : Event) : bool :=
  match e with
  | LlmCall _ _ | UnsplashSearch _ => true
  | Sleep _ => false
  end.

Definition llmCalls (tr : Trace) : list Event := filter isCall tr.

Definition callsTo (modelName : string) (tr : Trace) : nat :=
  List.length
    (filter (fun e => match e with
                      | LlmCall m _ => String.eqb m modelName
                      | _ => false
                      end) tr).

Definition delays (tr : Trace) : list nat :=
  flat_map (fun e => match e with Sleep ms => [ms] | _ => [] end) tr.

(** The base delay of the two classes of error that are retried. *)
Definition baseDelayMs (c : ErrorClass) : nat :=
  match c with
  | RateLimited => 2000
  | _ => 1000
  end.

(** The linear schedule of the specification for one model: [maxRetries]
    calls, and before each retry a wait of [baseDelay * (attempt + 1)] where
    [attempt] numbers the call that failed. *)
Definition linearSchedule (prompt : string) (maxRetries baseDelay : nat)
  (modelName : string) : Trace :=
  flat_map (fun attempt =>
              LlmCall modelName prompt
              :: (if S attempt <? maxRetries
                  then [Sleep (baseDelay * (attempt + 1))] else []))
           (seq 0 maxRetries).

(** A wait of the linear schedule for the failed attempt [attempt], with the
    base delay of one of the retried classes of error. *)
Definition linearDelay (delay attempt : nat) : Prop :=
  exists c, c <> NotFound /\ delay = baseDelayMs c * (attempt + 1).

(** [sourced w keywords found]: the entries [found] were obtained from the
    photo search of [w], each for one of the keywords and in the order of the
    keywords, and carry the tag of the search. *)
Inductive sourced (w : World) : list string -> list ImageResult -> Prop :=
| sourced_nil : sourced w [] []
| sourced_skip keyword rest found :
    sourced w rest found -> sourced w (keyword :: rest) found
| sourced_found keyword rest found tr imageUrl :
    unsplash w tr keyword = Found imageUrl ->
    sourced w rest found ->
    sourced w (keyword :: rest) (mkImage imageUrl "unsplash" :: found).

(** The decimal digits. *)
Definition isDigit (c : ascii) : bool := between 48 57 (code c).

(** The placeholder URL of the specification for one slot. *)
Definition placeholderUrl (baseTime : N) (index : nat) : string :=
  ("https://picsum.photos/800/600?random="
   ++ numberToString ((baseTime + N.of_nat index * 100) mod 1000 + 1)
   ++ "&t=" ++ numberToString (baseTime + N.of_nat index))%string.

(** The number of white-space separated tokens of a text: the maximal runs
    of characters that are not white space.  [inToken] tells that the
    previous character belonged to a token. *)
Fixpoint tokenRuns (inToken : bool) (s : string) : nat :=
  match s with
  | EmptyString => 0
  | String c r =>
      if isSpaceChar c then tokenRuns false r
      else (if inToken then 0 else 1) + tokenRuns true r
  end.

Definition countTokens (s : string) : nat := tokenRuns false s.

Definition startsWithSpace (s : string) : bool :=
  match s with
  | EmptyString => false
  | String c _ => isSpaceChar c
  end.

Fixpoint endsInSpace (last : bool) (s : string) : bool :=
  match s with
  | EmptyString => last
  | String c r => endsInSpace (isSpaceChar c) r
  end.

Definition endsWithSpace (s : string) : bool := endsInSpace false s.

(** ** Sample worlds and requests *)

Definition sampleTime : N := 1700000000950%N.

(** The provider answers at once; no photo-search credential. *)
Definition calmWorld : World :=
  mkWorld (fun _ _ _ => Generated ("Hello world" ++ nl)%string)
          None
          (fun _ _ => FetchRejected)
          sampleTime.

(** Every provider call fails with a server error. *)
Definition brokenWorld : World :=
  mkWorld (fun _ _ _ => Failed (mkApiError (Some 500) (Some "boom")))
          None
          (fun _ _ => FetchRejected)
          sampleTime.

(** Model [model-a] is unknown to the provider; [model-b] fails once with a
    server error and answers the second time. *)
Definition fallbackWorld : World :=
  mkWorld (fun tr m _ =>
             if String.eqb m "model-a"
             then Failed (mkApiError (Some 404) (Some "model not found"))
             else if callsTo "model-b" tr =? 0
                  then Failed (mkApiError (Some 503) (Some "unavailable"))
                  else Generated "text of model-b")
          None
          (fun _ _ => FetchRejected)
          sampleTime.

(** A photo-search credential is set; the search finds a picture for
    [healthcare] only. *)
Definition photoWorld : World :=
  mkWorld (fun _ _ _ => Generated "Hello world")
          (Some "access-key")
          (fun _ k => if String.eqb k "healthcare"
                      then Found "https://images.unsplash.com/photo-1"
                      else NoResults)
          sampleTime.

Definition sampleRequest : Request :=
  mkRequest (JStr "Write about AI in healthcare") (JStr "professional")
            (JOther true "500") (JStr "article") (JStr "linkedin").

Definition requestWithPrompt (v : jsval) : Request :=
  mkRequest v JUndefined JUndefined JUndefined JUndefined.

(** A session of the client: a generation that succeeds, an edit that is
    saved, and a second generation. *)
Definition sampleSession : list Client.Action :=
  [Client.TypePrompt "AI in healthcare";
   Client.Generate;
   Client.GenerateNext (Client.mkResponse "first draft" 2 None) 10%N;
   Client.StartEditing;
   Client.TypeEdit "first draft, edited";
   Client.SaveEdit 20%N;
   Client.Generate;
   Client.GenerateNext (Client.mkResponse "second draft" 2 (Some [])) 30%N].

(** The time stamps of a list of versions. *)
Definition stamps (l : list Client.ContentVersion) : list N :=
  map Client.timestamp l.

Definition notAfter (a b : N) : Prop := (a <= b)%N.
Definition notBefore (a b : N) : Prop := (b <= a)%N.

(** ** The earlier variant: AI images, the photo search and the handler

    The rest of the earlier text of the route.  Its two module-level
    variables [isRateLimited] and [rateLimitResetTime] outlive a request: they
    are the state of the process, threaded through the functions.  [Date.now()]
    is read several times; the process counts its readings and the clock of the
    environment gives the value of each. *)
Module LegacyRoute.

Record Process : Type := mkProcess {
  isRateLimited : bool;
  rateLimitResetTime : N;
  clockReads : nat                 (* readings of Date.now() so far *)
}.

(** The state of a process that has just started. *)
Definition started : Process := mkProcess false 0%N 0.

(** A part of the first candidate of an image answer: its [inlineData], when
    it has one, with a MIME type that may be missing. *)
Record InlineData : Type := mkInline {
  mimeType : option string;
  data : string
}.

Definition Part : Type := option InlineData.

(** One call of an image model: an answer, whose parts are [None] when it
    has no candidate or the candidate no parts, or an error. *)
Inductive ImageOutcome : Type :=
| Responded (parts : option (list Part))
| ImageFailed (error : ApiError).

(** The environment of the earlier route: the world of the mounted route
    (its key field stands for [process.env.UNSPLASH_ACCESS_KEY], its field
    [now] is not read), the image models and the clock. *)
Record Env : Type := mkEnv {
  world : World;
  imageModel : Trace -> string -> string -> ImageOutcome;
  clock : nat -> N
}.

(** [Date.now()]. *)
Definition dateNow (env : Env) (st : Process) : N * Process :=
  (clock env (clockReads st),
   mkProcess (isRateLimited st) (rateLimitResetTime st) (S (clockReads st))).

(** The clock is read only when the flag is set. *)
Definition shouldSkipAIImageGeneration (env : Env) (st : Process)
  : bool * Process :=
  if isRateLimited st
  then
    let '(t, st1) := dateNow env st in
    if (t <? rateLimitResetTime st1)%N then (true, st1)
    else (false, mkProcess false (rateLimitResetTime st1) (clockReads st1))
  else (false, mkProcess false (rateLimitResetTime st) (clockReads st)).

(** The test of the [catch] blocks of the image functions. *)
Definition isRateLimitError (e : ApiError) : bool :=
  statusIs e 429 || messageIncludes e "429" || messageIncludes e "quota".

(** The loop over the parts: the first part with inline data of an image
    type gives the data URL. *)
Fixpoint firstImage (parts : list Part) : option string :=
  match parts with
  | [] => None
  | part :: rest =>
      match part with
      | Some inline =>
          match mimeType inline with
          | Some m =>
              if String.prefix "image/" m
              then Some ("data:" ++ m ++ ";base64," ++ data inline)%string
              else firstImage rest
          | None => firstImage rest
          end
      | None => firstImage rest
      end
  end.

(** The common body of [generateImageWithImagen] and
    [generateImageWithGemini2Flash], which differ in the model and in the
    text of the prompt only.  [None] is the [null] result. *)
Definition generateImageWith (modelName imagePrompt : string)
  (env : Env) (st : Process) (tr : Trace) : option string * Process * Trace :=
  let '(skip, st1) := shouldSkipAIImageGeneration env st in
  if skip then (None, st1, tr)
  else
    let tr1 := tr ++ [LlmCall modelName imagePrompt] in
    match imageModel env tr modelName imagePrompt with
    | Responded (Some parts) => (firstImage parts, st1, tr1)
    | Responded None => (None, st1, tr1)
    | ImageFailed e =>
        if isRateLimitError e
        then
          let '(t, st2) := dateNow env st1 in
          (None, mkProcess true (t + 60000)%N (clockReads st2), tr1)
        else (None, st1, tr1)
    end.

Definition imagenPrompt (prompt contentType : jsval) : string :=
  ("Create a professional, high-quality illustration for: " ++ render prompt
   ++ ". " ++ nl
   ++ "Style: Modern, clean, suitable for "
   ++ render (orElse contentType (JStr "article")) ++ ". " ++ nl
   ++ "Requirements: No text, visually appealing, professional quality.")%string.

Definition flashPrompt (prompt contentType : jsval) : string :=
  ("Generate an image: A professional, high-quality visual representation for "
   ++ dq ++ render prompt ++ dq ++ ". " ++ nl
   ++ "Style: Modern, clean design suitable for "
   ++ render (orElse contentType (JStr "article")) ++ "." ++ nl
   ++ "The image should be visually striking and relevant to the topic.")%string.

Definition generateImageWithImagen (env : Env) (st : Process) (tr : Trace)
  (prompt contentType : jsval) : option string * Process * Trace :=
  generateImageWith "imagen-3.0-generate-002" (imagenPrompt prompt contentType)
                    env st tr.

Definition generateImageWithGemini2Flash (env : Env) (st : Process)
  (tr : Trace) (prompt contentType : jsval)
  : option string * Process * Trace :=
  generateImageWith "gemini-2.0-flash-exp" (flashPrompt prompt contentType)
                    env st tr.

Definition extractImageKeywords (prompt contentType : jsval)
  (generatedContent : string) : Completion (list jsval) :=
  Legacy.extractKeywordsSimple prompt contentType.

(** The loop of the photo search.  Here one [try] surrounds the whole loop:
    a fetch that rejects or a body that cannot be read ends it ([None]). *)
Fixpoint searchLoop (env : Env) (keywords : list jsval)
  (images : list string) (tr : Trace) : option (list string) * Trace :=
  match keywords with
  | [] => (Some images, tr)
  | keyword :: rest =>
      let tr1 := tr ++ [UnsplashSearch (render keyword)] in
      match unsplash (world env) tr (render keyword) with
      | Found imageUrl => searchLoop env rest (images ++ [imageUrl]) tr1
      | NotOk _ | NoResults => searchLoop env rest images tr1
      | FetchRejected | BadBody => (None, tr1)
      end
  end.

Definition fetchUnsplashImages (env : Env) (keywords : list jsval)
  (tr : Trace) : option (list string) * Trace :=
  if negb (envIsSet (unsplashKey (world env))) then (None, tr)
  else
    match searchLoop env keywords [] tr with
    | (Some images, tr') =>
        (if 0 <? List.length images then Some images else None, tr')
    | (None, tr') => (None, tr')
    end.

(** [while (images.length < 3)]. *)
Fixpoint padLoop (fuel : nat) (baseTime : N) (images : list string)
  : list string :=
  match fuel with
  | 0 => images
  | S k =>
      if List.length images <? 3
      then padLoop k baseTime
             (images ++ [url (placeholder baseTime (List.length images))])
      else images
  end.

Definition finalFallback : list string :=
  ["https://picsum.photos/800/600?random=1";
   "https://picsum.photos/800/600?random=2";
   "https://picsum.photos/800/600?random=3"].

Definition generateImageSuggestions (env : Env) (st : Process)
  (prompt contentType : jsval) (generatedContent : string) (tr : Trace)
  : list string * Process * Trace :=
  let '(first, st1, tr1) :=
    generateImageWithImagen env st tr prompt contentType in
  let '(aiGeneratedImage, st2, tr2) :=
    match first with
    | Some _ => (first, st1, tr1)
    | None => generateImageWithGemini2Flash env st1 tr1 prompt contentType
    end in
  let images :=
    match aiGeneratedImage with
    | Some image => [image]
    | None => []
    end in
  match extractImageKeywords prompt contentType generatedContent with
  | Throw _ => (finalFallback, st2, tr2)
  | Normal keywords =>
      let '(unsplashImages, tr3) :=
        fetchUnsplashImages env (firstn 2 keywords) tr2 in
      let images :=
        match unsplashImages with
        | Some l => if 0 <? List.length l then images ++ l else images
        | None => images
        end in
      let '(baseTime, st3) := dateNow env st2 in
      (firstn 3 (padLoop 3 baseTime images), st3, tr3)
  end.

(** [imageUrls[0]?.startsWith('data:') ? 'ai-generated' : 'stock']. *)
Definition firstImageType (imageUrls : list string) : string :=
  match imageUrls with
  | first :: _ => if String.prefix "data:" first then "ai-generated" else "stock"
  | [] => "stock"
  end.

(** [router.post("/", ...)] of the earlier variant: the answer, the state of
    the process after the request and the trace of the request. *)
Definition router_post (env : Env) (st : Process) (req : Request)
  : Response * Process * Trace :=
  if negb (truthy (prompt req)) then (Bad400 "Prompt is required", st, [])
  else
    match Legacy.generateWithRetry (world env) (enhancedPrompt req) 2 [] with
    | (Throw _, tr) => (Err500 "Failed to generate content", st, tr)
    | (Normal text, tr) =>
        let '(imageUrls, st', tr') :=
          generateImageSuggestions env st (prompt req) (contentType req)
                                   text tr in
        (Ok200 text
               (List.length (splitWhitespace text))
               (orElse (platform req) (JStr "standard"))
               imageUrls
               [firstImageType imageUrls; "stock"; "stock"],
         st', tr')
    end.

End LegacyRoute.

(** ** Further predicates of the statements *)

(** The keywords searched along a trace, in order. *)
Definition searchesOf (tr : Trace) : list string :=
  flat_map (fun e => match e with UnsplashSearch k => [k] | _ => [] end) tr.

(** What the retry loop may write to the trace for the prompt [p], the
    models [ms] and the bound [maxRetries]: a call of one of the models with
    the prompt, or a wait of the linear schedule after an attempt that has a
    successor. *)
Definition loopEvent (ms : list string) (p : string) (maxRetries : nat)
  (e : Event) : Prop :=
  match e with
  | LlmCall m q => In m ms /\ q = p
  | Sleep d =>
      exists c attempt,
        c <> NotFound /\ S attempt < maxRetries
        /\ d = baseDelayMs c * (attempt + 1)
  | UnsplashSearch _ => False
  end.

(** The entries the photo search finds for the keywords, each keyword asked
    once, after the searches of the keywords before it. *)
Fixpoint foundBy (w : World) (tr : Trace) (keywords : list string)
  : list ImageResult :=
  match keywords with
  | [] => []
  | keyword :: rest =>
      match unsplash w tr keyword with
      | Found imageUrl => [mkImage imageUrl "unsplash"]
      | _ => []
      end ++ foundBy w (tr ++ [UnsplashSearch keyword]) rest
  end.

(** The 500 answer of the mounted route after the retry loop gave up. *)
Definition quotaAnswer : string :=
  "Failed to generate content. Free tier quota exceeded. Please upgrade your plan at https://ai.google.dev/".

(** The tokens of a prompt in the words of the specification, read off the
    prompt itself.  A run is a stretch of the prompt without white space that
    white space or an end of the prompt bounds on either side. *)
Definition noSpace (s : string) : bool :=
  allChars (fun c => negb (isSpaceChar c)) s.

Definition maximalRun (p run : string) : Prop :=
  noSpace run = true
  /\ exists pre post,
       p = (pre ++ run ++ post)%string
       /\ (pre = EmptyString \/ endsWithSpace pre = true)
       /\ (post = EmptyString \/ startsWithSpace post = true).

(** [cleaned run w]: [w] is [run] in lower case without the characters that
    are no word characters. *)
Inductive cleaned : string -> string -> Prop :=
| cleaned_nil : cleaned EmptyString EmptyString
| cleaned_keep c run w :
    isWordChar (lowerChar c) = true ->
    cleaned run w -> cleaned (String c run) (String (lowerChar c) w)
| cleaned_drop c run w :
    isWordChar (lowerChar c) = false ->
    cleaned run w -> cleaned (String c run) w.

(** A token of the prompt: a run, lower-cased and stripped. *)
Definition tokenOf (p w : string) : Prop :=
  exists run, maximalRun p run /\ cleaned run w.

(** A field that is absent or a string: no conversion of it to a string can
    throw. *)
Definition isText (v : jsval) : bool :=
  match v with
  | JUndefined | JStr _ => true
  | JOther _ _ => false
  end.

Definition textFields (req : Request) : bool :=
  isText (prompt req) && isText (tone req) && isText (wordCount req)
  && isText (contentType req) && isText (platform req).

(** A photo-search credential is set and the search finds a picture for
    every keyword but [future]. *)
Definition galleryWorld : World :=
  mkWorld (fun _ _ _ => Generated "Hello world")
          (Some "access-key")
          (fun _ k => if String.eqb k "future" then NoResults
                      else Found ("https://images.unsplash.com/" ++ k)%string)
          sampleTime.

(** Splits a conjunction into its parts, and nothing else. *)
Ltac split_all := repeat match goal with |- _ /\ _ => split end.

(** An outcome of a photo search that makes the earlier route give up the
    whole search. *)
Definition rejects (o : SearchOutcome) : bool :=
  match o with
  | FetchRejected | BadBody => true
  | _ => false
  end.

(** Sample environments of the earlier route.  The image models answer
    without a picture; the clock advances by one second at each reading. *)
Definition sampleClock (n : nat) : N := (sampleTime + 1000 * N.of_nat n)%N.

Definition plainEnv : LegacyRoute.Env :=
  LegacyRoute.mkEnv calmWorld (fun _ _ _ => LegacyRoute.Responded None)
                    sampleClock.

(** The image models are over quota. *)
Definition limitedEnv : LegacyRoute.Env :=
  LegacyRoute.mkEnv calmWorld
    (fun _ _ _ => LegacyRoute.ImageFailed
                    (mkApiError (Some 429) (Some "Too Many Requests")))
    sampleClock.

(** The first image model draws a picture. *)
Definition drawingEnv : LegacyRoute.Env :=
  LegacyRoute.mkEnv calmWorld
    (fun _ _ _ =>
       LegacyRoute.Responded
         (Some [None;
                Some (LegacyRoute.mkInline (Some "image/png") "iVBORw0KGgo=")]))
    sampleClock.

(** A key is set and the second search is rejected. *)
Definition flakyEnv : LegacyRoute.Env :=
  LegacyRoute.mkEnv
    (mkWorld (fun _ _ _ => Generated "Hello world")
             (Some "access-key")
             (fun _ k => if String.eqb k "robots" then FetchRejected
                         else Found ("https://images.unsplash.com/" ++ k)%string)
             sampleTime)
    (fun _ _ _ => LegacyRoute.Responded None)
    sampleClock.

(** ** The requests of the client

    The fields of the form that [Client.AppComponent] leaves out, and the two
    requests the component sends.  [None]: no request is sent. *)
Module ClientRequests.

Record Form : Type := mkForm {
  tone : string;
  wordCount : nat;
  contentType : string;
  platform : string
}.

(** A number as a field of the JSON body. *)
Definition numberValue (n : nat) : jsval :=
  JOther (negb (n =? 0)) (numberToString (N.of_nat n)).

(** The request of [generate()]. *)
Definition generateRequest (s : Client.AppComponent) (f : Form)
  : option Request :=
  if Client.isBlank (Client.prompt s) then None
  else Some (mkRequest (JStr (Client.prompt s)) (JStr (tone f))
                       (numberValue (wordCount f)) (JStr (contentType f))
                       (JStr (platform f))).

(** The prompt of [refineContent()]. *)
Definition refinePromptText (s : Client.AppComponent) : string :=
  unlines
    ["You are refining existing content. Here is the original content:";
     EmptyString;
     "---ORIGINAL CONTENT START---";
     Client.generatedContent s;
     "---ORIGINAL CONTENT END---";
     EmptyString;
     ("REFINEMENT REQUEST: " ++ Client.refinePrompt s)%string;
     EmptyString;
     "INSTRUCTIONS:";
     "1. Apply ONLY the specific refinement requested above";
     "2. Keep ALL other aspects of the content exactly the same (tone, structure, formatting, headings)";
     ("3. Maintain the same word count (approximately "
      ++ numberToString (N.of_nat (Client.actualWordCount s)) ++ " words)")%string;
     "4. Preserve all formatting including **bold**, bullet points, and headings";
     "5. Do NOT add meta-commentary or explanations";
     "6. Return ONLY the refined content, nothing else";
     EmptyString;
     "Provide the refined content now:"].

(** The request of [refineContent()]. *)
Definition refineRequest (s : Client.AppComponent) (f : Form)
  : option Request :=
  if Client.isBlank (Client.refinePrompt s)
     || String.eqb (Client.generatedContent s) EmptyString
  then None
  else Some (mkRequest (JStr (refinePromptText s)) (JStr (tone f))
                       (numberValue (Client.actualWordCount s))
                       (JStr (contentType f)) (JStr (platform f))).

(** The values of the form when the component starts. *)
Definition initialForm : Form := mkForm "professional" 500 "article" "standard".

End ClientRequests.

(** Every [LoadVersion] of the run asks for a version the history holds at
    that moment, as the list of versions of the page does. *)
Fixpoint loadsInRange (s : Client.AppComponent) (acts : list Client.Action)
  : bool :=
  match acts with
  | [] => true
  | a :: rest =>
      match a with
      | Client.LoadVersion i =>
          i <? List.length (Client.contentHistory s)
      | _ => true
      end && loadsInRange (Client.step s a) rest
  end.

(** The draft on display is empty or is the content of the current version,
    and the index of the current version lies within a history that is not
    empty. *)
Definition draftIsCurrent (s : Client.AppComponent) : Prop :=
  (Client.generatedContent s = EmptyString
   \/ exists v,
        nth_error (Client.contentHistory s) (Client.currentVersion s) = Some v
        /\ Client.content v = Client.generatedContent s)
  /\ (Client.contentHistory s <> [] ->
      Client.currentVersion s < List.length (Client.contentHistory s)).

(** A session that loads an earlier version. *)
Definition browsingSession : list Client.Action :=
  sampleSession ++ [Client.LoadVersion 2; Client.Approve].

(** ** The formatted view of the draft

    The getter [formattedContent] of the component: five passes of
    [String.prototype.replace] with a global regular expression over the
    draft, then a step for each paragraph.

    Regular expressions are read on code units below 256.  There the line
    terminators are LF and CR: [.] matches any other character, and with
    the flag [m] the assertion [^] holds at the start of the string and
    after a line terminator, [$] at its end and before a line terminator.
    The class [\s] is [isSpaceChar]; it contains the line terminators.  The
    bullet U+2022 of the class [[\u2022\-\*]] lies above 255, so in the model
    the class holds [-] and [*]. *)
Module Markdown.

Definition isLineTerminator (c : ascii) : bool :=
  let n := code c in (n =? 10) || (n =? 13).

(** One attempt of a regular expression at one position.  [atLineStart]
    tells whether [^] holds at the position and the string is the input from
    the position on.  A match gives the text written in its place and its
    length, which is at least 1 for the five expressions. *)
Definition Rule : Type := bool -> string -> option (string * nat).

(** [s.replace(re, replacement)] with the flag [g]: the positions are tried
    from left to right, a character at which no match starts is copied, and
    after a match the search goes on behind it.  [skip] counts the characters
    of the current match that are still to be passed over. *)
Fixpoint replaceAll (rule : Rule) (atLineStart : bool) (skip : nat)
  (s : string) : string :=
  match s with
  | EmptyString => EmptyString
  | String c r =>
      match skip with
      | S k => replaceAll rule (isLineTerminator c) k r
      | 0 =>
          match rule atLineStart s with
          | Some (replacement, matched) =>
              (replacement
               ++ replaceAll rule (isLineTerminator c) (matched - 1) r)%string
          | None => String c (replaceAll rule (isLineTerminator c) 0 r)
          end
      end
  end.

Definition replace (rule : Rule) (s : string) : string :=
  replaceAll rule true 0 s.

Fixpoint dropChars (n : nat) (s : string) : string :=
  match n, s with
  | S k, String _ r => dropChars k r
  | _, _ => s
  end.

(** [(.*?)\*\*] behind the opening stars: the group is the shortest run of
    characters other than line terminators that two stars follow. *)
Fixpoint closing (s : string) : option string :=
  match s with
  | EmptyString => None
  | String c r =>
      if String.prefix "**" s then Some EmptyString
      else if isLineTerminator c then None
      else option_map (String c) (closing r)
  end.

(** [/\*\*(.*?)\*\*/g] with the replacement [<strong>$1</strong>]. *)
Definition bold : Rule := fun _ s =>
  if String.prefix "**" s
  then match closing (dropChars 2 s) with
       | Some group =>
           Some (("<strong>" ++ group ++ "</strong>")%string,
                 4 + String.length group)
       | None => None
       end
  else None.

(** The longest run of white space at the start. *)
Fixpoint spaceRun (s : string) : nat :=
  match s with
  | EmptyString => 0
  | String c r => if isSpaceChar c then S (spaceRun r) else 0
  end.

(** The rest of the line: the longest run of characters that [.] matches. *)
Fixpoint lineOf (s : string) : string :=
  match s with
  | EmptyString => EmptyString
  | String c r =>
      if isLineTerminator c then EmptyString else String c (lineOf r)
  end.

(** The last character of [s] that is not a line terminator, with its index
    counted from [index]. *)
Fixpoint lastVisible (index : nat) (s : string) : option (nat * string) :=
  match s with
  | EmptyString => None
  | String c r =>
      match lastVisible (S index) r with
      | Some found => Some found
      | None =>
          if isLineTerminator c then None
          else Some (index, String c EmptyString)
      end
  end.

(** [\s+(.+)$] behind the marker: the length of the run that [\s+] takes and
    the group.  [\s+] first takes the whole run of white space, over line
    breaks too; the character behind the run is no white space, and the group
    is the line from there.  When the run reaches the end of the string,
    [\s+] gives characters back, one at a time and at most all but one,
    until [.] matches the first character given back: the group is that one
    character. *)
Definition spacesThenText (s : string) : option (nat * string) :=
  match spaceRun s with
  | 0 => None
  | S _ as run =>
      match dropChars run s with
      | String _ _ as rest => Some (run, lineOf rest)
      | EmptyString => lastVisible 1 (dropChars 1 s)
      end
  end.

(** [/^MARKER\s+(.+)$/gm] with the replacement [OPEN$1CLOSE]; [marker] gives
    the length of the marker the input starts with. *)
Definition lineRule (marker : string -> option nat)
  (opening closingTag : string) : Rule := fun atLineStart s =>
  if atLineStart
  then match marker s with
       | Some n =>
           match spacesThenText (dropChars n s) with
           | Some (run, group) =>
               Some ((opening ++ group ++ closingTag)%string,
                     n + run + String.length group)
           | None => None
           end
       | None => None
       end
  else None.

(** The markers [###], [##] and [#]. *)
Definition hashes (p : string) (s : string) : option nat :=
  if String.prefix p s then Some (String.length p) else None.

(** The class [[\u2022\-\*]] below 256. *)
Definition isBulletChar (c : ascii) : bool :=
  (code c =? 45) || (code c =? 42).

Definition bulletMark (s : string) : option nat :=
  match s with
  | String c _ => if isBulletChar c then Some 1 else None
  | EmptyString => None
  end.

(** The five passes, in the order of the chain of [replace] calls. *)
Definition markup (generatedContent : string) : string :=
  replace (lineRule bulletMark "<li>" "</li>")
    (replace (lineRule (hashes "#") "<h2>" "</h2>")
       (replace (lineRule (hashes "##") "<h3>" "</h3>")
          (replace (lineRule (hashes "###") "<h3>" "</h3>")
             (replace bold generatedContent)))).

(** [formatted.split('\n\n')]. *)
Fixpoint splitParagraphs (s : string) : list string :=
  match s with
  | EmptyString => [EmptyString]
  | String c r =>
      match r with
      | String d r' =>
          if (code c =? 10) && (code d =? 10)
          then EmptyString :: splitParagraphs r'
          else match splitParagraphs r with
               | piece :: pieces => String c piece :: pieces
               | [] => [String c EmptyString]
               end
      | EmptyString => [String c EmptyString]
      end
  end.

(** [s.split(sep)] for a separator of one character. *)
Fixpoint splitChar (sep : ascii) (s : string) : list string :=
  match s with
  | EmptyString => [EmptyString]
  | String c r =>
      if Ascii.eqb c sep then EmptyString :: splitChar sep r
      else match splitChar sep r with
           | piece :: pieces => String c piece :: pieces
           | [] => [String c EmptyString]
           end
  end.

(** [s.trim()]. *)
Fixpoint trimStart (s : string) : string :=
  match s with
  | EmptyString => EmptyString
  | String c r => if isSpaceChar c then trimStart r else s
  end.

Fixpoint trimEnd (s : string) : string :=
  match s with
  | EmptyString => EmptyString
  | String c r =>
      match trimEnd r with
      | EmptyString =>
          if isSpaceChar c then EmptyString else String c EmptyString
      | String _ _ as kept => String c kept
      end
  end.

Definition trim (s : string) : string := trimEnd (trimStart s).

(** [/^[A-Z]/.test(s)]. *)
Definition isUpper (c : ascii) : bool := between 65 90 (code c).

Definition startsUpper (s : string) : bool :=
  match s with
  | String c _ => isUpper c
  | EmptyString => false
  end.

Definition isSentenceEnd (c : ascii) : bool :=
  (code c =? 46) || (code c =? 33) || (code c =? 63).

Fixpoint noSentenceEnd (s : string) : bool :=
  match s with
  | EmptyString => true
  | String c r => negb (isSentenceEnd c) && noSentenceEnd r
  end.

(** [/^[A-Z][^.!?]*$/.test(s)], without the flag [m]. *)
Definition headingLine (s : string) : bool :=
  match s with
  | String c r => isUpper c && noSentenceEnd r
  | EmptyString => false
  end.

(** The test of a line that stands alone: short, in title case, no
    punctuation that ends a sentence. *)
Definition titled (line0 : string) : bool :=
  (String.length line0 <? 80)
  && headingLine line0 && negb (String.prefix "<" line0)
  && forallb (fun w => startsUpper w || (String.length w <=? 3))
             (splitChar " " line0).

(** The callback of [paragraphs.map]. *)
Definition paragraph (para0 : string) : string :=
  let para := trim para0 in
  if String.eqb para EmptyString then EmptyString
  else if String.prefix "<h" para then para
  else if includes para "<li>" then ("<ul>" ++ para ++ "</ul>")%string
  else
    let lines := splitChar (ascii_of_nat 10) para in
    let line0 := hd EmptyString lines in
    if (List.length lines =? 1) && titled line0
    then ("<h3>" ++ line0 ++ "</h3>")%string
    else ("<p>" ++ para ++ "</p>")%string.

(** The getter, as a function of the field [generatedContent]. *)
Definition formattedContent (generatedContent : string) : string :=
  if String.eqb generatedContent EmptyString then EmptyString
  else String.concat EmptyString
         (map paragraph (splitParagraphs (markup generatedContent))).

End Markdown.

(** ** Predicates of the statements on the formatted view *)

(** The rule matches nowhere in [s]; [atLineStart] tells whether [^] holds
    at its first position. *)
Fixpoint quiet (rule : Markdown.Rule) (atLineStart : bool) (s : string)
  : bool :=
  match s with
  | EmptyString => true
  | String c r =>
      match rule atLineStart s with
      | Some _ => false
      | None => quiet rule (Markdown.isLineTerminator c) r
      end
  end.

Definition notStar (c : ascii) : bool := negb (code c =? 42).

Definition notLineEnd (c : ascii) : bool := negb (Markdown.isLineTerminator c).


(** The text of a heading: one line, not empty, starting with a character
    that is neither white space nor [#]. *)
Definition titleText (t : string) : bool :=
  match t with
  | EmptyString => false
  | String c _ => negb (isSpaceChar c) && negb (code c =? 35)
  end
  && allChars notLineEnd t.

(** The text of a list item: one line, not empty, without a star and not
    starting with white space. *)
Definition itemText (t : string) : bool :=
  match t with
  | EmptyString => false
  | String c _ => negb (isSpaceChar c)
  end
  && allChars notStar t && allChars notLineEnd t.

(** The marker of a line rule asks for [#], [-] or [*] at the start. *)
Definition leads (marker : string -> option nat) : Prop :=
  forall ch x,
    negb (code ch =? 35) && negb (Markdown.isBulletChar ch) = true ->
    marker (String ch x) = None.

Definition startsWithLineEnd (s : string) : bool :=
  match s with
  | EmptyString => false
  | String c _ => Markdown.isLineTerminator c
  end.

(* ================================================================== *)
(** * Part II.  Properties                                             *)
(* ================================================================== *)

(** ** Strings and arrays *)

Lemma allChars_append f s1 s2 :
  allChars f (s1 ++ s2)%string = allChars f s1 && allChars f s2.
Proof.
  induction s1 as [|c r IH]; simpl; [reflexivity|].
  rewrite IH. now rewrite andb_assoc.
Qed.

Lemma allChars_weaken (f g : ascii -> bool) s :
  (forall c, f c = true -> g c = true) ->
  allChars f s = true -> allChars g s = true.
Proof.
  intros Hfg. induction s as [|c r IH]; simpl; [reflexivity|].
  intros H. apply andb_true_iff in H as [Hc Hr].
  apply andb_true_iff. split; auto.
Qed.

Lemma lowerChar_word c :
  isWordChar (lowerChar c) = true -> isKeywordChar (lowerChar c) = true.
Proof.
  destruct c as [[] [] [] [] [] [] [] []]; vm_compute; intros H;
    first [reflexivity | discriminate H].
Qed.

Lemma toLowerCase_strip_chars s :
  allChars (fun c => isKeywordChar c || isSpaceChar c)
           (stripNonWord (toLowerCase s)) = true.
Proof.
  unfold stripNonWord, toLowerCase.
  induction s as [|c r IH]; simpl; [reflexivity|].
  destruct (isWordChar (lowerChar c)) eqn:Hw; simpl.
  - rewrite (lowerChar_word c Hw). simpl. exact IH.
  - destruct (isSpaceChar (lowerChar c)) eqn:Hs; simpl; [|exact IH].
    rewrite Hs, orb_true_r. exact IH.
Qed.

(** The pieces of a split hold no white space, and nothing the string did
    not hold. *)
Lemma splitScan_chars (f : ascii -> bool) s :
  forall cur inSep,
    allChars (fun c => f c || isSpaceChar c) s = true ->
    allChars f cur = true ->
    Forall (fun piece => allChars f piece = true) (splitScan cur inSep s).
Proof.
  induction s as [|c r IH]; intros cur inSep Hs Hcur; simpl.
  - constructor; [exact Hcur | constructor].
  - simpl in Hs. apply andb_true_iff in Hs as [Hc Hr].
    destruct (isSpaceChar c) eqn:Hsp.
    + destruct inSep.
      * apply IH; [exact Hr | reflexivity].
      * constructor; [exact Hcur|]. apply IH; [exact Hr | reflexivity].
    + rewrite orb_false_r in Hc.
      apply IH; [exact Hr|].
      rewrite allChars_append, Hcur. simpl. now rewrite Hc.
Qed.

Lemma promptWords_chars p :
  Forall (fun w => allChars isKeywordChar w = true) (promptWords p).
Proof.
  unfold promptWords.
  assert (H : Forall (fun w => allChars isKeywordChar w = true)
                (splitWhitespace (stripNonWord (toLowerCase p)))).
  { apply splitScan_chars; [apply toLowerCase_strip_chars | reflexivity]. }
  rewrite Forall_forall in *. intros w Hw.
  apply filter_In in Hw as [Hw _]. auto.
Qed.

Lemma arrayIncludes_In l w : arrayIncludes l w = true <-> In w l.
Proof.
  unfold arrayIncludes. rewrite existsb_exists. split.
  - intros [x [Hx Heq]]. apply String.eqb_eq in Heq. now subst.
  - intros H. exists w. split; [exact H | apply String.eqb_refl].
Qed.

Lemma arrayIncludes_not_In l w : arrayIncludes l w = false <-> ~ In w l.
Proof.
  split.
  - intros H Hin. apply arrayIncludes_In in Hin. congruence.
  - intros H. destruct (arrayIncludes l w) eqn:E; [|reflexivity].
    apply arrayIncludes_In in E. contradiction.
Qed.

Lemma keepWord_spec w :
  keepWord w = true <-> 3 < String.length w /\ ~ In w stopWords.
Proof.
  unfold keepWord. rewrite andb_true_iff, negb_true_iff.
  rewrite Nat.ltb_lt, arrayIncludes_not_In. reflexivity.
Qed.

(** The scan of the set keeps exactly the elements not yet seen, once. *)
Lemma setScan_In l : forall seen x,
  In x (setScan seen l) <-> In x l /\ ~ In x seen.
Proof.
  induction l as [|y r IH]; intros seen x; simpl.
  - tauto.
  - destruct (arrayIncludes seen y) eqn:Hy.
    + apply arrayIncludes_In in Hy. rewrite IH. split.
      * intros [H1 H2]. tauto.
      * intros [[H1|H1] H2]; [subst; contradiction | tauto].
    + apply arrayIncludes_not_In in Hy. simpl. rewrite IH. simpl. split.
      * intros [H|[H1 H2]]; [subst; tauto | tauto].
      * intros [[H1|H1] H2]; [tauto|].
        destruct (string_dec y x) as [E|E]; [tauto|]. right. tauto.
Qed.

Lemma setScan_NoDup l : forall seen, NoDup (setScan seen l).
Proof.
  induction l as [|y r IH]; intros seen; simpl.
  - constructor.
  - destruct (arrayIncludes seen y); [apply IH|].
    constructor; [|apply IH].
    rewrite setScan_In. simpl. tauto.
Qed.

Lemma uniqueOf_In l x : In x (uniqueOf l) <-> In x l.
Proof. unfold uniqueOf. rewrite setScan_In. simpl. tauto. Qed.

Lemma uniqueOf_NoDup l : NoDup (uniqueOf l).
Proof. apply setScan_NoDup. Qed.

Lemma insertByLength_perm x l : Permutation (x :: l) (insertByLength x l).
Proof.
  induction l as [|y r IH]; simpl; [reflexivity|].
  destruct (String.length y <=? String.length x); [reflexivity|].
  rewrite perm_swap. now apply perm_skip.
Qed.

Lemma sortByLengthDesc_perm l : Permutation l (sortByLengthDesc l).
Proof.
  induction l as [|x r IH]; simpl; [reflexivity|].
  rewrite <- insertByLength_perm. now apply perm_skip.
Qed.

Lemma insertByLength_sorted x l :
  StronglySorted longerFirst l -> StronglySorted longerFirst (insertByLength x l).
Proof.
  induction 1 as [|y r Hr IH Hy]; simpl.
  - repeat constructor.
  - destruct (String.length y <=? String.length x) eqn:E.
    + apply Nat.leb_le in E.
      constructor; [constructor; assumption|].
      constructor; [exact E|].
      rewrite Forall_forall in *. intros z Hz.
      unfold longerFirst in *. specialize (Hy z Hz). lia.
    + apply Nat.leb_gt in E.
      constructor; [exact IH|].
      rewrite Forall_forall in *. intros z Hz.
      apply (Permutation_in _ (Permutation_sym (insertByLength_perm x r))) in Hz.
      destruct Hz as [<-|Hz]; [unfold longerFirst; lia | auto].
Qed.

Lemma sortByLengthDesc_sorted l : StronglySorted longerFirst (sortByLengthDesc l).
Proof.
  induction l as [|x r IH]; simpl; [constructor|].
  now apply insertByLength_sorted.
Qed.

(** The sort is stable: words of one length keep their order. *)
Lemma insertByLength_stable n x l :
  StronglySorted longerFirst l ->
  filter (fun w => String.length w =? n) (insertByLength x l)
  = filter (fun w => String.length w =? n) (x :: l).
Proof.
  induction 1 as [|y r Hr IH Hy]; [reflexivity|].
  cbn [insertByLength].
  destruct (String.length y <=? String.length x) eqn:E; [reflexivity|].
  apply Nat.leb_gt in E.
  cbn [filter]. cbn [filter] in IH. rewrite IH.
  destruct (String.length x =? n) eqn:Ex; [|reflexivity].
  apply Nat.eqb_eq in Ex.
  destruct (String.length y =? n) eqn:Ey.
  - apply Nat.eqb_eq in Ey. lia.
  - reflexivity.
Qed.

Lemma sortByLengthDesc_stable n l :
  filter (fun w => String.length w =? n) (sortByLengthDesc l)
  = filter (fun w => String.length w =? n) l.
Proof.
  induction l as [|x r IH]; [reflexivity|].
  cbn [sortByLengthDesc].
  rewrite insertByLength_stable by apply sortByLengthDesc_sorted.
  cbn [filter]. now rewrite IH.
Qed.

(** ** Keyword extraction *)

Lemma firstn3_bounds (l : list string) :
  l <> [] -> 1 <= List.length (firstn 3 l) <= 3.
Proof.
  intros Hl. split.
  - destruct l as [|x r]; [congruence | simpl; lia].
  - apply firstn_le_length.
Qed.

Lemma keywords_of_ranked (l : list string) :
  (if 0 <? List.length (firstn 3 l) then firstn 3 l else fallbackKeywords)
  = match l with [] => fallbackKeywords | _ :: _ => firstn 3 l end.
Proof. destruct l; reflexivity. Qed.

(** ** The tokens of a prompt *)

Lemma string_app_assoc (a b c : string) :
  ((a ++ b) ++ c = a ++ (b ++ c))%string.
Proof. induction a as [|x r IH]; [reflexivity|]. cbn [append]. now rewrite IH. Qed.

Lemma string_app_nil_r (a : string) : (a ++ EmptyString)%string = a.
Proof. induction a as [|x r IH]; [reflexivity|]. cbn [append]. now rewrite IH. Qed.

Lemma lowerChar_space c : isSpaceChar (lowerChar c) = isSpaceChar c.
Proof. destruct c as [[] [] [] [] [] [] [] []]; reflexivity. Qed.

Lemma endsWithSpace_cons c r :
  endsWithSpace (String c r)
  = match r with
    | EmptyString => isSpaceChar c
    | String _ _ => endsWithSpace r
    end.
Proof. destruct r; reflexivity. Qed.

(** One step of the scan of the stripped lower-case prompt. *)
Lemma splitScan_strip_step cur inSep c r :
  splitScan cur inSep (stripNonWord (toLowerCase (String c r)))
  = if isSpaceChar c
    then if inSep
         then splitScan EmptyString true (stripNonWord (toLowerCase r))
         else cur :: splitScan EmptyString true (stripNonWord (toLowerCase r))
    else if isWordChar (lowerChar c)
         then splitScan (cur ++ String (lowerChar c) EmptyString) false
                        (stripNonWord (toLowerCase r))
         else splitScan cur inSep (stripNonWord (toLowerCase r)).
Proof.
  unfold stripNonWord, toLowerCase. cbn [mapString filterString].
  rewrite lowerChar_space.
  destruct (isSpaceChar c) eqn:Hs.
  - rewrite orb_true_r. cbn [splitScan]. now rewrite lowerChar_space, Hs.
  - rewrite orb_false_r. destruct (isWordChar (lowerChar c)); [|reflexivity].
    cbn [splitScan]. now rewrite lowerChar_space, Hs.
Qed.

(** The pieces of the scan that are not empty are the tokens: the one that
    continues [cur] with the run at the start, and those of the later runs. *)
Lemma splitScan_tokens_sound s :
  forall cur inSep w,
    In w (splitScan cur inSep (stripNonWord (toLowerCase s))) ->
    (exists run post w0,
        s = (run ++ post)%string /\ noSpace run = true
        /\ (post = EmptyString \/ startsWithSpace post = true)
        /\ cleaned run w0 /\ w = (cur ++ w0)%string)
    \/ (exists pre run post,
          s = (pre ++ run ++ post)%string /\ endsWithSpace pre = true
          /\ noSpace run = true
          /\ (post = EmptyString \/ startsWithSpace post = true)
          /\ cleaned run w).
Proof.
  induction s as [|c r IH]; intros cur inSep w Hin.
  - destruct Hin as [<-|[]]. left.
    exists EmptyString, EmptyString, EmptyString.
    split_all; auto; [constructor | now rewrite string_app_nil_r].
  - rewrite splitScan_strip_step in Hin.
    assert (Hlater : forall cur',
               In w (splitScan cur' true (stripNonWord (toLowerCase r))) ->
               cur' = EmptyString -> isSpaceChar c = true ->
               exists pre run post,
                 String c r = (pre ++ run ++ post)%string
                 /\ endsWithSpace pre = true /\ noSpace run = true
                 /\ (post = EmptyString \/ startsWithSpace post = true)
                 /\ cleaned run w).
    { intros cur' Hin' -> Hs.
      destruct (IH _ _ _ Hin') as [(run & post & w0 & -> & Hrun & Hpost & Hcl & ->)
                                  |(pre & run & post & -> & Hpre & Hrun & Hpost & Hcl)].
      - exists (String c EmptyString), run, post. split_all; auto.
      - exists (String c pre), run, post. split_all; auto.
        rewrite endsWithSpace_cons. destruct pre; [discriminate Hpre | exact Hpre]. }
    assert (Hcons : forall pre run post,
               r = (pre ++ run ++ post)%string -> endsWithSpace pre = true ->
               String c r = (String c pre ++ run ++ post)%string
               /\ endsWithSpace (String c pre) = true).
    { intros pre run post -> Hpre. split; [reflexivity|].
      rewrite endsWithSpace_cons. destruct pre; [discriminate Hpre | exact Hpre]. }
    destruct (isSpaceChar c) eqn:Hs.
    + assert (Hhead : w = cur -> exists run post w0,
                 String c r = (run ++ post)%string /\ noSpace run = true
                 /\ (post = EmptyString \/ startsWithSpace post = true)
                 /\ cleaned run w0 /\ w = (cur ++ w0)%string).
      { intros ->. exists EmptyString, (String c r), EmptyString.
        split_all; auto; [constructor | now rewrite string_app_nil_r]. }
      destruct inSep.
      * right. now apply (Hlater EmptyString).
      * destruct Hin as [<-|Hin]; [left; now apply Hhead|].
        right. now apply (Hlater EmptyString).
    + destruct (isWordChar (lowerChar c)) eqn:Hw.
      * destruct (IH _ _ _ Hin)
          as [(run & post & w0 & -> & Hrun & Hpost & Hcl & ->)
             |(pre & run & post & Heq & Hpre & Hrun & Hpost & Hcl)].
        -- left. exists (String c run), post, (String (lowerChar c) w0).
           split_all; auto.
           ++ unfold noSpace in *. cbn [allChars]. now rewrite Hs, Hrun.
           ++ now constructor.
           ++ now rewrite string_app_assoc.
        -- right. destruct (Hcons _ _ _ Heq Hpre) as [E1 E2].
           exists (String c pre), run, post. split_all; auto.
      * destruct (IH _ _ _ Hin)
          as [(run & post & w0 & -> & Hrun & Hpost & Hcl & ->)
             |(pre & run & post & Heq & Hpre & Hrun & Hpost & Hcl)].
        -- left. exists (String c run), post, w0.
           split_all; auto.
           ++ unfold noSpace in *. cbn [allChars]. now rewrite Hs, Hrun.
           ++ now constructor.
        -- right. destruct (Hcons _ _ _ Heq Hpre) as [E1 E2].
           exists (String c pre), run, post. split_all; auto.
Qed.

Lemma cleaned_empty w : cleaned EmptyString w -> w = EmptyString.
Proof. now inversion 1. Qed.

Lemma splitScan_tokens_complete s :
  forall cur inSep w,
    w <> EmptyString -> (inSep = true -> cur = EmptyString) ->
    (exists run post w0,
        s = (run ++ post)%string /\ noSpace run = true
        /\ (post = EmptyString \/ startsWithSpace post = true)
        /\ cleaned run w0 /\ w = (cur ++ w0)%string)
    \/ (exists pre run post,
          s = (pre ++ run ++ post)%string /\ endsWithSpace pre = true
          /\ noSpace run = true
          /\ (post = EmptyString \/ startsWithSpace post = true)
          /\ cleaned run w) ->
    In w (splitScan cur inSep (stripNonWord (toLowerCase s))).
Proof.
  induction s as [|c r IH]; intros cur inSep w Hw Hsep H.
  - destruct H as [(run & post & w0 & Heq & _ & _ & Hcl & ->)
                  |(pre & run & post & Heq & Hpre & _)].
    + destruct run; [|discriminate Heq].
      apply cleaned_empty in Hcl. subst w0. rewrite string_app_nil_r. now left.
    + destruct pre; [discriminate Hpre | discriminate Heq].
  - rewrite splitScan_strip_step.
    destruct H as [(run & post & w0 & Heq & Hrun & Hpost & Hcl & ->)
                  |(pre & run & post & Heq & Hpre & Hrun & Hpost & Hcl)].
    + destruct run as [|c0 run'].
      * cbn [append] in Heq. subst post.
        destruct Hpost as [Hpost|Hpost]; [discriminate Hpost|].
        cbn [startsWithSpace] in Hpost. rewrite Hpost.
        apply cleaned_empty in Hcl. subst w0.
        rewrite string_app_nil_r in *.
        destruct inSep; [now specialize (Hsep eq_refl) | now left].
      * cbn [append] in Heq. injection Heq as <- ->.
        unfold noSpace in Hrun. cbn [allChars] in Hrun.
        apply andb_true_iff in Hrun as [Hc Hrun'].
        apply negb_true_iff in Hc. rewrite Hc.
        inversion Hcl as [|? ? w1 Hword Hcl'|? ? ? Hword Hcl']; subst;
          rewrite Hword.
        -- apply IH; [|discriminate|].
           ++ intros E. destruct cur; discriminate E.
           ++ left. exists run', post, w1. split_all; auto.
              now rewrite string_app_assoc.
        -- apply IH; auto. left. exists run', post, w0. split_all; auto.
    + destruct pre as [|c0 pre']; [discriminate Hpre|].
      cbn [append] in Heq. injection Heq as <- ->.
      assert (Hnext : forall cur' sep',
                 (sep' = true -> cur' = EmptyString) ->
                 (pre' = EmptyString -> cur' = EmptyString) ->
                 In w (splitScan cur' sep' (stripNonWord
                                              (toLowerCase (pre' ++ run ++ post))))).
      { intros cur' sep' Hsep' Hcur'. apply IH; auto.
        destruct pre' as [|d pre''].
        - left. exists run, post, w. rewrite (Hcur' eq_refl). split_all; auto.
        - right. exists (String d pre''), run, post. split_all; auto. }
      rewrite endsWithSpace_cons in Hpre.
      destruct (isSpaceChar c) eqn:Hs.
      * destruct inSep; [|right]; apply Hnext; auto.
      * destruct pre' as [|d pre'']; [congruence|].
        destruct (isWordChar (lowerChar c));
          apply Hnext; auto; discriminate.
Qed.

(** The pieces of [split] that are not empty are exactly the tokens of the
    prompt that are not empty. *)
Lemma tokens_of_prompt p w :
  w <> EmptyString ->
  In w (splitWhitespace (stripNonWord (toLowerCase p))) <-> tokenOf p w.
Proof.
  intros Hw. unfold splitWhitespace, tokenOf, maximalRun. split.
  - intros Hin.
    destruct (splitScan_tokens_sound p _ _ _ Hin)
      as [(run & post & w0 & -> & Hrun & Hpost & Hcl & ->)
         |(pre & run & post & -> & Hpre & Hrun & Hpost & Hcl)].
    + exists run. split; [|exact Hcl]. split; [exact Hrun|].
      exists EmptyString, post. auto.
    + exists run. split; [|exact Hcl]. split; [exact Hrun|].
      exists pre, post. auto.
  - intros (run & (Hrun & pre & post & -> & Hpre & Hpost) & Hcl).
    apply splitScan_tokens_complete; [exact Hw | discriminate |].
    destruct Hpre as [->|Hpre].
    + left. exists run, post, w. auto.
    + right. exists pre, run, post. auto.
Qed.

(** C6.  For every prompt string the keywords are computed as the
    specification tells.  The tokens are read off the prompt itself
    ([tokenOf]): every stretch of the prompt between white space, in lower
    case and without what is no word character.  The tokens longer than 3
    that are no stop words are ranked, each once, longest first ([ranked]);
    the first three of them are the keywords, and the fixed triple stands in
    when there is none.  A keyword taken from the prompt is made of
    [[a-z0-9_]] only.  The answer has between 1 and 3 entries, and equal
    arguments give equal answers. *)
Theorem extractKeywordsSimple_algorithm (p : string) (ct : jsval) :
  exists ranked keywords : list string,
    NoDup ranked
    /\ (forall w, In w ranked <->
                  tokenOf p w /\ 3 < String.length w /\ ~ In w stopWords)
    /\ Forall (fun w => allChars isKeywordChar w = true) ranked
    /\ StronglySorted longerFirst ranked
    /\ keywords = match ranked with
                  | [] => fallbackKeywords
                  | _ :: _ => firstn 3 ranked
                  end
    /\ extractKeywordsSimple (JStr p) ct = Normal keywords
    /\ 1 <= List.length keywords <= 3
    /\ (forall p' ct', p' = p -> ct' = ct ->
          extractKeywordsSimple (JStr p') ct' = Normal keywords).
Proof.
  set (ranked := sortByLengthDesc (uniqueOf (promptWords p))).
  assert (Hperm : Permutation (uniqueOf (promptWords p)) ranked)
    by apply sortByLengthDesc_perm.
  assert (Hrun : extractKeywordsSimple (JStr p) ct
                 = Normal match ranked with
                          | [] => fallbackKeywords
                          | _ :: _ => firstn 3 ranked
                          end).
  { unfold extractKeywordsSimple. fold ranked.
    now rewrite keywords_of_ranked. }
  assert (Hmem : forall w,
             In w ranked <->
             In w (splitWhitespace (stripNonWord (toLowerCase p)))
             /\ 3 < String.length w /\ ~ In w stopWords).
  { intros w. split.
    - intros H. apply (Permutation_in _ (Permutation_sym Hperm)) in H.
      apply -> uniqueOf_In in H. apply filter_In in H as [Htok Hkeep].
      apply keepWord_spec in Hkeep. tauto.
    - intros (Htok & Hlen & Hstop).
      apply (Permutation_in _ Hperm), uniqueOf_In, filter_In.
      split; [exact Htok | apply keepWord_spec; tauto]. }
  assert (Hfull : forall w, 3 < String.length w -> w <> EmptyString).
  { intros w Hlen ->. cbn in Hlen. lia. }
  exists ranked, match ranked with
                 | [] => fallbackKeywords
                 | _ :: _ => firstn 3 ranked
                 end.
  split; [apply (Permutation_NoDup Hperm), uniqueOf_NoDup|].
  split.
  { intros w. rewrite Hmem. split; intros (Htok & Hlen & Hstop);
      (split; [|split; assumption]);
      now apply (tokens_of_prompt p w (Hfull w Hlen)). }
  split.
  { rewrite Forall_forall. intros w Hw.
    apply (Permutation_in _ (Permutation_sym Hperm)) in Hw.
    apply -> uniqueOf_In in Hw.
    pose proof (promptWords_chars p) as Hc. rewrite Forall_forall in Hc. auto. }
  split; [apply sortByLengthDesc_sorted|].
  split; [reflexivity|]. split; [exact Hrun|].
  split.
  { destruct ranked as [|x r] eqn:E; [simpl; lia|].
    apply firstn3_bounds. congruence. }
  intros p' ct' -> ->. exact Hrun.
Qed.

(** C10.  In the mounted route the keywords do not depend on the content
    type: two calls on one prompt give one answer whatever content types they
    are passed, through [extractKeywordsSimple] and through
    [extractImageKeywords]; the answer is a function of the prompt, and it is
    the fixed triple when no token of the prompt survives the filter. *)
Theorem extractKeywordsSimple_ignores_contentType :
  (forall (p c1 c2 : jsval),
      extractKeywordsSimple p c1 = extractKeywordsSimple p c2)
  /\ (forall (p c1 c2 : jsval) (text1 text2 : string),
      extractImageKeywords p c1 text1 = extractImageKeywords p c2 text2)
  /\ (exists f : string -> list string,
        forall (p : string) (c : jsval),
          extractKeywordsSimple (JStr p) c = Normal (f p))
  /\ (forall (p : string) (c : jsval),
        promptWords p = [] ->
        extractKeywordsSimple (JStr p) c
        = Normal ["professional"; "business"; "content"]).
Proof.
  split; [|split; [|split]].
  - intros [| |] c1 c2; reflexivity.
  - intros [| |] c1 c2 t1 t2; reflexivity.
  - exists (fun p =>
              let keywords := firstn 3 (sortByLengthDesc (uniqueOf (promptWords p))) in
              if 0 <? List.length keywords then keywords else fallbackKeywords).
    reflexivity.
  - intros p c Hp. unfold extractKeywordsSimple. rewrite Hp. reflexivity.
Qed.

(** ** The retry loop *)

Lemma backoff_retry base attempt maxRetries tr :
  backoff base attempt maxRetries tr
  = tr ++ (if S attempt <? maxRetries
           then [Sleep (base * (attempt + 1))] else []).
Proof.
  unfold backoff.
  destruct (S attempt <? maxRetries) eqn:E.
  - apply Nat.ltb_lt in E.
    assert (H : (attempt <? maxRetries - 1) = true) by (apply Nat.ltb_lt; lia).
    now rewrite H.
  - apply Nat.ltb_ge in E.
    assert (H : (attempt <? maxRetries - 1) = false) by (apply Nat.ltb_ge; lia).
    rewrite H. now rewrite app_nil_r.
Qed.

(** A not-found error ends the inner loop at once. *)
Lemma attemptLoop_not_found w m p maxRetries k attempt tr e :
  llm w tr m p = Failed e -> classify e = NotFound ->
  attemptLoop w m p maxRetries (S k) attempt tr
  = (NextModel, tr ++ [LlmCall m p]).
Proof. intros He Hc. simpl. now rewrite He, Hc. Qed.

(** An answer ends the inner loop at once. *)
Lemma attemptLoop_generated w m p maxRetries k attempt tr text :
  llm w tr m p = Generated text ->
  attemptLoop w m p maxRetries (S k) attempt tr
  = (Returned text, tr ++ [LlmCall m p]).
Proof. intros He. simpl. now rewrite He. Qed.

(** Any other error is followed by the backoff and the next attempt. *)
Lemma attemptLoop_retry w m p maxRetries k attempt tr e :
  llm w tr m p = Failed e -> classify e <> NotFound ->
  attemptLoop w m p maxRetries (S k) attempt tr
  = attemptLoop w m p maxRetries k (S attempt)
      (backoff (baseDelayMs (classify e)) attempt maxRetries
               (tr ++ [LlmCall m p])).
Proof.
  intros He Hc. simpl. rewrite He.
  destruct (classify e); [reflexivity | congruence | reflexivity].
Qed.

Lemma callsTo_app m tr1 tr2 : callsTo m (tr1 ++ tr2) = callsTo m tr1 + callsTo m tr2.
Proof. unfold callsTo. now rewrite filter_app, length_app. Qed.

Lemma llmCalls_app tr1 tr2 : llmCalls (tr1 ++ tr2) = llmCalls tr1 ++ llmCalls tr2.
Proof. apply filter_app. Qed.

Lemma delays_app tr1 tr2 : delays (tr1 ++ tr2) = delays tr1 ++ delays tr2.
Proof. apply flat_map_app. Qed.

(** The not-found class: status 404, and none of the rate-limit tests, which
    come first, succeeds. *)
Lemma classify_not_found_iff e :
  classify e = NotFound
  <-> statusIs e 404 = true
      /\ statusIs e 429 = false
      /\ messageIncludes e "quota" = false
      /\ messageIncludes e "429" = false.
Proof.
  unfold classify.
  destruct (statusIs e 429), (messageIncludes e "quota"),
    (messageIncludes e "429"), (statusIs e 404); simpl;
    split; intros H; try discriminate H; try reflexivity; try tauto;
    destruct H as (H1 & H2 & H3 & H4); discriminate.
Qed.

(** C3.  An error classified as not-found makes the loop leave the model at
    once, at whichever attempt it comes, after that one call and without a
    wait, and go on with the next model of the list.  With two models, the
    first always answering with such an error and the second failing once
    with a retried error and answering the second time, the loop returns the
    text of the second model after one call to the first, one failed and one
    successful call to the second. *)
Theorem not_found_moves_to_next_model :
  (forall w p maxRetries m remaining attempt tr e,
      llm w tr m p = Failed e -> classify e = NotFound ->
      attemptLoop w m p maxRetries (S remaining) attempt tr
      = (NextModel, tr ++ [LlmCall m p]))
  /\ (forall w p maxRetries m rest tr e,
        1 <= maxRetries ->
        llm w tr m p = Failed e -> classify e = NotFound ->
        modelLoop w p maxRetries (m :: rest) tr
        = modelLoop w p maxRetries rest (tr ++ [LlmCall m p]))
  /\ (forall w p maxRetries A B e1 text,
        A <> B -> 2 <= maxRetries ->
        (forall tr, exists e, llm w tr A p = Failed e /\ classify e = NotFound) ->
        (forall tr, callsTo B tr = 0 -> llm w tr B p = Failed e1) ->
        classify e1 <> NotFound ->
        (forall tr, callsTo B tr = 1 -> llm w tr B p = Generated text) ->
        exists tr,
          modelLoop w p maxRetries [A; B] [] = (Normal text, tr)
          /\ tr = [LlmCall A p; LlmCall B p;
                   Sleep (baseDelayMs (classify e1) * 1); LlmCall B p]
          /\ callsTo A tr = 1 /\ callsTo B tr = 2
          /\ List.length (llmCalls tr) = 3).
Proof.
  split; [|split].
  - intros w p maxRetries m remaining attempt tr e He Hc.
    eapply attemptLoop_not_found; eassumption.
  - intros w p maxRetries m rest tr e Hmax He Hc.
    destruct maxRetries as [|k]; [lia|].
    cbn [modelLoop].
    now rewrite (attemptLoop_not_found _ _ _ _ _ _ _ _ He Hc).
  - intros w p maxRetries A B e1 text HAB Hmax HA HB1 Hc1 HB2.
    destruct maxRetries as [|[|k]]; [lia | lia |].
    assert (EAB : String.eqb A B = false) by now apply String.eqb_neq.
    assert (EBB : String.eqb B B = true) by apply String.eqb_refl.
    assert (EAA : String.eqb A A = true) by apply String.eqb_refl.
    assert (EBA : String.eqb B A = false)
      by (apply String.eqb_neq; congruence).
    destruct (HA []) as [e [He Hc]].
    eexists. split; [|split; [reflexivity|]].
    + cbn [modelLoop].
      rewrite (attemptLoop_not_found _ _ _ _ _ _ _ _ He Hc).
      assert (H0 : llm w ([] ++ [LlmCall A p]) B p = Failed e1).
      { apply HB1. unfold callsTo. simpl. now rewrite EAB. }
      rewrite (attemptLoop_retry _ _ _ _ _ _ _ _ H0 Hc1).
      rewrite backoff_retry. cbn [Nat.ltb Nat.leb].
      assert (H1 : llm w (([] ++ [LlmCall A p]) ++ [LlmCall B p]
                          ++ [Sleep (baseDelayMs (classify e1) * (0 + 1))])
                       B p = Generated text).
      { apply HB2. unfold callsTo. simpl. now rewrite EAB, EBB. }
      rewrite <- app_assoc in H1 |- *.
      rewrite (attemptLoop_generated _ _ _ _ _ _ _ _ H1).
      reflexivity.
    + unfold callsTo, llmCalls. simpl.
      rewrite EAA, EBA, EAB, EBB. simpl. auto.
Qed.

(** When every call fails with a retried error, the inner loop uses all its
    iterations; each wait is linear in the number of the failed attempt. *)
Lemma attemptLoop_all_fail w m p maxRetries :
  (forall tr, exists e, llm w tr m p = Failed e /\ classify e <> NotFound) ->
  forall remaining attempt tr,
    attempt + remaining = maxRetries ->
    exists tr',
      attemptLoop w m p maxRetries remaining attempt tr = (NextModel, tr ++ tr')
      /\ List.length (llmCalls tr') = remaining
      /\ Forall2 linearDelay (delays tr') (seq attempt (remaining - 1)).
Proof.
  intros Hfail. induction remaining as [|k IH]; intros attempt tr Hsum.
  - exists []. simpl. rewrite app_nil_r. repeat split. constructor.
  - destruct (Hfail tr) as [e [He Hc]].
    rewrite (attemptLoop_retry _ _ _ _ _ _ _ _ He Hc), backoff_retry.
    destruct (IH (S attempt)
                 ((tr ++ [LlmCall m p]) ++
                  (if S attempt <? maxRetries
                   then [Sleep (baseDelayMs (classify e) * (attempt + 1))]
                   else []))) as [tr' [Hrun [Hcalls Hdel]]]; [lia|].
    rewrite Hrun.
    eexists. split; [rewrite <- !app_assoc; reflexivity|].
    rewrite !llmCalls_app, !delays_app, !length_app.
    destruct (S attempt <? maxRetries) eqn:E; simpl.
    + split; [lia|].
      apply Nat.ltb_lt in E.
      destruct k as [|k']; [lia|].
      replace (S k' - 1) with k' in Hdel by lia.
      replace (S k' - 0) with (S k') by lia. cbn [seq].
      constructor; [|exact Hdel].
      exists (classify e). split; [exact Hc | reflexivity].
    + split; [lia|].
      apply Nat.ltb_ge in E.
      destruct k as [|k']; [exact Hdel | lia].
Qed.

(** The same with one class of error throughout: the trace of the inner loop
    is the linear schedule of the model. *)
Lemma attemptLoop_all_fail_uniform w m p maxRetries c :
  c <> NotFound ->
  (forall tr, exists e, llm w tr m p = Failed e /\ classify e = c) ->
  forall remaining attempt tr,
    attemptLoop w m p maxRetries remaining attempt tr
    = (NextModel,
       tr ++ flat_map (fun attempt =>
                         LlmCall m p
                         :: (if S attempt <? maxRetries
                             then [Sleep (baseDelayMs c * (attempt + 1))]
                             else []))
                      (seq attempt remaining)).
Proof.
  intros Hc Hfail. induction remaining as [|k IH]; intros attempt tr.
  - simpl. now rewrite app_nil_r.
  - destruct (Hfail tr) as [e [He Hce]].
    assert (Hne : classify e <> NotFound) by congruence.
    rewrite (attemptLoop_retry _ _ _ _ _ _ _ _ He Hne), backoff_retry, IH, Hce.
    cbn [seq flat_map]. now rewrite <- !app_assoc.
Qed.

Lemma modelLoop_all_fail w p maxRetries :
  (forall tr m, exists e, llm w tr m p = Failed e /\ classify e <> NotFound) ->
  forall models tr,
    exists tr',
      modelLoop w p maxRetries models tr = (Throw exhaustedMessage, tr ++ tr')
      /\ List.length (llmCalls tr') = List.length models * maxRetries
      /\ Forall2 linearDelay (delays tr')
                 (flat_map (fun _ => seq 0 (maxRetries - 1)) models).
Proof.
  intros Hfail ms. induction ms as [|m rest IH]; intros tr.
  - exists []. simpl. rewrite app_nil_r. repeat split. constructor.
  - destruct (attemptLoop_all_fail w m p maxRetries (fun tr => Hfail tr m)
                maxRetries 0 tr eq_refl) as [tr1 [Hrun [Hcalls Hdel]]].
    destruct (IH (tr ++ tr1)) as [tr2 [Hrest [Hcalls2 Hdel2]]].
    exists (tr1 ++ tr2).
    cbn [modelLoop]. rewrite Hrun, Hrest, app_assoc.
    split; [reflexivity|].
    rewrite llmCalls_app, delays_app, length_app.
    split; [simpl; lia|].
    cbn [flat_map]. now apply Forall2_app.
Qed.

Lemma modelLoop_all_fail_uniform w p maxRetries c :
  c <> NotFound ->
  (forall tr m, exists e, llm w tr m p = Failed e /\ classify e = c) ->
  forall models tr,
    modelLoop w p maxRetries models tr
    = (Throw exhaustedMessage,
       tr ++ flat_map (linearSchedule p maxRetries (baseDelayMs c)) models).
Proof.
  intros Hc Hfail ms. induction ms as [|m rest IH]; intros tr.
  - simpl. now rewrite app_nil_r.
  - cbn [modelLoop].
    rewrite (attemptLoop_all_fail_uniform w m p maxRetries c Hc
               (fun tr => Hfail tr m)).
    rewrite IH. cbn [flat_map]. unfold linearSchedule at 2.
    now rewrite <- app_assoc.
Qed.

(** The waits of the linear schedule of one model add up to
    [baseDelay * (1 + 2 + ... + (maxRetries - 1))]. *)
Lemma linearSchedule_delays p maxRetries baseDelay m :
  delays (linearSchedule p maxRetries baseDelay m)
  = map (fun attempt => baseDelay * (attempt + 1)) (seq 0 (maxRetries - 1)).
Proof.
  unfold linearSchedule.
  assert (H : forall k a, a + k = maxRetries ->
    delays (flat_map (fun attempt =>
                        LlmCall m p
                        :: (if S attempt <? maxRetries
                            then [Sleep (baseDelay * (attempt + 1))] else []))
                     (seq a k))
    = map (fun attempt => baseDelay * (attempt + 1)) (seq a (k - 1))).
  { induction k as [|k IH]; intros a Ha; [reflexivity|].
    cbn [seq flat_map]. rewrite delays_app.
    destruct (S a <? maxRetries) eqn:E.
    - apply Nat.ltb_lt in E. destruct k as [|k']; [lia|].
      rewrite IH by lia. simpl. now rewrite Nat.sub_0_r.
    - apply Nat.ltb_ge in E. assert (k = 0) by lia. subst k. reflexivity. }
  apply (H maxRetries 0). reflexivity.
Qed.

(** C4.  If every call of the loop fails with an error that is not
    classified as not-found, the loop calls every model [maxRetries] times,
    [models.length * maxRetries] calls in all, and throws the exhaustion error;
    the waits are, model after model, those of attempts [0 .. maxRetries - 2],
    each [baseDelayMs * (attempt + 1)] with the base delay of the class of the
    error (2000 for a rate limit, 1000 otherwise).  When all errors are of one
    class the trace is the linear schedule of every model in turn. *)
Theorem all_failures_exhaust_models w p maxRetries models tr0 :
  (forall tr m, exists e, llm w tr m p = Failed e /\ classify e <> NotFound) ->
  exists tr',
    modelLoop w p maxRetries models tr0 = (Throw exhaustedMessage, tr0 ++ tr')
    /\ List.length (llmCalls tr') = List.length models * maxRetries
    /\ Forall2 linearDelay (delays tr')
               (flat_map (fun _ => seq 0 (maxRetries - 1)) models)
    /\ (forall c,
          (forall tr m, exists e, llm w tr m p = Failed e /\ classify e = c) ->
          tr' = flat_map (linearSchedule p maxRetries (baseDelayMs c)) models
          /\ delays tr'
             = flat_map (fun _ => map (fun attempt => baseDelayMs c * (attempt + 1))
                                      (seq 0 (maxRetries - 1))) models).
Proof.
  intros Hfail.
  destruct (modelLoop_all_fail w p maxRetries Hfail models tr0)
    as [tr' [Hrun [Hcalls Hdel]]].
  exists tr'. repeat split; try assumption.
  - assert (Hc : c <> NotFound).
    { destruct (H tr0 "") as [e [He Hce]].
      destruct (Hfail tr0 "") as [e' [He' Hne]]. congruence. }
    pose proof (modelLoop_all_fail_uniform w p maxRetries c Hc H models tr0)
      as Hu.
    rewrite Hrun in Hu. injection Hu as Hu. now apply app_inv_head in Hu.
  - assert (Hc : c <> NotFound).
    { destruct (H tr0 "") as [e [He Hce]].
      destruct (Hfail tr0 "") as [e' [He' Hne]]. congruence. }
    pose proof (modelLoop_all_fail_uniform w p maxRetries c Hc H models tr0)
      as Hu.
    rewrite Hrun in Hu. injection Hu as Hu. apply app_inv_head in Hu.
    subst tr'. clear. rename models into ms.
    induction ms as [|m rest IH]; [reflexivity|].
    cbn [flat_map]. now rewrite delays_app, linearSchedule_delays, IH.
Qed.

(** The route itself has one model: a not-found error on its first call ends
    the loop with the exhaustion error after that single call, and errors of
    the retried classes end it after [maxRetries] calls. *)
Lemma generateWithRetry_not_found w p maxRetries tr e :
  1 <= maxRetries ->
  llm w tr "gemini-2.5-flash" p = Failed e -> classify e = NotFound ->
  generateWithRetry w p maxRetries tr
  = (Throw exhaustedMessage, tr ++ [LlmCall "gemini-2.5-flash" p]).
Proof.
  intros Hmax He Hc. unfold generateWithRetry, models.
  destruct maxRetries as [|k]; [lia|].
  cbn [modelLoop].
  now rewrite (attemptLoop_not_found _ _ _ _ _ _ _ _ He Hc).
Qed.

Lemma generateWithRetry_exhausted w p maxRetries tr :
  (forall tr0 m, exists e, llm w tr0 m p = Failed e /\ classify e <> NotFound) ->
  exists tr',
    generateWithRetry w p maxRetries tr = (Throw exhaustedMessage, tr ++ tr')
    /\ List.length (llmCalls tr') = maxRetries.
Proof.
  intros Hfail.
  destruct (modelLoop_all_fail w p maxRetries Hfail models tr)
    as (tr' & Hrun & Hcalls & _).
  exists tr'. split; [exact Hrun|].
  rewrite Hcalls. simpl. lia.
Qed.

(** The 500 answer after exhaustion carries the quota hint, because the
    message of the exhaustion error holds the word. *)
Lemma router_post_exhausted w req :
  truthy (prompt req) = true ->
  (forall tr0 m, exists e,
      llm w tr0 m (enhancedPrompt req) = Failed e /\ classify e <> NotFound) ->
  fst (router_post w req)
  = Err500 "Failed to generate content. Free tier quota exceeded. Please upgrade your plan at https://ai.google.dev/"
  /\ List.length (llmCalls (snd (router_post w req))) = 2.
Proof.
  intros Ht Hfail. unfold router_post. rewrite Ht. cbn [negb].
  destruct (generateWithRetry_exhausted w (enhancedPrompt req) 2 [] Hfail)
    as (tr' & Hrun & Hcalls).
  rewrite Hrun. simpl. split; [reflexivity | exact Hcalls].
Qed.

(** ** Image sourcing *)

Lemma sourced_tags w keywords found :
  sourced w keywords found ->
  map source found = repeat "unsplash" (List.length found)
  /\ List.length found <= List.length keywords.
Proof.
  induction 1 as [|k rest found _ [IH1 IH2]|k rest found tr u _ _ [IH1 IH2]];
    simpl.
  - split; [reflexivity | lia].
  - split; [exact IH1 | lia].
  - split; [now rewrite IH1 | lia].
Qed.

Lemma sourced_app_found w keywords :
  forall found, sourced w keywords found ->
  forall k tr u, unsplash w tr k = Found u ->
  sourced w (keywords ++ [k]) (found ++ [mkImage u "unsplash"]).
Proof.
  induction 1; intros k0 tr0 u0 Hu; simpl.
  - eapply sourced_found; [exact Hu | constructor].
  - apply sourced_skip. eauto.
  - eapply sourced_found; eauto.
Qed.

Lemma sourced_app_skip w keywords :
  forall found, sourced w keywords found ->
  forall k, sourced w (keywords ++ [k]) found.
Proof.
  induction 1; intros k0; simpl.
  - apply sourced_skip. constructor.
  - apply sourced_skip. auto.
  - eapply sourced_found; eauto.
Qed.

(** The search loop asks once for every keyword, in order, and keeps what
    was found. *)
Lemma searchLoop_spec w keywords :
  forall done images tr,
    sourced w done images ->
    exists found,
      sourced w (done ++ keywords) found
      /\ searchLoop w keywords images tr
         = (found, tr ++ map UnsplashSearch keywords).
Proof.
  induction keywords as [|k rest IH]; intros done images tr Hdone.
  - exists images. simpl. rewrite !app_nil_r. auto.
  - cbn [searchLoop map].
    replace (done ++ k :: rest) with ((done ++ [k]) ++ rest)
      by now rewrite <- app_assoc.
    replace (tr ++ UnsplashSearch k :: map UnsplashSearch rest)
      with ((tr ++ [UnsplashSearch k]) ++ map UnsplashSearch rest)
      by now rewrite <- app_assoc.
    destruct (unsplash w tr k) eqn:E;
      try (apply IH; now apply sourced_app_skip).
    apply IH. eapply sourced_app_found; eauto.
Qed.

Lemma fetchUnsplashImages_spec w keywords tr :
  exists found,
    sourced w keywords found
    /\ (envIsSet (unsplashKey w) = false -> found = [])
    /\ fetchUnsplashImages w keywords tr
       = (if 0 <? List.length found then Some found else None,
          tr ++ (if envIsSet (unsplashKey w)
                 then map UnsplashSearch keywords else [])).
Proof.
  unfold fetchUnsplashImages.
  destruct (envIsSet (unsplashKey w)) eqn:E; simpl.
  - destruct (searchLoop_spec w keywords [] [] tr (sourced_nil w))
      as [found [Hs Hrun]].
    exists found. rewrite Hrun. simpl in Hs.
    split; [exact Hs|]. split; [discriminate|].
    now destruct (0 <? List.length found).
  - exists []. rewrite app_nil_r. repeat split.
    clear. induction keywords; constructor; assumption.
Qed.

Lemma padLoop_spec baseTime :
  forall fuel l,
    3 - List.length l <= fuel ->
    padLoop fuel baseTime l
    = l ++ map (placeholder baseTime)
               (seq (List.length l) (3 - List.length l)).
Proof.
  induction fuel as [|k IH]; intros l Hfuel.
  - cbn [padLoop]. replace (3 - List.length l) with 0 by lia.
    cbn [seq map]. now rewrite app_nil_r.
  - cbn [padLoop]. destruct (List.length l <? 3) eqn:E.
    + apply Nat.ltb_lt in E.
      rewrite IH by (rewrite length_app; cbn [List.length]; lia).
      rewrite length_app. cbn [List.length].
      replace (3 - List.length l) with (S (3 - (List.length l + 1))) by lia.
      cbn [seq map]. rewrite <- app_assoc. cbn [app].
      now replace (List.length l + 1) with (S (List.length l)) by lia.
    + apply Nat.ltb_ge in E.
      replace (3 - List.length l) with 0 by lia.
      cbn [seq map]. now rewrite app_nil_r.
Qed.

Lemma placeholder_url baseTime index :
  url (placeholder baseTime index) = placeholderUrl baseTime index.
Proof. reflexivity. Qed.

Lemma placeholders_tags baseTime start n :
  map source (map (placeholder baseTime) (seq start n)) = repeat "stock" n.
Proof.
  revert start. induction n as [|n IH]; intros start; simpl;
    [reflexivity | now rewrite IH].
Qed.

(** What the image-sourcing step returns.  A prompt that is not a string
    makes the keyword extraction throw, and the step answers with its final
    fallback; otherwise the entries found by the search, at most three and
    in the order of the keywords, are followed by placeholders up to three. *)
Lemma generateImageSuggestions_spec w prompt ct text tr :
  match prompt with
  | JStr p =>
      exists keywords found,
        extractKeywordsSimple (JStr p) ct = Normal keywords
        /\ sourced w (firstn 3 keywords) found
        /\ List.length found <= 3
        /\ (envIsSet (unsplashKey w) = false -> found = [])
        /\ generateImageSuggestions w prompt ct text tr
           = (mkSuggestions
                (map url found
                 ++ map (placeholderUrl (now w))
                        (seq (List.length found) (3 - List.length found)))
                (repeat "unsplash" (List.length found)
                 ++ repeat "stock" (3 - List.length found)),
              tr ++ (if envIsSet (unsplashKey w)
                     then map UnsplashSearch (firstn 3 keywords) else []))
  | _ => generateImageSuggestions w prompt ct text tr = (finalFallback, tr)
  end.
Proof.
  destruct prompt as [|p|t r]; [reflexivity| |reflexivity].
  unfold generateImageSuggestions, imageSuggestionsBody, extractImageKeywords.
  destruct (extractKeywordsSimple (JStr p) ct) as [keywords|reason] eqn:Ek;
    [|discriminate Ek].
  destruct (fetchUnsplashImages_spec w (firstn 3 keywords) tr)
    as [found [Hs [Hkey Hrun]]].
  destruct (sourced_tags _ _ _ Hs) as [Htags Hlen].
  assert (Hlen3 : List.length found <= 3).
  { pose proof (firstn_le_length 3 keywords). lia. }
  exists keywords, found. repeat split; try assumption.
  rewrite Hrun.
  set (imageResults := match (if 0 <? List.length found then Some found else None) with
                       | Some l => if 0 <? List.length l then l else []
                       | None => []
                       end).
  assert (Hres : imageResults = found).
  { subst imageResults. destruct found; reflexivity. }
  rewrite Hres.
  assert (Hpad : (if 0 <? 3 - List.length found
                  then padLoop 3 (now w) found else found)
                 = found ++ map (placeholder (now w))
                                (seq (List.length found) (3 - List.length found))).
  { destruct (0 <? 3 - List.length found) eqn:E.
    - apply padLoop_spec. lia.
    - apply Nat.ltb_ge in E.
      replace (3 - List.length found) with 0 by lia.
      cbn [seq map]. now rewrite app_nil_r. }
  rewrite Hpad.
  rewrite firstn_all2
    by (rewrite length_app, length_map, length_seq; lia).
  rewrite !map_app, placeholders_tags, Htags, map_map.
  reflexivity.
Qed.

(** ** Placeholder URLs *)

Lemma numberToString_digits n : allChars isDigit (numberToString n) = true.
Proof.
  unfold numberToString.
  induction (N.to_uint n) as [|d IH|d IH|d IH|d IH|d IH|d IH|d IH|d IH|d IH|d IH];
    simpl; [reflexivity | exact IH ..].
Qed.

Lemma numberToString_inj n m : numberToString n = numberToString m -> n = m.
Proof.
  unfold numberToString. intros H.
  apply DecimalN.Unsigned.to_uint_inj.
  assert (Hs : Some (N.to_uint n) = Some (N.to_uint m))
    by now rewrite <- !NilEmpty.usu, H.
  now injection Hs.
Qed.

Lemma append_inv_head (s x y : string) :
  (s ++ x)%string = (s ++ y)%string -> x = y.
Proof.
  induction s as [|c r IH]; simpl; intros H; [exact H|].
  injection H as H. auto.
Qed.

(** Two strings of digits followed by [&] and a rest agree part by part. *)
Lemma digits_then_amp (a a' c c' : string) :
  allChars isDigit a = true -> allChars isDigit a' = true ->
  (a ++ String "&" c)%string = (a' ++ String "&" c')%string ->
  a = a' /\ c = c'.
Proof.
  revert a'. induction a as [|d r IH]; intros [|d' r'] Ha Ha' H; simpl in *.
  - injection H as H. auto.
  - injection H as Hd _. subst d'. discriminate Ha'.
  - injection H as Hd _. subst d. discriminate Ha.
  - injection H as Hd H. subst d'.
    apply andb_true_iff in Ha as [_ Ha]. apply andb_true_iff in Ha' as [_ Ha'].
    destruct (IH r' Ha Ha' H) as [-> ->]. auto.
Qed.

Lemma placeholderUrl_inj baseTime i j :
  placeholderUrl baseTime i = placeholderUrl baseTime j -> i = j.
Proof.
  unfold placeholderUrl. intros H.
  apply append_inv_head in H.
  apply digits_then_amp in H; try apply numberToString_digits.
  destruct H as [_ H]. injection H as H.
  apply numberToString_inj in H. lia.
Qed.

Lemma placeholderUrls_NoDup baseTime start n :
  NoDup (map (placeholderUrl baseTime) (seq start n)).
Proof.
  apply Injective_map_NoDup; [|apply seq_NoDup].
  intros i j. apply placeholderUrl_inj.
Qed.

(** No URL of the final fallback is a placeholder URL of the formula. *)
Lemma fallback_not_formula (suffix : string) baseTime index :
  String.length suffix <= 1 ->
  ("https://picsum.photos/800/600?random=" ++ suffix)%string
  <> placeholderUrl baseTime index.
Proof.
  unfold placeholderUrl. intros Hlen H.
  apply append_inv_head in H.
  pose proof (numberToString_digits
                ((baseTime + N.of_nat index * 100) mod 1000 + 1)) as Hd.
  destruct (numberToString ((baseTime + N.of_nat index * 100) mod 1000 + 1))
    as [|d r]; simpl in H.
  - subst suffix. simpl in Hlen. lia.
  - destruct suffix as [|c [|c' s']]; simpl in Hlen; try discriminate H; try lia.
    injection H as _ H. destruct r; discriminate H.
Qed.

Lemma sourced_nothing w keywords found :
  (forall tr k u, unsplash w tr k <> Found u) ->
  sourced w keywords found -> found = [].
Proof.
  intros Hno. induction 1; auto.
  exfalso. eapply Hno; eauto.
Qed.

Lemma repeat_stock_all k :
  k <= 3 ->
  repeat "unsplash" k ++ repeat "stock" (3 - k) = ["stock"; "stock"; "stock"] ->
  k = 0.
Proof.
  intros Hk H. destruct k as [|k]; [reflexivity|].
  simpl in H. discriminate H.
Qed.

Lemma finalFallback_NoDup : NoDup (images finalFallback).
Proof.
  repeat constructor; simpl; intros H;
    repeat (destruct H as [H|H]; [discriminate H|]); exact H.
Qed.

(** Every answer of the image-sourcing step holds three URLs and three
    tags; without credential the tags are all [stock]. *)
Lemma generateImageSuggestions_lengths w prompt ct text tr :
  List.length (images (fst (generateImageSuggestions w prompt ct text tr))) = 3
  /\ List.length (tags (fst (generateImageSuggestions w prompt ct text tr))) = 3
  /\ (envIsSet (unsplashKey w) = false ->
      tags (fst (generateImageSuggestions w prompt ct text tr))
      = ["stock"; "stock"; "stock"]).
Proof.
  pose proof (generateImageSuggestions_spec w prompt ct text tr) as Hspec.
  destruct prompt as [|p|t rd].
  - rewrite Hspec. repeat split.
  - destruct Hspec as (keywords & found & Hk & Hs & Hlen & Hkey & Hrun).
    rewrite Hrun. cbn [fst images tags].
    split; [rewrite length_app, !length_map, length_seq; lia|].
    split; [rewrite length_app, !repeat_length; lia|].
    intros Hunset. now rewrite (Hkey Hunset).
  - rewrite Hspec. repeat split.
Qed.

(** C5, as the route has it.  The image-sourcing step always returns, with
    exactly three URLs and three tags.  Without credential, or with a search
    that never finds a picture, all three are placeholders.  When all three
    are placeholders the URLs are pairwise distinct; for a prompt that is a
    string they are the URLs of the formula for slots 0, 1 and 2, and for a
    prompt that is no string (the step failed inside and answered with its
    final fallback) they are the three fixed URLs. *)
Theorem image_sourcing_never_raises w prompt ct text tr :
  exists r tr',
    generateImageSuggestions w prompt ct text tr = (r, tr')
    /\ List.length (images r) = 3
    /\ List.length (tags r) = 3
    /\ (envIsSet (unsplashKey w) = false
        \/ (forall tr0 k u, unsplash w tr0 k <> Found u) ->
        tags r = ["stock"; "stock"; "stock"])
    /\ (tags r = ["stock"; "stock"; "stock"] ->
        NoDup (images r)
        /\ match prompt with
           | JStr _ => images r = map (placeholderUrl (now w)) [0; 1; 2]
           | _ => images r = ["https://picsum.photos/800/600?random=1";
                              "https://picsum.photos/800/600?random=2";
                              "https://picsum.photos/800/600?random=3"]
           end).
Proof.
  pose proof (generateImageSuggestions_spec w prompt ct text tr) as Hspec.
  destruct prompt as [|p|t rd].
  - rewrite Hspec. do 2 eexists. split; [reflexivity|].
    repeat split; try reflexivity. apply finalFallback_NoDup.
  - destruct Hspec as (keywords & found & Hk & Hs & Hlen & Hkey & Hrun).
    rewrite Hrun. do 2 eexists. split; [reflexivity|]. cbn [images tags].
    split; [rewrite length_app, !length_map, length_seq; lia|].
    split; [rewrite length_app, !repeat_length; lia|].
    split.
    + intros [Hunset|Hnone].
      * now rewrite (Hkey Hunset).
      * now rewrite (sourced_nothing _ _ _ Hnone Hs).
    + intros Hall. apply repeat_stock_all in Hall; [|exact Hlen].
      apply length_zero_iff_nil in Hall. subst found. simpl.
      split; [|reflexivity].
      apply (placeholderUrls_NoDup (now w) 0 3).
  - rewrite Hspec. do 2 eexists. split; [reflexivity|].
    repeat split; try reflexivity. apply finalFallback_NoDup.
Qed.


(** C5, as the specification states it, fails: for the prompt [42] (a JSON
    number) all three entries are placeholders, and their URLs are not those
    of the formula, for the clock reading of the request or for any other. *)
Lemma image_sourcing_formula_counterexample :
  let r := fst (generateImageSuggestions calmWorld (JOther true "42")
                  (JStr "article") "Hello world" []) in
  tags r = ["stock"; "stock"; "stock"]
  /\ images r <> map (placeholderUrl (now calmWorld)) [0; 1; 2]
  /\ (forall baseTime, images r <> map (placeholderUrl baseTime) [0; 1; 2]).
Proof.
  cbn zeta.
  assert (H : forall baseTime,
             images (fst (generateImageSuggestions calmWorld (JOther true "42")
                            (JStr "article") "Hello world" []))
             <> map (placeholderUrl baseTime) [0; 1; 2]).
  { intros baseTime E.
    change (images finalFallback = map (placeholderUrl baseTime) [0; 1; 2]) in E.
    apply (f_equal (hd EmptyString)) in E.
    cbn [finalFallback images map hd] in E.
    revert E. apply (fallback_not_formula "1"). simpl. lia. }
  split; [reflexivity|]. split; [apply H | exact H].
Qed.

(** ** The request handler *)

(** What a 200 answer is made of. *)
Lemma router_post_ok w req text wc pf imgs tys tr :
  router_post w req = (Ok200 text wc pf imgs tys, tr) ->
  truthy (prompt req) = true
  /\ exists tr1 r,
       generateWithRetry w (enhancedPrompt req) 2 [] = (Normal text, tr1)
       /\ generateImageSuggestions w (prompt req) (contentType req) text tr1
          = (r, tr)
       /\ wc = List.length (splitWhitespace text)
       /\ pf = orElse (platform req) (JStr "standard")
       /\ imgs = images r
       /\ tys = tags r.
Proof.
  unfold router_post.
  destruct (truthy (prompt req)); simpl; [|discriminate].
  destruct (generateWithRetry w (enhancedPrompt req) 2 []) as [[text'|msg] tr1];
    [|discriminate].
  destruct (generateImageSuggestions w (prompt req) (contentType req) text' tr1)
    as [r tr2] eqn:Eimg.
  intros H. injection H as -> <- <- <- <- <-.
  split; [reflexivity|]. exists tr1, r.
  repeat split; try assumption.
  now destruct (tags r).
Qed.

(** C2.  In every 200 answer the arrays [images] and [imageTypes] have the
    same length, which lies between 0 and 3. *)
Theorem images_and_imageTypes_same_length w req text wc pf imgs tys tr :
  router_post w req = (Ok200 text wc pf imgs tys, tr) ->
  List.length imgs = List.length tys
  /\ 0 <= List.length imgs <= 3.
Proof.
  intros H. apply router_post_ok in H as (_ & tr1 & r & _ & Himg & _ & _ & -> & ->).
  destruct (generateImageSuggestions_lengths w (prompt req) (contentType req)
              text tr1) as (Hi & Ht & _).
  rewrite Himg in Hi, Ht. cbn [fst] in Hi, Ht.
  rewrite Hi, Ht. lia.
Qed.

(** The length is in fact always 3. *)
Lemma images_always_three w req text wc pf imgs tys tr :
  router_post w req = (Ok200 text wc pf imgs tys, tr) ->
  List.length imgs = 3 /\ List.length tys = 3.
Proof.
  intros H. apply router_post_ok in H as (_ & tr1 & r & _ & Himg & _ & _ & -> & ->).
  destruct (generateImageSuggestions_lengths w (prompt req) (contentType req)
              text tr1) as (Hi & Ht & _).
  rewrite Himg in Hi, Ht. auto.
Qed.

(** ** The entries found by the photo search *)

Lemma searchLoop_foundBy w keywords :
  forall images tr,
    searchLoop w keywords images tr
    = (images ++ foundBy w tr keywords, tr ++ map UnsplashSearch keywords).
Proof.
  induction keywords as [|k rest IH]; intros images tr.
  - simpl. now rewrite !app_nil_r.
  - cbn [searchLoop foundBy map].
    destruct (unsplash w tr k); rewrite IH;
      rewrite <- ?app_assoc; reflexivity.
Qed.

Lemma foundBy_app w ks1 :
  forall tr ks2,
    foundBy w tr (ks1 ++ ks2)
    = foundBy w tr ks1 ++ foundBy w (tr ++ map UnsplashSearch ks1) ks2.
Proof.
  induction ks1 as [|k rest IH]; intros tr ks2.
  - simpl. now rewrite app_nil_r.
  - cbn [app foundBy map]. rewrite IH, <- !app_assoc. reflexivity.
Qed.

Lemma foundBy_length w keywords :
  forall tr, List.length (foundBy w tr keywords) <= List.length keywords.
Proof.
  induction keywords as [|k rest IH]; intros tr; [reflexivity|].
  cbn [foundBy]. rewrite length_app. specialize (IH (tr ++ [UnsplashSearch k])).
  destruct (unsplash w tr k); simpl; lia.
Qed.

Lemma foundBy_tags w keywords :
  forall tr, Forall (fun entry => source entry = "unsplash") (foundBy w tr keywords).
Proof.
  induction keywords as [|k rest IH]; intros tr; [constructor|].
  cbn [foundBy]. apply Forall_app. split; [|apply IH].
  destruct (unsplash w tr k); repeat constructor.
Qed.

Lemma tagged_unsplash found :
  Forall (fun entry => source entry = "unsplash") found ->
  map source found = repeat "unsplash" (List.length found).
Proof.
  induction 1 as [|x l Hx _ IH]; [reflexivity|].
  cbn [map List.length repeat]. now rewrite Hx, IH.
Qed.

(** An entry of [foundBy] is the picture found for one of the keywords. *)
Lemma foundBy_origin w keywords :
  forall tr i imageUrl,
    nth_error (map url (foundBy w tr keywords)) i = Some imageUrl ->
    exists before keyword after,
      keywords = before ++ keyword :: after
      /\ unsplash w (tr ++ map UnsplashSearch before) keyword = Found imageUrl
      /\ i = List.length (foundBy w tr before).
Proof.
  induction keywords as [|k rest IH]; intros tr i imageUrl Himg;
    [destruct i; discriminate Himg|].
  cbn [foundBy] in Himg.
  assert (Hlater : forall j,
             nth_error (map url (foundBy w (tr ++ [UnsplashSearch k]) rest)) j
             = Some imageUrl ->
             exists before keyword after,
               k :: rest = before ++ keyword :: after
               /\ unsplash w (tr ++ map UnsplashSearch before) keyword
                  = Found imageUrl
               /\ j + List.length (match unsplash w tr k with
                                   | Found u => [mkImage u "unsplash"]
                                   | _ => []
                                   end)
                  = List.length (foundBy w tr before)).
  { intros j Hj.
    destruct (IH _ _ _ Hj) as (before & keyword & after & -> & Hf & ->).
    exists (k :: before), keyword, after.
    cbn [app map foundBy]. rewrite <- app_assoc in Hf.
    split_all; auto. rewrite length_app. lia. }
  destruct (unsplash w tr k) as [| | | |u] eqn:E; cbn [app] in Himg.
  1-4: destruct (Hlater i Himg) as (before & keyword & after & H1 & H2 & H3);
    exists before, keyword, after; split_all; auto; simpl in H3; lia.
  destruct i as [|i].
  - cbn in Himg. injection Himg as <-.
    exists [], k, rest. cbn [app map foundBy List.length].
    rewrite app_nil_r. auto.
  - cbn [map nth_error] in Himg.
    destruct (Hlater i Himg) as (before & keyword & after & H1 & H2 & H3).
    exists before, keyword, after. split_all; auto. simpl in H3. lia.
Qed.

(** The keywords the step searches: the first three when a credential is
    set, none otherwise. *)
Lemma generateImageSuggestions_found w p ct text tr :
  exists keywords,
    extractKeywordsSimple (JStr p) ct = Normal keywords
    /\ generateImageSuggestions w (JStr p) ct text tr
       = let searched :=
           if envIsSet (unsplashKey w) then firstn 3 keywords else [] in
         let found := foundBy w tr searched in
         (mkSuggestions
            (map url found
             ++ map (placeholderUrl (now w))
                    (seq (List.length found) (3 - List.length found)))
            (repeat "unsplash" (List.length found)
             ++ repeat "stock" (3 - List.length found)),
          tr ++ map UnsplashSearch searched).
Proof.
  unfold generateImageSuggestions, imageSuggestionsBody, extractImageKeywords.
  destruct (extractKeywordsSimple (JStr p) ct) as [keywords|reason] eqn:Ek;
    [|discriminate Ek].
  exists keywords. split; [reflexivity|]. cbv zeta.
  set (searched := if envIsSet (unsplashKey w) then firstn 3 keywords else []).
  set (found := foundBy w tr searched).
  assert (Hrun : fetchUnsplashImages w (firstn 3 keywords) tr
                 = (if 0 <? List.length found then Some found else None,
                    tr ++ map UnsplashSearch searched)).
  { unfold fetchUnsplashImages. subst found searched.
    destruct (envIsSet (unsplashKey w)); cbn [negb].
    - rewrite searchLoop_foundBy. cbn [app].
      now destruct (0 <? List.length (foundBy w tr (firstn 3 keywords))).
    - cbn. now rewrite app_nil_r. }
  assert (Hlen3 : List.length found <= 3).
  { subst found. pose proof (foundBy_length w searched tr).
    assert (List.length searched <= 3).
    { subst searched. destruct (envIsSet (unsplashKey w));
        [apply firstn_le_length | simpl; lia]. }
    lia. }
  pose proof (tagged_unsplash found (foundBy_tags w searched tr)) as Htags.
  rewrite Hrun.
  set (imageResults := match (if 0 <? List.length found then Some found else None) with
                       | Some l => if 0 <? List.length l then l else []
                       | None => []
                       end).
  assert (Hres : imageResults = found).
  { subst imageResults. destruct found; reflexivity. }
  rewrite Hres.
  assert (Hpad : (if 0 <? 3 - List.length found
                  then padLoop 3 (now w) found else found)
                 = found ++ map (placeholder (now w))
                                (seq (List.length found) (3 - List.length found))).
  { destruct (0 <? 3 - List.length found) eqn:E.
    - apply padLoop_spec. lia.
    - apply Nat.ltb_ge in E.
      replace (3 - List.length found) with 0 by lia.
      cbn [seq map]. now rewrite app_nil_r. }
  rewrite Hpad.
  rewrite firstn_all2
    by (rewrite length_app, length_map, length_seq; lia).
  rewrite !map_app, placeholders_tags, Htags, map_map.
  reflexivity.
Qed.

(** C7.  The entries of the image-sourcing step are tagged by origin.  For a
    prompt that is a string the step searches the first three keywords when a
    credential is set, and none otherwise.  Every picture that a search
    finds is an entry tagged [unsplash]; these entries come first and in
    the order of their keywords ([foundBy]), and there are no other entries
    with that tag.  The slots that remain, up to three, hold the placeholder
    of their index, tagged [stock].  For any other prompt the step answers
    with its fixed fallback, tagged [stock] three times.  In a 200 answer to
    a request served without photo-search credential, [imageTypes] is three
    times [stock]. *)
Theorem image_entries_tagged_by_origin :
  (forall w p ct text tr,
      exists keywords,
        extractKeywordsSimple (JStr p) ct = Normal keywords
        /\ let searched :=
             if envIsSet (unsplashKey w) then firstn 3 keywords else [] in
           let found := foundBy w tr searched in
           let r := fst (generateImageSuggestions w (JStr p) ct text tr) in
           snd (generateImageSuggestions w (JStr p) ct text tr)
           = tr ++ map UnsplashSearch searched
           /\ images r
              = map url found
                ++ map (placeholderUrl (now w))
                       (seq (List.length found) (3 - List.length found))
           /\ tags r
              = repeat "unsplash" (List.length found)
                ++ repeat "stock" (3 - List.length found)
           /\ List.length found <= 3
           /\ (forall before keyword after imageUrl,
                  searched = before ++ keyword :: after ->
                  unsplash w (tr ++ map UnsplashSearch before) keyword
                  = Found imageUrl ->
                  nth_error (images r) (List.length (foundBy w tr before))
                  = Some imageUrl
                  /\ nth_error (tags r) (List.length (foundBy w tr before))
                     = Some "unsplash")
           /\ (forall i imageUrl,
                  nth_error (images r) i = Some imageUrl ->
                  nth_error (tags r) i = Some "unsplash" ->
                  exists before keyword after,
                    searched = before ++ keyword :: after
                    /\ unsplash w (tr ++ map UnsplashSearch before) keyword
                       = Found imageUrl
                    /\ i = List.length (foundBy w tr before))
           /\ (forall i,
                  List.length found <= i < 3 ->
                  nth_error (images r) i = Some (placeholderUrl (now w) i)
                  /\ nth_error (tags r) i = Some "stock"))
  /\ (forall w prompt ct text tr,
        (forall p, prompt <> JStr p) ->
        generateImageSuggestions w prompt ct text tr = (finalFallback, tr)
        /\ tags finalFallback = ["stock"; "stock"; "stock"])
  /\ (forall w req text wc pf imgs tys tr,
        envIsSet (unsplashKey w) = false ->
        router_post w req = (Ok200 text wc pf imgs tys, tr) ->
        tys = ["stock"; "stock"; "stock"]).
Proof.
  split; [|split].
  - intros w p ct text tr.
    destruct (generateImageSuggestions_found w p ct text tr)
      as (keywords & Hk & Hrun).
    exists keywords. split; [exact Hk|]. cbv zeta in *.
    rewrite Hrun. cbn [fst snd images tags].
    set (searched := if envIsSet (unsplashKey w) then firstn 3 keywords else []).
    set (found := foundBy w tr searched).
    assert (Hlen3 : List.length found <= 3).
    { subst found. pose proof (foundBy_length w searched tr).
      assert (List.length searched <= 3).
      { subst searched. destruct (envIsSet (unsplashKey w));
          [apply firstn_le_length | simpl; lia]. }
      lia. }
    split; [reflexivity|]. split; [reflexivity|]. split; [reflexivity|].
    split; [exact Hlen3|]. split; [|split].
    + intros before keyword after imageUrl Hs Hfound.
      assert (Hsplit : found
                       = foundBy w tr before
                         ++ mkImage imageUrl "unsplash"
                            :: foundBy w (tr ++ map UnsplashSearch
                                                  (before ++ [keyword])) after).
      { subst found. rewrite Hs, foundBy_app. cbn [foundBy]. rewrite Hfound.
        cbn [app]. now rewrite map_app, app_assoc. }
      split.
      * rewrite Hsplit, map_app, <- app_assoc, nth_error_app2
          by (rewrite length_map; lia).
        rewrite length_map, Nat.sub_diag. reflexivity.
      * rewrite nth_error_app1.
        -- apply nth_error_repeat. rewrite Hsplit, length_app. simpl. lia.
        -- rewrite repeat_length, Hsplit, length_app. simpl. lia.
    + intros i imageUrl Himg Htag.
      assert (Hi : i < List.length found).
      { destruct (Nat.lt_ge_cases i (List.length found)) as [|Hge]; [assumption|].
        exfalso. rewrite nth_error_app2 in Htag by (now rewrite repeat_length).
        apply nth_error_In, repeat_spec in Htag. discriminate Htag. }
      rewrite nth_error_app1 in Himg by (now rewrite length_map).
      now apply foundBy_origin.
    + intros i [Hlo Hhi].
      split.
      * rewrite nth_error_app2 by (now rewrite length_map).
        rewrite length_map, nth_error_map, nth_error_seq.
        assert (E : (i - List.length found <? 3 - List.length found) = true)
          by (apply Nat.ltb_lt; lia).
        rewrite E. cbn [option_map]. do 2 f_equal. lia.
      * rewrite nth_error_app2 by (now rewrite repeat_length).
        rewrite repeat_length. apply nth_error_repeat. lia.
  - intros w prompt ct text tr Hp.
    split; [|reflexivity].
    destruct prompt as [|p|t rd]; [reflexivity | now destruct (Hp p) | reflexivity].
  - intros w req text wc pf imgs tys tr Hkey H.
    apply router_post_ok in H as (_ & tr1 & r & _ & Himg & _ & _ & _ & ->).
    destruct (generateImageSuggestions_lengths w (prompt req) (contentType req)
                text tr1) as (_ & _ & Hstock).
    rewrite Himg in Hstock. now apply Hstock.
Qed.

(** C1, as the route has it.  A request whose prompt is absent or is the
    empty string is answered with 400 and the fixed message, and no external
    call and no timer precedes the answer. *)
Theorem missing_prompt_rejected w req :
  prompt req = JUndefined \/ prompt req = JStr "" ->
  router_post w req = (Bad400 "Prompt is required", [])
  /\ filter isExternal (snd (router_post w req)) = [].
Proof.
  intros H. unfold router_post.
  destruct H as [-> | ->]; simpl; auto.
Qed.

(** The test of the handler is the truthiness of the field: the other falsy
    values ([null], [false], [0]) are rejected as well, and nothing else is. *)
Lemma rejected_iff_falsy w req :
  fst (router_post w req) = Bad400 "Prompt is required"
  <-> truthy (prompt req) = false.
Proof.
  unfold router_post. destruct (truthy (prompt req)); simpl.
  - split; [|discriminate].
    destruct (generateWithRetry w (enhancedPrompt req) 2 []) as [[text|msg] tr].
    + destruct (generateImageSuggestions w (prompt req) (contentType req) text tr).
      discriminate.
    + discriminate.
  - tauto.
Qed.

Lemma attemptLoop_extends w m p maxRetries :
  forall remaining attempt tr,
    exists tr', snd (attemptLoop w m p maxRetries remaining attempt tr) = tr ++ tr'.
Proof.
  induction remaining as [|k IH]; intros attempt tr.
  - exists []. simpl. now rewrite app_nil_r.
  - cbn [attemptLoop]. destruct (llm w tr m p) as [text|e].
    + now exists [LlmCall m p].
    + destruct (classify e).
      * rewrite backoff_retry.
        destruct (IH (S attempt)
          ((tr ++ [LlmCall m p]) ++
           (if S attempt <? maxRetries then [Sleep (2000 * (attempt + 1))] else [])))
          as [tr' ->].
        rewrite <- !app_assoc. eauto.
      * now exists [LlmCall m p].
      * rewrite backoff_retry.
        destruct (IH (S attempt)
          ((tr ++ [LlmCall m p]) ++
           (if S attempt <? maxRetries then [Sleep (1000 * (attempt + 1))] else [])))
          as [tr' ->].
        rewrite <- !app_assoc. eauto.
Qed.

Lemma attemptLoop_first_call w m p maxRetries k attempt tr :
  exists tr',
    snd (attemptLoop w m p maxRetries (S k) attempt tr) = tr ++ LlmCall m p :: tr'.
Proof.
  cbn [attemptLoop]. destruct (llm w tr m p) as [text|e].
  - now exists [].
  - destruct (classify e).
    + destruct (attemptLoop_extends w m p maxRetries k (S attempt)
                  (backoff 2000 attempt maxRetries (tr ++ [LlmCall m p])))
        as [tr' ->].
      rewrite backoff_retry, <- !app_assoc. simpl. eauto.
    + now exists [].
    + destruct (attemptLoop_extends w m p maxRetries k (S attempt)
                  (backoff 1000 attempt maxRetries (tr ++ [LlmCall m p])))
        as [tr' ->].
      rewrite backoff_retry, <- !app_assoc. simpl. eauto.
Qed.

Lemma generateImageSuggestions_extends w prompt ct text tr :
  exists tr', snd (generateImageSuggestions w prompt ct text tr) = tr ++ tr'.
Proof.
  pose proof (generateImageSuggestions_spec w prompt ct text tr) as H.
  destruct prompt as [|p|t rd].
  - rewrite H. exists []. simpl. now rewrite app_nil_r.
  - destruct H as (keywords & found & _ & _ & _ & _ & ->). simpl. eauto.
  - rewrite H. exists []. simpl. now rewrite app_nil_r.
Qed.

(** Any prompt that is not falsy, a prompt of white space included, is sent
    to the text-generation provider. *)
Lemma present_prompt_reaches_provider w req :
  truthy (prompt req) = true ->
  exists rest,
    snd (router_post w req)
    = LlmCall "gemini-2.5-flash" (enhancedPrompt req) :: rest.
Proof.
  intros Ht. unfold router_post, generateWithRetry, models. rewrite Ht.
  cbn [negb modelLoop].
  destruct (attemptLoop_first_call w "gemini-2.5-flash" (enhancedPrompt req)
              2 1 0 []) as [tr' Htr].
  destruct (attemptLoop w "gemini-2.5-flash" (enhancedPrompt req) 2 2 0 [])
    as [[text|] tr] eqn:E; simpl in Htr; subst tr.
  - destruct (generateImageSuggestions_extends w (prompt req) (contentType req)
                text (LlmCall "gemini-2.5-flash" (enhancedPrompt req) :: tr'))
      as [tr'' Hext].
    destruct (generateImageSuggestions w (prompt req) (contentType req) text
                (LlmCall "gemini-2.5-flash" (enhancedPrompt req) :: tr'))
      as [r tr2].
    simpl in Hext. subst tr2. simpl. eauto.
  - simpl. eauto.
Qed.

(** C1, as the specification states it, fails: a prompt made of three
    spaces is not answered with the 400 error, and the text-generation
    provider is called. *)
Lemma whitespace_prompt_counterexample :
  fst (router_post calmWorld (requestWithPrompt (JStr "   ")))
  <> Bad400 "Prompt is required"
  /\ existsb isExternal
       (snd (router_post calmWorld (requestWithPrompt (JStr "   ")))) = true
  /\ allChars isSpaceChar "   " = true.
Proof.
  split; [|split]; [|reflexivity|reflexivity].
  intros H. apply rejected_iff_falsy in H. discriminate H.
Qed.

(** ** The word count *)

Lemma splitScan_length s :
  forall cur inSep,
    List.length (splitScan cur inSep s)
    = tokenRuns (negb inSep) s
      + (if inSep then 0 else 1)
      + (if endsInSpace inSep s then 1 else 0).
Proof.
  induction s as [|c r IH]; intros cur inSep.
  - destruct inSep; reflexivity.
  - cbn [splitScan tokenRuns endsInSpace].
    destruct (isSpaceChar c) eqn:E.
    + destruct inSep; cbn [List.length negb]; rewrite IH; simpl; lia.
    + rewrite IH. destruct inSep; simpl; lia.
Qed.

(** The count of the route against the number of tokens: the pieces of the
    split are the tokens, one empty piece for an empty text or a text that
    starts with white space, and one for a text that ends with white space. *)
Lemma wordCount_against_tokens s :
  List.length (splitWhitespace s)
  = countTokens s
    + (if String.eqb s "" || startsWithSpace s then 1 else 0)
    + (if endsWithSpace s then 1 else 0).
Proof.
  unfold splitWhitespace, countTokens, endsWithSpace.
  rewrite splitScan_length. cbn [negb].
  destruct s as [|c r]; [reflexivity|].
  cbn [tokenRuns startsWithSpace String.eqb orb].
  destruct (isSpaceChar c); simpl; lia.
Qed.

(** The two counts agree exactly on the texts that are not empty and have
    no white space at either end. *)
Lemma wordCount_exact_iff s :
  List.length (splitWhitespace s) = countTokens s
  <-> String.eqb s EmptyString = false
      /\ startsWithSpace s = false /\ endsWithSpace s = false.
Proof.
  rewrite wordCount_against_tokens.
  destruct (String.eqb s EmptyString), (startsWithSpace s), (endsWithSpace s);
    simpl; split; intros H; try lia; try tauto;
    destruct H as (H1 & H2 & H3); discriminate.
Qed.

(** C8 fails on the route: the provider's text [Hello world] followed by a
    line feed has two tokens, and the answer carries the word count 3. *)
Theorem wordCount_counts_trailing_piece :
  exists imgs tys tr,
    router_post calmWorld sampleRequest
    = (Ok200 ("Hello world" ++ nl)%string 3 (JStr "linkedin") imgs tys, tr)
    /\ countTokens ("Hello world" ++ nl)%string = 2.
Proof. do 3 eexists. split; vm_compute; reflexivity. Qed.

(** ** The version history of the client *)

Section History.
Import Client.

Lemma step_history s a :
  a <> Reject ->
  contentHistory (step s a)
  = match appended s a with
    | Some v => v :: contentHistory s
    | None => contentHistory s
    end.
Proof.
  intros Ha. destruct a; try reflexivity; try congruence.
  - (* Generate *) simpl. unfold generate. now destruct (isBlank (prompt s)).
  - (* LoadVersion *) simpl. unfold loadVersion.
    now destruct (nth_error (contentHistory s) index).
  - (* Refine *) simpl. unfold refineContent.
    now destruct (isBlank (refinePrompt s) || String.eqb (generatedContent s) "").
Qed.

Lemma appended_isAppend s a :
  isAppend a = match appended s a with Some _ => true | None => false end.
Proof. now destruct a. Qed.

(** Without a reject the history is the chronicle of the run, newest first,
    in front of what the history held before. *)
Lemma run_history acts :
  forall s,
    ~ In Reject acts ->
    contentHistory (run s acts) = rev (chronicle s acts) ++ contentHistory s.
Proof.
  induction acts as [|a rest IH]; intros s Hno; [reflexivity|].
  cbn [run fold_left chronicle].
  assert (Ha : a <> Reject) by (intros ->; apply Hno; now left).
  assert (Hrest : ~ In Reject rest) by (intros H; apply Hno; now right).
  change (fold_left step rest (step s a)) with (run (step s a) rest).
  rewrite (IH (step s a) Hrest), (step_history s a Ha).
  destruct (appended s a) as [v|]; [|reflexivity].
  cbn [rev]. now rewrite <- app_assoc.
Qed.

Lemma chronicle_length acts :
  forall s, List.length (chronicle s acts) = List.length (filter isAppend acts).
Proof.
  induction acts as [|a rest IH]; intros s; [reflexivity|].
  cbn [chronicle filter]. rewrite (appended_isAppend s a).
  destruct (appended s a); cbn [List.length]; now rewrite IH.
Qed.

Lemma writing_not_reject acts :
  forallb isWriting acts = true -> ~ In Reject acts.
Proof.
  intros H Hin. rewrite forallb_forall in H.
  specialize (H _ Hin). discriminate H.
Qed.

Lemma step_append_version s a :
  isAppend a = true -> currentVersion (step s a) = 0.
Proof. intros Ha. destruct a; try discriminate Ha; reflexivity. Qed.

Lemma step_other_version s a :
  isWriting a = true -> isAppend a = false ->
  currentVersion (step s a) = currentVersion s.
Proof.
  intros Hw Ha. destruct a; try discriminate Hw; try discriminate Ha;
    try reflexivity.
  - simpl. unfold generate. now destruct (isBlank (prompt s)).
  - simpl. unfold refineContent.
    now destruct (isBlank (refinePrompt s) || String.eqb (generatedContent s) "").
Qed.

Lemma run_writing_version acts :
  forall s,
    forallb isWriting acts = true ->
    currentVersion s = 0 \/ existsb isAppend acts = true ->
    currentVersion (run s acts) = 0.
Proof.
  induction acts as [|a rest IH]; intros s Hw Hs.
  - destruct Hs as [Hs|Hs]; [exact Hs | discriminate Hs].
  - cbn [forallb] in Hw. apply andb_true_iff in Hw as [Ha Hrest].
    cbn [run fold_left]. apply (IH (step s a) Hrest).
    destruct (isAppend a) eqn:Eapp.
    + left. now apply step_append_version.
    + destruct Hs as [Hs|Hs].
      * left. now rewrite step_other_version.
      * right. cbn [existsb] in Hs. now rewrite Eapp in Hs.
Qed.

Lemma sorted_snoc (l : list N) x :
  StronglySorted notBefore l -> Forall (fun y => notBefore y x) l ->
  StronglySorted notBefore (l ++ [x]).
Proof.
  induction 1 as [|y r Hr IH Hy]; intros Hall; simpl.
  - repeat constructor.
  - inversion Hall as [|? ? Hyx Hrx]; subst.
    constructor; [now apply IH|].
    apply Forall_app. split; [exact Hy | now repeat constructor].
Qed.

Lemma sorted_rev (l : list N) :
  StronglySorted notAfter l -> StronglySorted notBefore (rev l).
Proof.
  induction 1 as [|x r Hr IH Hx]; simpl; [constructor|].
  apply sorted_snoc; [exact IH|].
  apply Forall_rev. exact Hx.
Qed.

(** C9.  Starting from an empty history (the initial state of the component
    is one), after a run without reject (and without loading an earlier
    version) the history holds one entry for each of the N operations that
    succeeded in generating, refining or saving an edit, the newest first (it
    is the chronicle of the run, reversed), and the current version is 0,
    provided it was 0 at the start or N is not 0; when the clock does not go
    back the time stamps of the history do not increase.  Rejecting empties
    the draft and the history. *)
Theorem history_is_most_recent_first :
  (forall s acts,
      contentHistory s = [] ->
      forallb isWriting acts = true ->
      currentVersion s = 0 \/ existsb isAppend acts = true ->
      contentHistory (run s acts) = rev (chronicle s acts)
      /\ List.length (contentHistory (run s acts))
         = List.length (filter isAppend acts)
      /\ currentVersion (run s acts) = 0
      /\ (StronglySorted notAfter (stamps (chronicle s acts)) ->
          StronglySorted notBefore (stamps (contentHistory (run s acts)))))
  /\ (contentHistory initial = [] /\ currentVersion initial = 0)
  /\ (forall s,
        generatedContent (rejectContent s) = ""
        /\ contentHistory (rejectContent s) = []
        /\ contentStatus (rejectContent s) = rejected).
Proof.
  split; [|split].
  - intros s acts Hempty Hw Hcur.
    pose proof (run_history acts s (writing_not_reject acts Hw)) as Hh.
    rewrite Hempty, app_nil_r in Hh.
    split; [exact Hh|].
    split; [now rewrite Hh, length_rev, chronicle_length|].
    split; [now apply run_writing_version|].
    intros Hs. rewrite Hh. unfold stamps in *. rewrite map_rev.
    now apply sorted_rev.
  - split; reflexivity.
  - intros s. repeat split.
Qed.

(** Rejecting leaves the index of the current version as it was: after a
    reject that follows the loading of an earlier version the history is empty
    and the index is not 0, until the next version is added. *)
Lemma reject_keeps_currentVersion :
  let s := run initial
             [GenerateNext (mkResponse "one" 1 None) 10%N;
              GenerateNext (mkResponse "two" 1 None) 20%N;
              LoadVersion 1;
              Reject] in
  contentHistory s = [] /\ currentVersion s = 1.
Proof. split; reflexivity. Qed.

End History.

(** ** The earlier variant, for comparison *)

(** The earlier retry loop knows no not-found class: the unknown model is
    called [maxRetries] times before the next one is tried. *)
Lemma legacy_retries_unknown_model :
  Legacy.modelLoop fallbackWorld "p" 2 ["model-a"; "model-b"] []
  = (Normal "text of model-b",
     [LlmCall "model-a" "p"; Sleep 1000; LlmCall "model-a" "p";
      LlmCall "model-b" "p"; Sleep 1000; LlmCall "model-b" "p"]).
Proof. reflexivity. Qed.

(** Exhaustion in the earlier loop: every error is retried, always with the
    base delay 1000. *)
Lemma legacy_attemptLoop_all_fail w m p maxRetries :
  (forall tr, exists e, llm w tr m p = Failed e) ->
  forall remaining attempt tr,
    Legacy.attemptLoop w m p maxRetries remaining attempt tr
    = (NextModel,
       tr ++ flat_map (fun attempt =>
                         LlmCall m p
                         :: (if S attempt <? maxRetries
                             then [Sleep (1000 * (attempt + 1))] else []))
                      (seq attempt remaining)).
Proof.
  intros Hfail. induction remaining as [|k IH]; intros attempt tr.
  - simpl. now rewrite app_nil_r.
  - destruct (Hfail tr) as [e He].
    cbn [Legacy.attemptLoop]. rewrite He, backoff_retry, IH.
    cbn [seq flat_map]. now rewrite <- !app_assoc.
Qed.

Lemma legacy_all_failures_exhaust_models w p maxRetries ms tr :
  (forall tr0 m, exists e, llm w tr0 m p = Failed e) ->
  Legacy.modelLoop w p maxRetries ms tr
  = (Throw "All models failed after retries",
     tr ++ flat_map (linearSchedule p maxRetries 1000) ms).
Proof.
  intros Hfail. revert tr. induction ms as [|m rest IH]; intros tr.
  - simpl. now rewrite app_nil_r.
  - cbn [Legacy.modelLoop].
    rewrite (legacy_attemptLoop_all_fail w m p maxRetries
               (fun tr0 => Hfail tr0 m)).
    rewrite IH. cbn [flat_map]. unfold linearSchedule at 2.
    now rewrite <- app_assoc.
Qed.

(** The earlier keyword extraction reads the content type. *)
Lemma legacy_keywords_read_contentType :
  Legacy.extractKeywordsSimple (JStr "Write the article") (JStr "essay")
  = Normal [JStr "essay"]
  /\ Legacy.extractKeywordsSimple (JStr "Write the article") JUndefined
     = Normal [JStr "business"; JStr "technology"; JStr "professional"].
Proof. split; reflexivity. Qed.

(** ** The statements at sample inputs *)

Lemma missing_prompt_rejected_witness :
  (prompt (requestWithPrompt JUndefined) = JUndefined
   \/ prompt (requestWithPrompt JUndefined) = JStr "")
  /\ router_post calmWorld (requestWithPrompt JUndefined)
     = (Bad400 "Prompt is required", [])
  /\ filter isExternal (snd (router_post calmWorld (requestWithPrompt JUndefined)))
     = [].
Proof.
  split; [left; reflexivity|].
  apply (missing_prompt_rejected calmWorld (requestWithPrompt JUndefined)).
  left; reflexivity.
Defined.

Lemma images_and_imageTypes_same_length_witness :
  exists text wc pf imgs tys tr,
    router_post calmWorld sampleRequest = (Ok200 text wc pf imgs tys, tr)
    /\ List.length imgs = List.length tys
    /\ 0 <= List.length imgs <= 3.
Proof.
  do 6 eexists. split; [vm_compute; reflexivity|].
  eapply (images_and_imageTypes_same_length calmWorld sampleRequest).
  vm_compute; reflexivity.
Defined.

Lemma not_found_moves_to_next_model_witness :
  exists tr,
    modelLoop fallbackWorld "p" 2 ["model-a"; "model-b"] []
    = (Normal "text of model-b", tr)
    /\ tr = [LlmCall "model-a" "p"; LlmCall "model-b" "p";
             Sleep 1000; LlmCall "model-b" "p"]
    /\ callsTo "model-a" tr = 1 /\ callsTo "model-b" tr = 2
    /\ List.length (llmCalls tr) = 3.
Proof.
  apply (proj2 (proj2 not_found_moves_to_next_model) fallbackWorld "p" 2
           "model-a" "model-b" (mkApiError (Some 503) (Some "unavailable"))
           "text of model-b").
  - discriminate.
  - lia.
  - intros tr. eexists. split; reflexivity.
  - intros tr H. cbn. rewrite H. reflexivity.
  - vm_compute. discriminate.
  - intros tr H. cbn. rewrite H. reflexivity.
Defined.

Lemma brokenWorld_always_fails :
  forall tr m,
    exists e, llm brokenWorld tr m "p" = Failed e /\ classify e <> NotFound.
Proof.
  intros tr m. eexists. split; [reflexivity|]. vm_compute. discriminate.
Defined.

Lemma all_failures_exhaust_models_witness :
  exists tr',
    modelLoop brokenWorld "p" 2 ["model-a"; "model-b"] []
    = (Throw exhaustedMessage, [] ++ tr')
    /\ List.length (llmCalls tr') = 2 * 2
    /\ tr' = [LlmCall "model-a" "p"; Sleep 1000; LlmCall "model-a" "p";
              LlmCall "model-b" "p"; Sleep 1000; LlmCall "model-b" "p"]
    /\ delays tr' = [1000; 1000].
Proof.
  destruct (all_failures_exhaust_models brokenWorld "p" 2
              ["model-a"; "model-b"] [] brokenWorld_always_fails)
    as (tr' & Hrun & Hcalls & _ & Huniform).
  destruct (Huniform OtherError) as [Htr Hdelays].
  { intros tr m. eexists. split; reflexivity. }
  exists tr'. repeat split; assumption.
Defined.

Lemma image_sourcing_never_raises_witness :
  exists r tr',
    generateImageSuggestions calmWorld (JStr "Write about AI in healthcare")
      (JStr "article") "Hello world" [] = (r, tr')
    /\ tags r = ["stock"; "stock"; "stock"]
    /\ NoDup (images r)
    /\ images r = map (placeholderUrl (now calmWorld)) [0; 1; 2].
Proof.
  destruct (image_sourcing_never_raises calmWorld
              (JStr "Write about AI in healthcare") (JStr "article")
              "Hello world" [])
    as (r & tr' & Hrun & _ & _ & Hstock & Hall).
  exists r, tr'.
  assert (Htags : tags r = ["stock"; "stock"; "stock"])
    by (apply Hstock; left; reflexivity).
  destruct (Hall Htags) as [Hnodup Hurls].
  repeat split; assumption.
Defined.

Lemma extractKeywordsSimple_algorithm_witness :
  extractKeywordsSimple (JStr "Write about AI in Healthcare, robots!")
    (JStr "article") = Normal ["healthcare"; "robots"]
  /\ tokenOf "Write about AI in Healthcare, robots!" "healthcare"
  /\ tokenOf "Write about AI in Healthcare, robots!" "robots".
Proof.
  destruct (extractKeywordsSimple_algorithm
              "Write about AI in Healthcare, robots!" (JStr "article"))
    as (ranked & keywords & _ & Hmem & _ & _ & Hkw & Hrun & _).
  assert (Hval : keywords = ["healthcare"; "robots"]).
  { vm_compute in Hrun. now injection Hrun. }
  rewrite Hval in Hrun, Hkw. split; [exact Hrun|].
  assert (Hin : forall w, In w ["healthcare"; "robots"] -> In w ranked).
  { intros w Hw. destruct ranked as [|x l]; [discriminate Hkw|].
    rewrite Hkw in Hw. rewrite <- (firstn_skipn 3 (x :: l)).
    apply in_or_app. now left. }
  split; apply Hmem, Hin; cbn; auto.
Defined.

Lemma image_entries_tagged_by_origin_witness :
  let run := generateImageSuggestions galleryWorld
               (JStr "Future of robots in healthcare!") (JStr "article")
               "Hello world" [] in
  images (fst run)
  = ["https://images.unsplash.com/healthcare";
     "https://images.unsplash.com/robots";
     placeholderUrl sampleTime 2]
  /\ tags (fst run) = ["unsplash"; "unsplash"; "stock"]
  /\ snd run = [UnsplashSearch "healthcare"; UnsplashSearch "future";
                UnsplashSearch "robots"]
  /\ envIsSet (unsplashKey calmWorld) = false
  /\ exists text wc pf imgs tys tr,
       router_post calmWorld sampleRequest = (Ok200 text wc pf imgs tys, tr)
       /\ tys = ["stock"; "stock"; "stock"].
Proof.
  cbv zeta.
  destruct (proj1 image_entries_tagged_by_origin galleryWorld
              "Future of robots in healthcare!" (JStr "article")
              "Hello world" [])
    as (keywords & Hk & Htr & Himg & Htags & _).
  vm_compute in Hk. injection Hk as <-.
  split; [rewrite Himg; vm_compute; reflexivity|].
  split; [rewrite Htags; vm_compute; reflexivity|].
  split; [rewrite Htr; vm_compute; reflexivity|].
  split; [reflexivity|].
  do 6 eexists. split; [vm_compute; reflexivity|].
  eapply (proj2 (proj2 image_entries_tagged_by_origin) calmWorld sampleRequest);
    [reflexivity | vm_compute; reflexivity].
Defined.

Lemma history_is_most_recent_first_witness :
  forallb Client.isWriting sampleSession = true
  /\ Client.contentHistory (Client.run Client.initial sampleSession)
     = rev (Client.chronicle Client.initial sampleSession)
  /\ List.length (Client.contentHistory (Client.run Client.initial sampleSession))
     = List.length (filter Client.isAppend sampleSession)
  /\ Client.currentVersion (Client.run Client.initial sampleSession) = 0
  /\ StronglySorted notBefore
       (stamps (Client.contentHistory (Client.run Client.initial sampleSession))).
Proof.
  split; [reflexivity|].
  destruct (proj1 history_is_most_recent_first Client.initial sampleSession
              eq_refl eq_refl (or_introl eq_refl))
    as (Hh & Hlen & Hcur & Hsorted).
  repeat split; try assumption.
  apply Hsorted. cbn.
  repeat constructor; unfold notAfter; lia.
Defined.

Lemma extractKeywordsSimple_ignores_contentType_witness :
  promptWords "Write the article" = []
  /\ extractKeywordsSimple (JStr "Write the article") (JStr "essay")
     = Normal ["professional"; "business"; "content"].
Proof.
  split; [reflexivity|].
  apply (proj2 (proj2 (proj2 extractKeywordsSimple_ignores_contentType))).
  reflexivity.
Defined.

(* ================================================================== *)
(** * Part III.  Further properties of the code                        *)
(* ================================================================== *)

(** ** The retry loop under any provider *)

Lemma searchesOf_app tr1 tr2 :
  searchesOf (tr1 ++ tr2) = searchesOf tr1 ++ searchesOf tr2.
Proof. apply flat_map_app. Qed.

Lemma loopEvent_weaken m ms p maxRetries e :
  loopEvent [m] p maxRetries e -> In m ms -> loopEvent ms p maxRetries e.
Proof.
  destruct e as [m' q|d|k]; simpl; auto.
  intros [[<-|[]] ->] Hin. auto.
Qed.

Lemma loopEvent_cons m ms p maxRetries e :
  loopEvent ms p maxRetries e -> loopEvent (m :: ms) p maxRetries e.
Proof.
  destruct e as [m' q|d|k]; simpl; auto.
  intros [Hin ->]. auto.
Qed.

(** The inner loop, whatever the provider answers: at most [remaining]
    calls, all of them to the model and with the prompt, at most one wait
    between two calls, and a returned text is the answer to the last call. *)
Lemma attemptLoop_shape w m p maxRetries :
  forall remaining attempt tr,
    attempt + remaining = maxRetries ->
    exists r tr',
      attemptLoop w m p maxRetries remaining attempt tr = (r, tr ++ tr')
      /\ List.length (llmCalls tr') <= remaining
      /\ List.length (delays tr') <= remaining - 1
      /\ Forall (loopEvent [m] p maxRetries) tr'
      /\ match r with
         | Returned text =>
             exists tr0,
               tr ++ tr' = tr0 ++ [LlmCall m p]
               /\ llm w tr0 m p = Generated text
         | NextModel => True
         end.
Proof.
  induction remaining as [|k IH]; intros attempt tr Hsum.
  - exists NextModel, []. simpl. rewrite app_nil_r. split_all; auto.
  - cbn [attemptLoop]. destruct (llm w tr m p) as [text|e] eqn:Ellm.
    + exists (Returned text), [LlmCall m p]. simpl.
      split_all; try reflexivity; try lia.
      * repeat constructor.
      * exists tr. auto.
    + assert (Hcall : loopEvent [m] p maxRetries (LlmCall m p))
        by (simpl; auto).
      destruct (classify e) eqn:Ec.
      * rewrite backoff_retry.
        destruct (IH (S attempt)
                    ((tr ++ [LlmCall m p]) ++
                     (if S attempt <? maxRetries
                      then [Sleep (2000 * (attempt + 1))] else [])))
          as (r & tr' & Hrun & Hcalls & Hdel & Hev & Hret); [lia|].
        rewrite Hrun. exists r. eexists.
        split; [rewrite <- !app_assoc; reflexivity|].
        rewrite !llmCalls_app, !delays_app, !length_app.
        destruct (S attempt <? maxRetries) eqn:E; simpl.
        -- apply Nat.ltb_lt in E.
           split_all; try reflexivity; try lia.
           ++ constructor; [exact Hcall|]. constructor; [|exact Hev].
              exists RateLimited, attempt. repeat split; [discriminate | lia].
           ++ destruct r; [|exact I].
              destruct Hret as [tr0 [Heq Hgen]]. exists tr0.
              rewrite <- !app_assoc in Heq. simpl in Heq. auto.
        -- split_all; try reflexivity; try lia.
           ++ constructor; [exact Hcall | exact Hev].
           ++ destruct r; [|exact I].
              destruct Hret as [tr0 [Heq Hgen]]. exists tr0.
              rewrite <- !app_assoc in Heq. simpl in Heq. auto.
      * exists NextModel, [LlmCall m p]. simpl.
        split_all; try reflexivity; try lia. repeat constructor.
      * rewrite backoff_retry.
        destruct (IH (S attempt)
                    ((tr ++ [LlmCall m p]) ++
                     (if S attempt <? maxRetries
                      then [Sleep (1000 * (attempt + 1))] else [])))
          as (r & tr' & Hrun & Hcalls & Hdel & Hev & Hret); [lia|].
        rewrite Hrun. exists r. eexists.
        split; [rewrite <- !app_assoc; reflexivity|].
        rewrite !llmCalls_app, !delays_app, !length_app.
        destruct (S attempt <? maxRetries) eqn:E; simpl.
        -- apply Nat.ltb_lt in E.
           split_all; try reflexivity; try lia.
           ++ constructor; [exact Hcall|]. constructor; [|exact Hev].
              exists OtherError, attempt. repeat split; [discriminate | lia].
           ++ destruct r; [|exact I].
              destruct Hret as [tr0 [Heq Hgen]]. exists tr0.
              rewrite <- !app_assoc in Heq. simpl in Heq. auto.
        -- split_all; try reflexivity; try lia.
           ++ constructor; [exact Hcall | exact Hev].
           ++ destruct r; [|exact I].
              destruct Hret as [tr0 [Heq Hgen]]. exists tr0.
              rewrite <- !app_assoc in Heq. simpl in Heq. auto.
Qed.

Lemma modelLoop_shape w p maxRetries ms :
  forall tr,
    exists r tr',
      modelLoop w p maxRetries ms tr = (r, tr ++ tr')
      /\ List.length (llmCalls tr') <= List.length ms * maxRetries
      /\ List.length (delays tr') <= List.length ms * (maxRetries - 1)
      /\ Forall (loopEvent ms p maxRetries) tr'
      /\ match r with
         | Normal text =>
             exists tr0 m,
               In m ms
               /\ tr ++ tr' = tr0 ++ [LlmCall m p]
               /\ llm w tr0 m p = Generated text
         | Throw reason => reason = exhaustedMessage
         end.
Proof.
  induction ms as [|m rest IH]; intros tr.
  - exists (Throw exhaustedMessage), []. simpl. rewrite app_nil_r.
    split_all; auto.
  - cbn [modelLoop].
    destruct (attemptLoop_shape w m p maxRetries maxRetries 0 tr eq_refl)
      as (r1 & tr1 & Hrun & Hcalls & Hdel & Hev & Hret).
    rewrite Hrun. destruct r1 as [text|].
    + exists (Normal text), tr1. cbn [List.length Nat.mul].
      split_all; try reflexivity; try nia.
      * eapply Forall_impl; [|exact Hev].
        intros e He. apply (loopEvent_weaken m); [exact He | now left].
      * destruct Hret as [tr0 [Heq Hgen]]. exists tr0, m.
        split_all; auto. now left.
    + destruct (IH (tr ++ tr1)) as (r & tr2 & Hrest & Hcalls2 & Hdel2 & Hev2 & Hret2).
      rewrite Hrest. exists r, (tr1 ++ tr2).
      rewrite llmCalls_app, delays_app, !length_app. cbn [List.length Nat.mul].
      split; [now rewrite app_assoc|].
      split_all; try reflexivity; try nia.
      * apply Forall_app. split.
        -- eapply Forall_impl; [|exact Hev].
           intros e He. apply (loopEvent_weaken m); [exact He | now left].
        -- eapply Forall_impl; [|exact Hev2].
           intros e. apply loopEvent_cons.
      * destruct r as [text|reason]; [|exact Hret2].
        destruct Hret2 as (tr0 & m' & Hin & Heq & Hgen).
        exists tr0, m'. split_all; auto.
        -- now right.
        -- now rewrite app_assoc.
Qed.

Lemma loopEvents_no_search ms p maxRetries tr :
  Forall (loopEvent ms p maxRetries) tr -> searchesOf tr = [].
Proof.
  induction 1 as [|e l He _ IH]; [reflexivity|].
  destruct e; simpl in *; [exact IH | exact IH | contradiction].
Qed.

Lemma loopEvents_delays ms p maxRetries tr :
  Forall (loopEvent ms p maxRetries) tr ->
  Forall (fun d => 1000 <= d <= 2000 * (maxRetries - 1)) (delays tr).
Proof.
  induction 1 as [|e l He _ IH]; [constructor|].
  destruct e as [m q|d|k]; simpl in *; try exact IH.
  constructor; [|exact IH].
  destruct He as (c & attempt & Hc & Hlt & ->).
  destruct c; simpl; try congruence; nia.
Qed.

(** X1.  [generateWithRetry], whatever the provider does: it makes at most
    [maxRetries] calls, all to the one model of the route and with the prompt
    it was given, waits at most [maxRetries - 1] times and between 1000 and
    [2000 * (maxRetries - 1)] milliseconds each time, and searches no photo.
    A text it returns is the text the provider gave in answer to the last
    call; what it throws is the exhaustion error. *)
Theorem generateWithRetry_budget w p maxRetries tr :
  exists r tr',
    generateWithRetry w p maxRetries tr = (r, tr ++ tr')
    /\ List.length (llmCalls tr') <= maxRetries
    /\ Forall (fun e => isCall e = true -> e = LlmCall "gemini-2.5-flash" p) tr'
    /\ List.length (delays tr') <= maxRetries - 1
    /\ Forall (fun d => 1000 <= d <= 2000 * (maxRetries - 1)) (delays tr')
    /\ searchesOf tr' = []
    /\ match r with
       | Normal text =>
           exists tr0,
             tr ++ tr' = tr0 ++ [LlmCall "gemini-2.5-flash" p]
             /\ llm w tr0 "gemini-2.5-flash" p = Generated text
       | Throw reason => reason = exhaustedMessage
       end.
Proof.
  unfold generateWithRetry.
  destruct (modelLoop_shape w p maxRetries models tr)
    as (r & tr' & Hrun & Hcalls & Hdel & Hev & Hret).
  exists r, tr'. split; [exact Hrun|].
  change (List.length models) with 1 in *.
  split_all; try reflexivity; try lia.
  - eapply Forall_impl; [|exact Hev].
    intros e He Hcall. destruct e as [m q|d|k]; try discriminate Hcall.
    destruct He as [[<-|[]] ->]. reflexivity.
  - eapply loopEvents_delays; eassumption.
  - eapply loopEvents_no_search; eassumption.
  - destruct r as [text|reason]; [|exact Hret].
    destruct Hret as (tr0 & m & [<-|[]] & Heq & Hgen). eauto.
Qed.

(** ** The photo search *)

(** X2.  [fetchUnsplashImages]: without a key it answers [null] and searches
    nothing.  With a key it searches once for every keyword, in order,
    whatever the outcomes of the searches, and keeps every picture found: a
    search that fails costs the picture of its own keyword only.  It answers
    [null] when nothing was found, and never more entries than keywords. *)
Theorem fetchUnsplashImages_keeps_what_is_found w keywords tr :
  (envIsSet (unsplashKey w) = false ->
   fetchUnsplashImages w keywords tr = (None, tr))
  /\ (envIsSet (unsplashKey w) = true ->
      fetchUnsplashImages w keywords tr
      = (match foundBy w tr keywords with
         | [] => None
         | _ :: _ => Some (foundBy w tr keywords)
         end,
         tr ++ map UnsplashSearch keywords))
  /\ (forall before keyword after,
        keywords = before ++ keyword :: after ->
        (forall u, unsplash w (tr ++ map UnsplashSearch before) keyword
                   <> Found u) ->
        foundBy w tr keywords
        = foundBy w tr before
          ++ foundBy w (tr ++ map UnsplashSearch (before ++ [keyword])) after)
  /\ List.length (foundBy w tr keywords) <= List.length keywords
  /\ Forall (fun entry => source entry = "unsplash") (foundBy w tr keywords).
Proof.
  split_all.
  - intros Hkey. unfold fetchUnsplashImages. now rewrite Hkey.
  - intros Hkey. unfold fetchUnsplashImages. rewrite Hkey. cbn [negb].
    rewrite searchLoop_foundBy. cbn [app].
    now destruct (foundBy w tr keywords).
  - intros before keyword after -> Hfail.
    rewrite foundBy_app. f_equal. cbn [foundBy].
    rewrite map_app, app_assoc. cbn [map].
    destruct (unsplash w (tr ++ map UnsplashSearch before) keyword) eqn:E;
      try reflexivity.
    exfalso. eapply Hfail. reflexivity.
  - apply foundBy_length.
  - apply foundBy_tags.
Qed.

(** ** The answers of the handler *)

Lemma searchesOf_map ks : searchesOf (map UnsplashSearch ks) = ks.
Proof. induction ks as [|k r IH]; [reflexivity|]. simpl. now rewrite IH. Qed.

Lemma llmCalls_map_search ks : llmCalls (map UnsplashSearch ks) = [].
Proof. induction ks as [|k r IH]; [reflexivity | exact IH]. Qed.

Lemma delays_map_search ks : delays (map UnsplashSearch ks) = [].
Proof. induction ks as [|k r IH]; [reflexivity | exact IH]. Qed.

(** The trace of the image-sourcing step: the searches for the first three
    keywords when a key is set, nothing otherwise. *)
Lemma generateImageSuggestions_trace w prompt ct text tr :
  exists ks,
    snd (generateImageSuggestions w prompt ct text tr)
    = tr ++ map UnsplashSearch ks
    /\ List.length ks <= 3
    /\ (envIsSet (unsplashKey w) = false -> ks = [])
    /\ match extractKeywordsSimple prompt ct with
       | Normal keywords =>
           envIsSet (unsplashKey w) = true -> ks = firstn 3 keywords
       | Throw _ => ks = []
       end.
Proof.
  pose proof (generateImageSuggestions_spec w prompt ct text tr) as H.
  destruct prompt as [|p|t rd].
  - exists []. rewrite H. simpl. rewrite app_nil_r. split_all; auto.
  - destruct H as (keywords & found & Hk & _ & _ & _ & Hrun).
    rewrite Hrun, Hk. cbn [snd].
    destruct (envIsSet (unsplashKey w)).
    + exists (firstn 3 keywords). split_all; auto.
      * apply firstn_le_length.
      * discriminate.
    + exists []. split_all; auto. discriminate.
  - exists []. rewrite H. simpl. rewrite app_nil_r. split_all; auto.
Qed.

(** The three kinds of answer and the trace that goes with each. *)
Lemma router_post_shape w req :
  match fst (router_post w req) with
  | Bad400 message =>
      message = "Prompt is required"
      /\ truthy (prompt req) = false
      /\ snd (router_post w req) = []
  | Err500 message =>
      message = quotaAnswer
      /\ truthy (prompt req) = true
      /\ exists tr',
           snd (router_post w req) = tr'
           /\ generateWithRetry w (enhancedPrompt req) 2 []
              = (Throw exhaustedMessage, tr')
  | Ok200 text wc pf imgs tys =>
      truthy (prompt req) = true
      /\ exists tr0 ks,
           snd (router_post w req)
           = tr0 ++ [LlmCall "gemini-2.5-flash" (enhancedPrompt req)]
                 ++ map UnsplashSearch ks
           /\ generateWithRetry w (enhancedPrompt req) 2 []
              = (Normal text,
                 tr0 ++ [LlmCall "gemini-2.5-flash" (enhancedPrompt req)])
           /\ llm w tr0 "gemini-2.5-flash" (enhancedPrompt req) = Generated text
           /\ List.length ks <= 3
           /\ (envIsSet (unsplashKey w) = false -> ks = [])
           /\ match extractKeywordsSimple (prompt req) (contentType req) with
              | Normal keywords =>
                  envIsSet (unsplashKey w) = true -> ks = firstn 3 keywords
              | Throw _ => ks = []
              end
  end.
Proof.
  unfold router_post.
  destruct (truthy (prompt req)) eqn:Ht; cbn [negb]; [|simpl; auto].
  destruct (modelLoop_shape w (enhancedPrompt req) 2 models [])
    as (r & tr' & Hrun & _ & _ & _ & Hret).
  unfold generateWithRetry. rewrite Hrun. cbn [app] in *.
  destruct r as [text|reason].
  - destruct Hret as (tr0 & m & [<-|[]] & Heq & Hgen). subst tr'.
    destruct (generateImageSuggestions_trace w (prompt req) (contentType req)
                text (tr0 ++ [LlmCall "gemini-2.5-flash" (enhancedPrompt req)]))
      as (ks & Htr & Hlen & Hkey & Hks).
    destruct (generateImageSuggestions w (prompt req) (contentType req) text
                (tr0 ++ [LlmCall "gemini-2.5-flash" (enhancedPrompt req)]))
      as [rimg tr2].
    cbn [fst snd] in *. subst tr2.
    split; [reflexivity|]. exists tr0, ks.
    rewrite <- app_assoc. split_all; auto.
  - subst reason. cbn [fst snd]. split_all; auto.
    exists tr'. auto.
Qed.

(** X3.  For a request whose fields are strings or absent, so that no
    conversion of a field to a string can throw before the provider is
    called, every 500 answer of the handler carries one and the same message,
    with the quota hint, whatever errors the provider gave; it follows one or
    two generation calls that all failed together with the loop, and no photo
    search.  (A field whose conversion throws is outside the values of
    [jsval]; the handler answers it with the message of that error.) *)
Theorem server_error_always_blames_quota w req message tr :
  textFields req = true ->
  router_post w req = (Err500 message, tr) ->
  message = "Failed to generate content. Free tier quota exceeded. Please upgrade your plan at https://ai.google.dev/"
  /\ generateWithRetry w (enhancedPrompt req) 2 [] = (Throw exhaustedMessage, tr)
  /\ 1 <= List.length (llmCalls tr) <= 2
  /\ searchesOf tr = [].
Proof.
  intros _ H. pose proof (router_post_shape w req) as Hs.
  rewrite H in Hs. cbn [fst snd] in Hs.
  destruct Hs as (-> & Ht & tr' & <- & Hrun).
  split; [reflexivity|]. split; [exact Hrun|].
  destruct (modelLoop_shape w (enhancedPrompt req) 2 models [])
    as (r & tr2 & Hrun2 & Hcalls & _ & Hev & _).
  unfold generateWithRetry in Hrun. rewrite Hrun in Hrun2.
  cbn [app] in Hrun2. injection Hrun2 as <- <-.
  destruct (present_prompt_reaches_provider w req Ht) as [rest Hfirst].
  rewrite H in Hfirst. cbn [snd] in Hfirst.
  split; [|eapply loopEvents_no_search; eassumption].
  split; [subst tr; simpl; lia | exact Hcalls].
Qed.

(** X4.  In a 200 answer the content is the text the provider gave in answer
    to the last generation call, unchanged; the photo searches, at most
    three, all come after that call, and there is none without a key. *)
Theorem ok_answer_carries_provider_text w req text wc pf imgs tys tr :
  router_post w req = (Ok200 text wc pf imgs tys, tr) ->
  exists tr0 ks,
    tr = tr0 ++ [LlmCall "gemini-2.5-flash" (enhancedPrompt req)]
             ++ map UnsplashSearch ks
    /\ llm w tr0 "gemini-2.5-flash" (enhancedPrompt req) = Generated text
    /\ searchesOf tr0 = []
    /\ List.length ks <= 3
    /\ (envIsSet (unsplashKey w) = false -> ks = [])
    /\ pf = orElse (platform req) (JStr "standard").
Proof.
  intros H. pose proof (router_post_shape w req) as Hs.
  rewrite H in Hs. cbn [fst snd] in Hs.
  destruct Hs as (Ht & tr0 & ks & Htr & Hrun & Hgen & Hlen & Hkey & _).
  exists tr0, ks. split_all; auto.
  - destruct (modelLoop_shape w (enhancedPrompt req) 2 models [])
      as (r & tr2 & Hrun2 & _ & _ & Hev & _).
    unfold generateWithRetry in Hrun. rewrite Hrun in Hrun2.
    cbn [app] in Hrun2. injection Hrun2 as _ <-.
    pose proof (loopEvents_no_search _ _ _ _ Hev) as Hno.
    rewrite searchesOf_app in Hno. now apply app_eq_nil in Hno.
  - now apply router_post_ok in H as (_ & _ & _ & _ & _ & _ & -> & _).
Qed.

(** X5.  The external work of one request is bounded: at most two
    generation calls, at most one wait, of 1000 or 2000 milliseconds, and at
    most three photo searches, whatever the request and the providers. *)
Theorem request_budget w req :
  List.length (llmCalls (snd (router_post w req))) <= 2
  /\ List.length (delays (snd (router_post w req))) <= 1
  /\ Forall (fun d => d = 1000 \/ d = 2000) (delays (snd (router_post w req)))
  /\ List.length (searchesOf (snd (router_post w req))) <= 3.
Proof.
  pose proof (router_post_shape w req) as Hs.
  destruct (modelLoop_shape w (enhancedPrompt req) 2 models [])
    as (r & tr2 & Hrun2 & Hcalls & Hdel & Hev & _).
  cbn [app] in Hrun2. change (List.length models) with 1 in *.
  assert (Hd : Forall (fun d => d = 1000 \/ d = 2000) (delays tr2)).
  { clear - Hev. induction Hev as [|e l He _ IH]; [constructor|].
    destruct e as [m q|d|k]; simpl in *; try exact IH.
    constructor; [|exact IH].
    destruct He as (c & attempt & Hc & Hlt & ->).
    assert (attempt = 0) by lia. subst attempt.
    destruct c; simpl; try congruence; auto. }
  destruct (fst (router_post w req)) as [text wc pf imgs tys|message|message].
  - destruct Hs as (_ & tr0 & ks & -> & Hrun & _ & Hlen & _).
    unfold generateWithRetry in Hrun. rewrite Hrun in Hrun2.
    injection Hrun2 as <- <-.
    pose proof (loopEvents_no_search _ _ _ _ Hev) as Hno.
    rewrite app_assoc.
    rewrite llmCalls_app, delays_app, searchesOf_app, Hno,
      llmCalls_map_search, delays_map_search, searchesOf_map, !app_nil_r.
    cbn [app]. split_all; auto; lia.
  - destruct Hs as (_ & _ & ->). simpl. split_all; auto; lia.
  - destruct Hs as (_ & _ & tr' & -> & Hrun).
    unfold generateWithRetry in Hrun. rewrite Hrun in Hrun2.
    injection Hrun2 as <- <-.
    rewrite (loopEvents_no_search _ _ _ _ Hev). simpl.
    split_all; auto; lia.
Qed.

(** X6.  The word count of a 200 answer against the number of white-space
    separated tokens of its content: it is the number of tokens, plus one if
    the content is empty or starts with white space, plus one if it ends with
    white space; so it is never 0 and exceeds the number of tokens by at most
    two. *)
Theorem wordCount_of_answer w req text wc pf imgs tys tr :
  router_post w req = (Ok200 text wc pf imgs tys, tr) ->
  wc = countTokens text
       + (if String.eqb text EmptyString || startsWithSpace text then 1 else 0)
       + (if endsWithSpace text then 1 else 0)
  /\ 1 <= wc <= countTokens text + 2
  /\ (wc = countTokens text <->
      text <> EmptyString
      /\ startsWithSpace text = false /\ endsWithSpace text = false).
Proof.
  intros H. apply router_post_ok in H as (_ & _ & _ & _ & _ & -> & _).
  pose proof (wordCount_against_tokens text) as Hw.
  split; [exact Hw|]. split.
  - rewrite Hw.
    destruct (String.eqb text EmptyString || startsWithSpace text) eqn:E,
      (endsWithSpace text) eqn:E2; try lia.
    apply orb_false_iff in E as [E1 E3].
    destruct text as [|c r]; [discriminate E1|].
    unfold countTokens. cbn [tokenRuns]. cbn [startsWithSpace] in E3.
    rewrite E3. lia.
  - rewrite wordCount_exact_iff. split.
    + intros (H1 & H2 & H3). split_all; auto.
      intros ->. discriminate H1.
    + intros (H1 & H2 & H3). split_all; auto.
      now apply String.eqb_neq.
Qed.

(** ** The earlier variant: the cooldown of AI image generation *)

Section LegacyImages.
Import LegacyRoute.

Lemma generateImageWith_skips m ip env st tr :
  isRateLimited st = true ->
  (clock env (clockReads st) < rateLimitResetTime st)%N ->
  generateImageWith m ip env st tr
  = (None, mkProcess true (rateLimitResetTime st) (S (clockReads st)), tr).
Proof.
  intros Hflag Hlt. unfold generateImageWith, shouldSkipAIImageGeneration, dateNow.
  rewrite Hflag. cbn [rateLimitResetTime clockReads isRateLimited].
  apply N.ltb_lt in Hlt. now rewrite Hlt.
Qed.

Lemma prefix_append_same (a b c : string) :
  String.prefix (a ++ b) (a ++ c) = String.prefix b c.
Proof.
  induction a as [|x r IH]; [reflexivity|].
  cbn [append String.prefix].
  destruct (ascii_dec x x) as [_|Hne]; [exact IH | congruence].
Qed.

Lemma prefix_extend (a m r : string) :
  String.prefix a m = true -> String.prefix a (m ++ r) = true.
Proof.
  revert m. induction a as [|x a' IH]; intros m H;
    [now destruct (m ++ r)%string|].
  destruct m as [|y m']; [discriminate H|].
  cbn [append String.prefix] in *.
  destruct (ascii_dec x y); [auto | discriminate H].
Qed.

Lemma firstImage_data_url parts u :
  firstImage parts = Some u -> String.prefix "data:image/" u = true.
Proof.
  induction parts as [|part rest IH]; [discriminate|].
  cbn [firstImage]. destruct part as [inline|]; [|exact IH].
  destruct (mimeType inline) as [m|]; [|exact IH].
  destruct (String.prefix "image/" m) eqn:E; [|exact IH].
  intros H. injection H as <-.
  change (String.prefix ("data:" ++ "image/")
            ("data:" ++ (m ++ (";base64," ++ data inline))) = true)%string.
  rewrite prefix_append_same. now apply prefix_extend.
Qed.

Lemma generateImageWith_result m ip env st tr u :
  fst (fst (generateImageWith m ip env st tr)) = Some u ->
  String.prefix "data:image/" u = true.
Proof.
  unfold generateImageWith.
  destruct (shouldSkipAIImageGeneration env st) as [[|] st1];
    [discriminate|].
  destruct (imageModel env tr m ip) as [[parts|]|e]; cbn [fst].
  - apply firstImage_data_url.
  - discriminate.
  - destruct (isRateLimitError e); [|discriminate].
    destruct (dateNow env st1). discriminate.
Qed.


(** X8.  During the cooldown (the flag is set and the two clock readings of
    the skip tests are below the reset time) a whole image-sourcing step of
    the earlier route calls no model, for images or otherwise, and leaves the
    flag and the reset time as they are. *)
Theorem generateImageSuggestions_in_cooldown env st prompt ct text tr :
  isRateLimited st = true ->
  (clock env (clockReads st) < rateLimitResetTime st)%N ->
  (clock env (S (clockReads st)) < rateLimitResetTime st)%N ->
  llmCalls (snd (generateImageSuggestions env st prompt ct text tr))
  = llmCalls tr
  /\ isRateLimited (snd (fst (generateImageSuggestions env st prompt ct text tr)))
     = true
  /\ rateLimitResetTime
       (snd (fst (generateImageSuggestions env st prompt ct text tr)))
     = rateLimitResetTime st.
Proof.
  intros Hflag H1 H2.
  unfold generateImageSuggestions, generateImageWithImagen,
    generateImageWithGemini2Flash.
  rewrite (generateImageWith_skips _ _ env st tr Hflag H1).
  rewrite generateImageWith_skips; [|reflexivity|exact H2].
  destruct (extractImageKeywords prompt ct text) as [keywords|reason];
    [|split_all; reflexivity].
  assert (Hsearch : forall ks imgs tr0,
             llmCalls (snd (searchLoop env ks imgs tr0)) = llmCalls tr0).
  { induction ks as [|k rest IH]; intros imgs tr0; [reflexivity|].
    cbn [searchLoop].
    destruct (unsplash (world env) tr0 (render k)); try rewrite IH;
      cbn [snd]; rewrite llmCalls_app; simpl; apply app_nil_r. }
  assert (Hfetch : llmCalls (snd (fetchUnsplashImages env (firstn 2 keywords) tr))
                   = llmCalls tr).
  { unfold fetchUnsplashImages.
    destruct (envIsSet (unsplashKey (world env))); [|reflexivity].
    cbn [negb]. specialize (Hsearch (firstn 2 keywords) [] tr).
    destruct (searchLoop env (firstn 2 keywords) [] tr) as [[imgs|] tr'];
      exact Hsearch. }
  destruct (fetchUnsplashImages env (firstn 2 keywords) tr) as [found tr3].
  cbn [snd] in Hfetch. unfold dateNow. cbn [fst snd].
  split_all; auto.
Qed.

(** ** The earlier variant: images and tags of an answer *)

Lemma prefix_shorter (a b u : string) :
  String.prefix (a ++ b) u = true -> String.prefix a u = true.
Proof.
  revert u. induction a as [|x a' IH]; intros u H; [now destruct u|].
  destruct u as [|y u']; [discriminate H|].
  cbn [append String.prefix] in *.
  destruct (ascii_dec x y); [eauto | discriminate H].
Qed.

Lemma legacy_padLoop_spec baseTime :
  forall fuel l,
    3 - List.length l <= fuel ->
    padLoop fuel baseTime l
    = l ++ map (placeholderUrl baseTime)
               (seq (List.length l) (3 - List.length l)).
Proof.
  induction fuel as [|k IH]; intros l Hfuel.
  - cbn [padLoop]. replace (3 - List.length l) with 0 by lia.
    cbn [seq map]. now rewrite app_nil_r.
  - cbn [padLoop]. destruct (List.length l <? 3) eqn:E.
    + apply Nat.ltb_lt in E.
      rewrite IH by (rewrite length_app; cbn [List.length]; lia).
      rewrite length_app. cbn [List.length].
      replace (3 - List.length l) with (S (3 - (List.length l + 1))) by lia.
      cbn [seq map]. rewrite <- app_assoc. cbn [app].
      rewrite placeholder_url.
      now replace (List.length l + 1) with (S (List.length l)) by lia.
    + apply Nat.ltb_ge in E.
      replace (3 - List.length l) with 0 by lia.
      cbn [seq map]. now rewrite app_nil_r.
Qed.

Lemma legacy_searchLoop_found env keywords :
  forall images tr result,
    fst (searchLoop env keywords images tr) = Some result ->
    exists found,
      result = images ++ found /\ List.length found <= List.length keywords.
Proof.
  induction keywords as [|k rest IH]; intros images tr result.
  - simpl. intros H. injection H as <-. exists []. now rewrite app_nil_r.
  - cbn [searchLoop].
    destruct (unsplash (world env) tr (render k)) as [| | | |u];
      try discriminate; intros H;
      destruct (IH _ _ _ H) as [found [-> Hlen]].
    + exists found. cbn [List.length]. auto.
    + exists found. cbn [List.length]. auto.
    + exists (u :: found). rewrite <- app_assoc. cbn [List.length app].
      split; [reflexivity | lia].
Qed.

Lemma legacy_fetch_found env keywords tr :
  match fst (fetchUnsplashImages env keywords tr) with
  | Some found =>
      envIsSet (unsplashKey (world env)) = true
      /\ 1 <= List.length found <= List.length keywords
  | None => True
  end.
Proof.
  unfold fetchUnsplashImages.
  destruct (envIsSet (unsplashKey (world env))); cbn [negb]; [|exact I].
  destruct (searchLoop env keywords [] tr) as [[images|] tr'] eqn:E;
    [|exact I].
  destruct (legacy_searchLoop_found env keywords [] tr images) as [found [-> Hlen]];
    [now rewrite E|].
  cbn [app]. destruct (0 <? List.length found) eqn:E0; cbn [fst]; [|exact I].
  apply Nat.ltb_lt in E0. auto.
Qed.

Lemma placeholderUrl_picsum baseTime index :
  String.prefix "https://picsum.photos/800/600?random="
                (placeholderUrl baseTime index) = true.
Proof.
  unfold placeholderUrl. apply prefix_extend. reflexivity.
Qed.

(** The three URLs of the image-sourcing step of the earlier route: the AI
    picture if one was drawn, then what the photo search found for the first
    two keywords, then placeholders. *)
Lemma legacy_images_shape env st prompt ct text tr :
  exists ai found fill,
    fst (fst (generateImageSuggestions env st prompt ct text tr))
    = ai ++ found ++ fill
    /\ List.length (ai ++ found ++ fill) = 3
    /\ (ai = []
        \/ exists u, ai = [u] /\ String.prefix "data:image/" u = true)
    /\ List.length found <= 2
    /\ (envIsSet (unsplashKey (world env)) = false -> found = [])
    /\ Forall (fun u => String.prefix "https://picsum.photos/800/600?random=" u
                        = true) fill.
Proof.
  unfold generateImageSuggestions.
  destruct (generateImageWithImagen env st tr prompt ct)
    as [[first st1] tr1] eqn:E1.
  assert (Hai : exists ai st2 tr2,
             match first with
             | Some _ => (first, st1, tr1)
             | None => generateImageWithGemini2Flash env st1 tr1 prompt ct
             end = (ai, st2, tr2)
             /\ forall u, ai = Some u -> String.prefix "data:image/" u = true).
  { destruct first as [u|].
    - exists (Some u), st1, tr1. split; [reflexivity|].
      intros u' H. injection H as <-.
      apply (generateImageWith_result "imagen-3.0-generate-002"
               (imagenPrompt prompt ct) env st tr).
      unfold generateImageWithImagen in E1. now rewrite E1.
    - destruct (generateImageWithGemini2Flash env st1 tr1 prompt ct)
        as [[ai st2] tr2] eqn:E2.
      exists ai, st2, tr2. split; [reflexivity|].
      intros u ->.
      apply (generateImageWith_result "gemini-2.0-flash-exp"
               (flashPrompt prompt ct) env st1 tr1).
      unfold generateImageWithGemini2Flash in E2. now rewrite E2. }
  destruct Hai as (ai & st2 & tr2 & -> & Hdata).
  destruct (extractImageKeywords prompt ct text) as [keywords|reason].
  - pose proof (legacy_fetch_found env (firstn 2 keywords) tr2) as Hf.
    destruct (fetchUnsplashImages env (firstn 2 keywords) tr2)
      as [unsplashImages tr3].
    cbn [fst] in Hf. unfold dateNow. cbn [fst].
    set (aiList := match ai with Some image => [image] | None => [] end).
    set (found := match unsplashImages with Some l => l | None => [] end).
    assert (Himages : match unsplashImages with
                      | Some l => if 0 <? List.length l then aiList ++ l else aiList
                      | None => aiList
                      end = aiList ++ found).
    { subst found. destruct unsplashImages as [l|]; [|now rewrite app_nil_r].
      destruct l; [now rewrite app_nil_r | reflexivity]. }
    rewrite Himages.
    assert (Hfound : List.length found <= 2
                     /\ (envIsSet (unsplashKey (world env)) = false -> found = [])).
    { subst found. destruct unsplashImages as [l|].
      - destruct Hf as [Hkey Hlen].
        pose proof (firstn_le_length 2 keywords).
        split; [lia|]. intros Hno. congruence.
      - split; [simpl; lia | reflexivity]. }
    destruct Hfound as [Hlen Hkey].
    assert (Hai_len : List.length aiList <= 1)
      by (subst aiList; destruct ai; simpl; lia).
    rewrite legacy_padLoop_spec by lia.
    rewrite firstn_all2
      by (rewrite !length_app, length_map, length_seq in *; lia).
    exists aiList, found,
      (map (placeholderUrl (clock env (clockReads st2)))
           (seq (List.length (aiList ++ found))
                (3 - List.length (aiList ++ found)))).
    rewrite <- app_assoc. split_all; auto.
    + rewrite app_assoc, length_app, length_map, length_seq.
      rewrite length_app in *. lia.
    + subst aiList. destruct ai as [u|]; [right | now left].
      exists u. split; [reflexivity | now apply Hdata].
    + apply Forall_forall. intros u Hu.
      apply in_map_iff in Hu as [i [<- _]]. apply placeholderUrl_picsum.
  - exists [], [], finalFallback. cbn [fst app].
    split_all; auto; try (simpl; lia).
    repeat constructor.
Qed.

(** X9.  A 200 answer of the earlier route always holds three images and
    three tags.  The AI picture, when one was drawn, comes first, is a data
    URL and is tagged [ai-generated]; the second and third tags are [stock],
    and without an AI picture and without a found photo all three are: the
    pictures found by the photo search, at most two, are tagged [stock] like
    the placeholders. *)
Theorem legacy_answer_images_and_tags env st req text wc pf imgs tys st' tr :
  router_post env st req = (Ok200 text wc pf imgs tys, st', tr) ->
  exists ai found fill,
    imgs = ai ++ found ++ fill
    /\ List.length imgs = 3
    /\ (ai = [] \/ exists u, ai = [u] /\ String.prefix "data:image/" u = true)
    /\ List.length found <= 2
    /\ (envIsSet (unsplashKey (world env)) = false -> found = [])
    /\ Forall (fun u => String.prefix "https://picsum.photos/800/600?random=" u
                        = true) fill
    /\ tys = [firstImageType imgs; "stock"; "stock"]
    /\ (ai <> [] -> tys = ["ai-generated"; "stock"; "stock"])
    /\ (ai = [] -> found = [] -> tys = ["stock"; "stock"; "stock"]).
Proof.
  unfold router_post.
  destruct (truthy (prompt req)); cbn [negb]; [|discriminate].
  destruct (Legacy.generateWithRetry (world env) (enhancedPrompt req) 2 [])
    as [[text'|reason] tr1]; [|discriminate].
  pose proof (legacy_images_shape env st (prompt req) (contentType req)
                text' tr1) as Hshape.
  destruct (generateImageSuggestions env st (prompt req) (contentType req)
              text' tr1) as [[imageUrls st2] tr2].
  cbn [fst] in Hshape.
  intros H. injection H as <- <- <- <- <- <- <-.
  destruct Hshape as (ai & found & fill & -> & Hlen & Hai & Hfound & Hkey & Hfill).
  exists ai, found, fill. split_all; auto.
  - intros Hne. destruct Hai as [->|(u & -> & Hdata)]; [congruence|].
    cbn [app firstImageType].
    now rewrite (prefix_shorter "data:" "image/" u Hdata).
  - intros -> ->. cbn [app] in *.
    destruct fill as [|u rest]; [discriminate Hlen|].
    inversion Hfill as [|? ? Hu _]; subst.
    cbn [firstImageType].
    destruct (String.prefix "data:" u) eqn:E; [|reflexivity].
    exfalso. destruct u as [|c u']; [discriminate Hu|].
    cbn [String.prefix] in *.
    destruct (ascii_dec "h" c) as [<-|]; [|discriminate Hu].
    destruct (ascii_dec "d" "h"); discriminate.
Qed.

End LegacyImages.

(** ** The earlier variant: the photo search and the retry loop *)

Section LegacySearch.
Import LegacyRoute.

Lemma legacy_searchLoop_app env ks1 :
  forall ks2 images tr,
    searchLoop env (ks1 ++ ks2) images tr
    = match searchLoop env ks1 images tr with
      | (Some images1, tr1) => searchLoop env ks2 images1 tr1
      | (None, tr1) => (None, tr1)
      end.
Proof.
  induction ks1 as [|k rest IH]; intros ks2 images tr; [reflexivity|].
  cbn [app searchLoop].
  destruct (unsplash (world env) tr (render k)); try apply IH; reflexivity.
Qed.

(** X10.  The photo search of the earlier route is all or nothing: when the
    search for one keyword is rejected (or its body cannot be read) the
    function answers [null], the pictures already found for the keywords
    before are dropped, and the keywords after it are not searched. *)
Theorem legacy_search_is_all_or_nothing env before keyword after tr images tr1 :
  envIsSet (unsplashKey (world env)) = true ->
  searchLoop env before [] tr = (Some images, tr1) ->
  rejects (unsplash (world env) tr1 (render keyword)) = true ->
  fetchUnsplashImages env (before ++ keyword :: after) tr
  = (None, tr1 ++ [UnsplashSearch (render keyword)])
  /\ tr1 = tr ++ map (fun k => UnsplashSearch (render k)) before.
Proof.
  intros Hkey Hbefore Hrej. split.
  - unfold fetchUnsplashImages. rewrite Hkey. cbn [negb].
    rewrite legacy_searchLoop_app, Hbefore. cbn [searchLoop].
    destruct (unsplash (world env) tr1 (render keyword));
      try discriminate Hrej; reflexivity.
  - clear - Hbefore. revert tr images tr1 Hbefore.
    generalize (@nil string) as acc.
    induction before as [|k rest IH]; intros acc tr images tr1 H.
    + simpl in H. injection H as _ <-. simpl. now rewrite app_nil_r.
    + cbn [searchLoop] in H. cbn [map].
      destruct (unsplash (world env) tr (render k)); try discriminate H;
        apply IH in H; rewrite H, <- app_assoc; reflexivity.
Qed.

End LegacySearch.

Lemma linearSchedule_calls p maxRetries baseDelay m :
  List.length (llmCalls (linearSchedule p maxRetries baseDelay m)) = maxRetries.
Proof.
  unfold linearSchedule.
  assert (H : forall k a,
    List.length (llmCalls (flat_map (fun attempt =>
                        LlmCall m p
                        :: (if S attempt <? maxRetries
                            then [Sleep (baseDelay * (attempt + 1))] else []))
                     (seq a k))) = k).
  { induction k as [|k IH]; intros a; [reflexivity|].
    cbn [seq flat_map]. rewrite llmCalls_app, length_app, IH.
    destruct (S a <? maxRetries); reflexivity. }
  apply H.
Qed.

(** X11.  The retry loop of the earlier route retries every error, a 404
    included: when every call fails it calls each of its three models
    [maxRetries] times, [3 * maxRetries] calls in all, waits
    [1000 * (attempt + 1)] milliseconds before each retry of a model, and
    throws.  The handler then answers 500 with a fixed message, after six
    calls and three waits of a second, and the state of the rate limit is as
    before. *)
Theorem legacy_loop_retries_every_error :
  (forall w p maxRetries tr,
      (forall tr0 m, exists e, llm w tr0 m p = Failed e) ->
      exists tr',
        Legacy.generateWithRetry w p maxRetries tr
        = (Throw "All models failed after retries", tr ++ tr')
        /\ tr' = flat_map (linearSchedule p maxRetries 1000) Legacy.models
        /\ List.length (llmCalls tr') = 3 * maxRetries
        /\ delays tr'
           = flat_map (fun _ => map (fun attempt => 1000 * (attempt + 1))
                                    (seq 0 (maxRetries - 1))) Legacy.models)
  /\ (forall env st req,
        truthy (prompt req) = true ->
        (forall tr0 m, exists e,
            llm (LegacyRoute.world env) tr0 m (enhancedPrompt req) = Failed e) ->
        exists tr,
          LegacyRoute.router_post env st req
          = (Err500 "Failed to generate content", st, tr)
          /\ List.length (llmCalls tr) = 6
          /\ delays tr = [1000; 1000; 1000]
          /\ searchesOf tr = []).
Proof.
  assert (Hloop : forall w p maxRetries tr,
      (forall tr0 m, exists e, llm w tr0 m p = Failed e) ->
      Legacy.generateWithRetry w p maxRetries tr
      = (Throw "All models failed after retries",
         tr ++ flat_map (linearSchedule p maxRetries 1000) Legacy.models)).
  { intros w p maxRetries tr Hfail.
    apply (legacy_all_failures_exhaust_models w p maxRetries Legacy.models
             tr Hfail). }
  split.
  - intros w p maxRetries tr Hfail.
    eexists. split; [exact (Hloop w p maxRetries tr Hfail)|].
    split; [reflexivity|]. split.
    + unfold Legacy.models. cbn [flat_map].
      rewrite !llmCalls_app, !length_app, !linearSchedule_calls. simpl. lia.
    + unfold Legacy.models. cbn [flat_map].
      rewrite !delays_app, !linearSchedule_delays. reflexivity.
  - intros env st req Ht Hfail.
    eexists. split.
    + unfold LegacyRoute.router_post. rewrite Ht. cbn [negb].
      rewrite (Hloop _ _ 2 [] Hfail). cbn [app]. reflexivity.
    + split_all; reflexivity.
Qed.

(** ** The client: versions and draft *)

Section ClientVersions.
Import Client.

(** X12.  Loading a version is the inverse of adding one: after a run from an
    empty history, without reject, that added N versions, loading index
    [N - 1 - k] puts the content of the k-th version added on display, with its
    word count recomputed, and leaves the history as it is.  Loading an index
    the history does not hold changes the index alone. *)
Theorem loadVersion_restores_version s acts :
  contentHistory s = [] ->
  forallb isWriting acts = true ->
  (forall k v,
      nth_error (chronicle s acts) k = Some v ->
      let s' := loadVersion (run s acts)
                            (List.length (chronicle s acts) - 1 - k) in
      generatedContent s' = content v
      /\ actualWordCount s' = List.length (splitWhitespace (content v))
      /\ currentVersion s' = List.length (chronicle s acts) - 1 - k
      /\ contentHistory s' = contentHistory (run s acts)
      /\ contentStatus s' = contentStatus (run s acts))
  /\ (forall i,
        List.length (chronicle s acts) <= i ->
        generatedContent (loadVersion (run s acts) i)
        = generatedContent (run s acts)
        /\ currentVersion (loadVersion (run s acts) i) = i
        /\ contentHistory (loadVersion (run s acts) i)
           = contentHistory (run s acts)).
Proof.
  intros Hempty Hw.
  pose proof (run_history acts s (writing_not_reject acts Hw)) as Hh.
  rewrite Hempty, app_nil_r in Hh.
  split.
  - intros k v Hk. cbn zeta.
    assert (Hlt : k < List.length (chronicle s acts))
      by (apply nth_error_Some; congruence).
    assert (Hnth : nth_error (contentHistory (run s acts))
                     (List.length (chronicle s acts) - 1 - k) = Some v).
    { rewrite Hh, nth_error_rev.
      assert (E : (List.length (chronicle s acts) - 1 - k
                   <? List.length (chronicle s acts)) = true)
        by (apply Nat.ltb_lt; lia).
      rewrite E.
      replace (List.length (chronicle s acts)
               - S (List.length (chronicle s acts) - 1 - k)) with k by lia.
      exact Hk. }
    unfold loadVersion. rewrite Hnth. split_all; reflexivity.
  - intros i Hi. unfold loadVersion.
    assert (Hnone : nth_error (contentHistory (run s acts)) i = None).
    { apply nth_error_None. now rewrite Hh, length_rev. }
    rewrite Hnone. split_all; reflexivity.
Qed.

Lemma draftIsCurrent_step s a :
  draftIsCurrent s ->
  match a with
  | LoadVersion i => i < List.length (contentHistory s)
  | _ => True
  end ->
  draftIsCurrent (step s a).
Proof.
  intros [Hdraft Hidx] Hrange. unfold draftIsCurrent.
  destruct a; cbn [step];
    try (split; [exact Hdraft | exact Hidx]).
  - (* Generate *)
    unfold generate. destruct (isBlank (prompt s));
      cbn [generatedContent contentHistory currentVersion]; auto.
  - (* GenerateNext *)
    cbn. split; [right; eexists; split; reflexivity | intros _; lia].
  - (* LoadVersion *)
    unfold loadVersion.
    destruct (nth_error (contentHistory s) index) as [v|] eqn:E.
    + cbn [generatedContent contentHistory currentVersion].
      split; [right; exists v; auto | auto].
    + apply nth_error_None in E. lia.
  - (* Reject *)
    cbn. split; [now left | congruence].
  - (* SaveEdit *)
    cbn. split; [right; eexists; split; reflexivity | intros _; lia].
  - (* Refine *)
    unfold refineContent.
    destruct (isBlank (refinePrompt s) || String.eqb (generatedContent s) "");
      cbn [generatedContent contentHistory currentVersion]; auto.
  - (* RefineNext *)
    cbn. split; [right; eexists; split; reflexivity | intros _; lia].
Qed.

(** X13.  Along every run that loads only versions the history holds, the
    draft on display is empty or is the content of the current version, and
    the index of the current version lies within the history whenever the
    history is not empty. *)
Theorem draft_is_the_current_version s acts :
  draftIsCurrent s ->
  loadsInRange s acts = true ->
  draftIsCurrent (run s acts).
Proof.
  revert s. induction acts as [|a rest IH]; intros s Hinv Hrange; [exact Hinv|].
  cbn [loadsInRange] in Hrange. apply andb_true_iff in Hrange as [Ha Hrest].
  cbn [run fold_left]. apply IH; [|exact Hrest].
  apply draftIsCurrent_step; [exact Hinv|].
  destruct a; try exact I. now apply Nat.ltb_lt.
Qed.

End ClientVersions.

(** ** The client and the handler together *)

Lemma isBlank_false_nonempty p :
  Client.isBlank p = false -> String.eqb p EmptyString = false.
Proof. destruct p; [discriminate | reflexivity]. Qed.

(** X14.  The client never draws the 400 answer: a request that
    [generate()] or [refineContent()] sends carries a prompt that is a string
    and not blank, so the handler goes on to the text-generation provider with
    the prompt composed from it. *)
Theorem client_requests_pass_the_guard s f req w :
  ClientRequests.generateRequest s f = Some req
  \/ ClientRequests.refineRequest s f = Some req ->
  (exists p, prompt req = JStr p /\ Client.isBlank p = false)
  /\ fst (router_post w req) <> Bad400 "Prompt is required"
  /\ exists rest,
       snd (router_post w req)
       = LlmCall "gemini-2.5-flash" (enhancedPrompt req) :: rest.
Proof.
  intros H.
  assert (Hp : exists p, prompt req = JStr p /\ Client.isBlank p = false).
  { destruct H as [H|H].
    - unfold ClientRequests.generateRequest in H.
      destruct (Client.isBlank (Client.prompt s)) eqn:E; [discriminate|].
      injection H as <-. eexists. split; [reflexivity | exact E].
    - unfold ClientRequests.refineRequest in H.
      destruct (Client.isBlank (Client.refinePrompt s)
                || String.eqb (Client.generatedContent s) EmptyString);
        [discriminate|].
      injection H as <-. eexists. split; reflexivity. }
  split; [exact Hp|].
  destruct Hp as (p & Hp & Hblank).
  assert (Ht : truthy (prompt req) = true).
  { rewrite Hp. cbn [truthy]. now rewrite (isBlank_false_nonempty p Hblank). }
  split.
  - intros Hbad. apply rejected_iff_falsy in Hbad. congruence.
  - now apply present_prompt_reaches_provider.
Qed.

(** ** The formatted view of the draft *)

Section FormattedView.
Import Markdown.

Lemma string_app_length (a b : string) :
  String.length (a ++ b) = String.length a + String.length b.
Proof. induction a as [|x r IH]; [reflexivity|]. cbn [append String.length]. now rewrite IH. Qed.

Lemma dropChars_app (a b : string) : dropChars (String.length a) (a ++ b) = b.
Proof. induction a as [|x r IH]; [now destruct b | exact IH]. Qed.

Lemma prefix_refl_app (a b : string) : String.prefix a (a ++ b) = true.
Proof.
  rewrite <- (string_app_nil_r a) at 1. rewrite prefix_append_same.
  now destruct b.
Qed.

(** *** A pass that finds no match *)

Lemma replaceAll_quiet rule :
  forall s b, quiet rule b s = true -> replaceAll rule b 0 s = s.
Proof.
  induction s as [|c r IH]; intros b H; [reflexivity|].
  cbn [quiet replaceAll] in *.
  destruct (rule b (String c r)); [discriminate|]. now rewrite IH.
Qed.

Lemma replace_quiet rule s :
  quiet rule true s = true -> replace rule s = s.
Proof. apply replaceAll_quiet. Qed.

Lemma replaceAll_skip_all rule :
  forall s b k, String.length s <= k -> replaceAll rule b k s = EmptyString.
Proof.
  induction s as [|c r IH]; intros b k H; [reflexivity|].
  cbn [String.length] in H. destruct k as [|k]; [lia|].
  cbn [replaceAll]. apply IH. lia.
Qed.

(** Skipping a match that ends inside a line. *)
Lemma replaceAll_skip_line rule u tail :
  u <> EmptyString -> allChars notLineEnd u = true ->
  forall x b,
    replaceAll rule b (String.length (x ++ u)) ((x ++ u) ++ tail)
    = replaceAll rule false 0 tail.
Proof.
  intros Hne Hu.
  assert (Hbase : forall v b, v <> EmptyString -> allChars notLineEnd v = true ->
            replaceAll rule b (String.length v) (v ++ tail)
            = replaceAll rule false 0 tail).
  { induction v as [|c r IH]; intros b Hv Hl; [congruence|].
    cbn [allChars] in Hl. apply andb_true_iff in Hl as [Hc Hr].
    cbn [append String.length replaceAll].
    destruct r as [|d r'].
    - cbn [append String.length]. unfold notLineEnd in Hc.
      apply negb_true_iff in Hc. rewrite Hc.
      destruct tail; reflexivity.
    - apply IH; [discriminate | exact Hr]. }
  induction x as [|c r IH]; intros b; [now apply Hbase|].
  cbn [append String.length replaceAll]. apply IH.
Qed.

Lemma bold_none b c r : notStar c = true -> bold b (String c r) = None.
Proof.
  unfold notStar, bold. intros H. cbn [String.prefix].
  destruct (ascii_dec "*" c) as [<-|_]; [discriminate H | reflexivity].
Qed.

Lemma lineRule_inside marker o c s : lineRule marker o c false s = None.
Proof. reflexivity. Qed.

Lemma lineRule_unmarked marker o c b s :
  marker s = None -> lineRule marker o c b s = None.
Proof. unfold lineRule. intros ->. now destruct b. Qed.

Lemma quiet_bold_plain s :
  forall b, allChars notStar s = true -> quiet bold b s = true.
Proof.
  induction s as [|c r IH]; intros b H; [reflexivity|].
  cbn [allChars] in H. apply andb_true_iff in H as [Hc Hr].
  cbn [quiet]. rewrite (bold_none b c r Hc). now apply IH.
Qed.

(** Inside a line a rule anchored at [^] finds nothing. *)
Lemma quiet_inside marker o c x tail :
  allChars notLineEnd x = true ->
  quiet (lineRule marker o c) false (x ++ tail)
  = quiet (lineRule marker o c) false tail.
Proof.
  induction x as [|ch r IH]; intros H; [reflexivity|].
  cbn [allChars] in H. apply andb_true_iff in H as [Hc Hr].
  cbn [append quiet]. rewrite lineRule_inside.
  unfold notLineEnd in Hc. apply negb_true_iff in Hc. rewrite Hc. now apply IH.
Qed.

Lemma quiet_one_line marker o c s b :
  (b = true -> marker s = None) -> allChars notLineEnd s = true ->
  quiet (lineRule marker o c) b s = true.
Proof.
  intros Hm H. destruct s as [|ch r]; [reflexivity|].
  cbn [allChars] in H. apply andb_true_iff in H as [Hc Hr].
  cbn [quiet].
  assert (Hrule : lineRule marker o c b (String ch r) = None).
  { destruct b; [apply lineRule_unmarked; auto | reflexivity]. }
  rewrite Hrule. unfold notLineEnd in Hc. apply negb_true_iff in Hc. rewrite Hc.
  rewrite <- (string_app_nil_r r), quiet_inside; auto.
Qed.


Lemma hashes_leads p : String.prefix "#" p = true -> leads (hashes p).
Proof.
  intros Hp ch x H. apply andb_true_iff in H as [H _].
  destruct p as [|h p']; [discriminate Hp|].
  cbn [String.prefix] in Hp.
  destruct (ascii_dec "#" h) as [<-|]; [|discriminate Hp].
  unfold hashes. cbn [String.prefix].
  destruct (ascii_dec "#" ch) as [<-|]; [discriminate H | reflexivity].
Qed.

Lemma bulletMark_leads : leads bulletMark.
Proof.
  intros ch x H. apply andb_true_iff in H as [_ H].
  apply negb_true_iff in H. cbn [bulletMark]. now rewrite H.
Qed.

(** *** Paragraphs *)

Lemma splitParagraphs_single x :
  allChars notLineEnd x = true -> splitParagraphs x = [x].
Proof.
  induction x as [|c r IH]; intros H; [reflexivity|].
  cbn [allChars] in H. apply andb_true_iff in H as [Hc Hr].
  assert (Hc' : (code c =? 10) = false).
  { unfold notLineEnd, isLineTerminator in Hc. apply negb_true_iff in Hc.
    now apply orb_false_iff in Hc as [Hc _]. }
  cbn [splitParagraphs]. destruct r as [|d r']; [reflexivity|].
  rewrite Hc'. cbn [andb]. now rewrite (IH Hr).
Qed.




Lemma trimEnd_kept s :
  forall last, s <> EmptyString -> endsInSpace last s = false -> trimEnd s = s.
Proof.
  induction s as [|c r IH]; intros last Hne H; [congruence|].
  cbn [endsInSpace] in H. cbn [trimEnd].
  destruct r as [|d r'].
  - cbn [endsInSpace] in H. cbn [trimEnd]. now rewrite H.
  - rewrite (IH (isSpaceChar c)); [reflexivity | discriminate | exact H].
Qed.

Lemma trim_kept s :
  s <> EmptyString -> startsWithSpace s = false -> endsWithSpace s = false ->
  trim s = s.
Proof.
  intros Hne Hs He. unfold trim.
  assert (H : trimStart s = s).
  { destruct s as [|c r]; [reflexivity|]. cbn in Hs. cbn [trimStart]. now rewrite Hs. }
  rewrite H. now apply (trimEnd_kept s false).
Qed.







(** *** Headings *)

Lemma titleText_parts t :
  titleText t = true ->
  exists c r,
    t = String c r /\ isSpaceChar c = false /\ (code c =? 35) = false
    /\ allChars notLineEnd t = true.
Proof.
  unfold titleText. intros H. apply andb_true_iff in H as [H Hline].
  destruct t as [|c r]; [discriminate H|].
  apply andb_true_iff in H as [H1 H2]. exists c, r.
  split_all; auto; now apply negb_true_iff.
Qed.

Lemma replaceAll_bold_flag :
  forall s b b' k, replaceAll bold b k s = replaceAll bold b' k s.
Proof.
  induction s as [|c r IH]; intros b b' k; [reflexivity|].
  cbn [replaceAll]. destruct k; [|reflexivity].
  change (bold b (String c r)) with (bold b' (String c r)). reflexivity.
Qed.

Lemma replace_bold_prefix x t :
  allChars notStar x = true ->
  replace bold (x ++ t) = (x ++ replace bold t)%string.
Proof.
  unfold replace. intros H.
  assert (Hb : forall b, replaceAll bold b 0 (x ++ t)
                         = (x ++ replaceAll bold true 0 t)%string).
  { induction x as [|c r IH]; intros b; [apply replaceAll_bold_flag|].
    cbn [allChars] in H. apply andb_true_iff in H as [Hc Hr].
    cbn [append replaceAll]. rewrite (bold_none b c _ Hc). now rewrite IH. }
  apply Hb.
Qed.

Lemma closing_line s :
  forall g, closing s = Some g -> allChars notLineEnd g = true.
Proof.
  induction s as [|c r IH]; intros g H; [discriminate|].
  cbn [closing] in H.
  destruct (String.prefix "**" (String c r)); [now injection H as <-|].
  destruct (isLineTerminator c) eqn:Ec; [discriminate|].
  destruct (closing r) as [g'|]; [|discriminate].
  injection H as <-. cbn [allChars]. unfold notLineEnd at 1. rewrite Ec.
  now apply IH.
Qed.

Lemma bold_replacement b s out n :
  bold b s = Some (out, n) ->
  exists g, out = ("<strong>" ++ g ++ "</strong>")%string
            /\ allChars notLineEnd g = true.
Proof.
  unfold bold. destruct (String.prefix "**" s); [|discriminate].
  destruct (closing (dropChars 2 s)) as [g|] eqn:E; [|discriminate].
  intros H. injection H as <- _. exists g. split; [reflexivity|].
  eapply closing_line; eassumption.
Qed.

Lemma replaceAll_bold_line :
  forall s b k,
    allChars notLineEnd s = true ->
    allChars notLineEnd (replaceAll bold b k s) = true.
Proof.
  induction s as [|c r IH]; intros b k H; [reflexivity|].
  cbn [allChars] in H. apply andb_true_iff in H as [Hc Hr].
  cbn [replaceAll]. destruct k as [|k]; [|now apply IH].
  destruct (bold b (String c r)) as [[out n]|] eqn:E.
  - destruct (bold_replacement _ _ _ _ E) as (g & -> & Hg).
    rewrite !allChars_append, Hg, IH by exact Hr. reflexivity.
  - cbn [allChars]. rewrite Hc. now apply IH.
Qed.

Lemma replace_bold_titleText t :
  titleText t = true -> titleText (replace bold t) = true.
Proof.
  intros H.
  destruct (titleText_parts t H) as (c & r & -> & Hsp & Hh & Hline).
  unfold titleText. apply andb_true_iff. split.
  - unfold replace. cbn [replaceAll].
    destruct (bold true (String c r)) as [[out n]|] eqn:E.
    + destruct (bold_replacement _ _ _ _ E) as (g & -> & _). reflexivity.
    + now rewrite Hsp, Hh.
  - now apply replaceAll_bold_line.
Qed.

Lemma spaceRun_app ws u :
  allChars isSpaceChar ws = true -> startsWithSpace u = false ->
  spaceRun (ws ++ u) = String.length ws.
Proof.
  induction ws as [|c r IH]; intros H Hu.
  - destruct u as [|d u']; [reflexivity|]. cbn in *. now rewrite Hu.
  - cbn [allChars] in H. apply andb_true_iff in H as [Hc Hr].
    cbn [append spaceRun String.length]. rewrite Hc. now rewrite IH.
Qed.

Lemma lineOf_line u tail :
  allChars notLineEnd u = true ->
  startsWithLineEnd tail = true \/ tail = EmptyString ->
  lineOf (u ++ tail) = u.
Proof.
  intros H Htail. induction u as [|c r IH].
  - destruct Htail as [Ht| ->]; [|reflexivity].
    destruct tail as [|d t']; [discriminate Ht|].
    cbn in *. now rewrite Ht.
  - cbn [allChars] in H. apply andb_true_iff in H as [Hc Hr].
    cbn [append lineOf]. unfold notLineEnd in Hc.
    apply negb_true_iff in Hc. rewrite Hc. now rewrite IH.
Qed.

(** A line rule at a line that starts with its marker, white space and a
    text. *)
Lemma lineRule_matches marker o c m ws u tail n0 :
  m <> EmptyString -> (forall y, marker (m ++ y)%string = Some (String.length m)) ->
  ws <> EmptyString -> allChars isSpaceChar ws = true ->
  u <> EmptyString -> startsWithSpace u = false ->
  allChars notLineEnd u = true ->
  startsWithLineEnd tail = true \/ tail = EmptyString ->
  n0 = 0 ->
  replaceAll (lineRule marker o c) true n0 (m ++ ws ++ u ++ tail)%string
  = (o ++ u ++ c ++ replaceAll (lineRule marker o c) false 0 tail)%string.
Proof.
  intros Hm Hmark Hws Hsp Hu Hstart Hline Htail ->.
  destruct m as [|h m']; [congruence|].
  cbn [append replaceAll].
  change (String h (m' ++ ws ++ u ++ tail))%string
    with (String h m' ++ ws ++ u ++ tail)%string.
  unfold lineRule at 1. rewrite Hmark, dropChars_app.
  unfold spacesThenText.
  assert (Hstart' : startsWithSpace (u ++ tail) = false)
    by (destruct u; [congruence | exact Hstart]).
  rewrite spaceRun_app by assumption.
  destruct ws as [|w ws']; [congruence|].
  cbn [String.length].
  change (S (String.length ws')) with (String.length (String w ws')).
  rewrite dropChars_app.
  destruct (u ++ tail)%string as [|d r'] eqn:E;
    [destruct u; [congruence | discriminate E]|].
  rewrite <- E, lineOf_line by assumption.
  rewrite !string_app_assoc. do 3 f_equal.
  rewrite <- (replaceAll_skip_line (lineRule marker o c) u tail)
    with (x := (m' ++ String w ws')%string) (b := isLineTerminator h);
    [|assumption|assumption].
  f_equal; [|now rewrite !string_app_assoc].
  rewrite !string_app_length. cbn [String.length]. lia.
Qed.

Lemma space_not_hash w : isSpaceChar w = true -> (code w =? 35) = false.
Proof.
  intros H. destruct (code w =? 35) eqn:E; [|reflexivity].
  apply Nat.eqb_eq in E. unfold isSpaceChar in H. rewrite E in H. discriminate H.
Qed.

Lemma hashes_unmarked p ch x :
  String.prefix "#" p = true -> (code ch =? 35) = false ->
  hashes p (String ch x) = None.
Proof.
  intros Hp H. destruct p as [|h p']; [discriminate Hp|].
  cbn [String.prefix] in Hp.
  destruct (ascii_dec "#" h) as [<-|]; [|discriminate Hp].
  unfold hashes. cbn [String.prefix].
  destruct (ascii_dec "#" ch) as [<-|]; [discriminate H | reflexivity].
Qed.

Lemma hashes_longer pre q w y :
  (code w =? 35) = false ->
  hashes (pre ++ String "#" q) (pre ++ String w y) = None.
Proof.
  intros H. unfold hashes. rewrite prefix_append_same. cbn [String.prefix].
  destruct (ascii_dec "#" w) as [<-|]; [discriminate H | reflexivity].
Qed.

Lemma hashes_same p y : hashes p (p ++ y) = Some (String.length p).
Proof. unfold hashes. now rewrite prefix_refl_app. Qed.

Lemma quiet_spaces_text p o c ws u :
  String.prefix "#" p = true ->
  allChars isSpaceChar ws = true -> titleText u = true ->
  forall b, quiet (lineRule (hashes p) o c) b (ws ++ u) = true.
Proof.
  intros Hp Hws Hu.
  destruct (titleText_parts u Hu) as (ch & r & -> & _ & Hh & Hline).
  induction ws as [|w ws' IH]; intros b.
  - apply quiet_one_line; [|exact Hline].
    intros _. now apply hashes_unmarked.
  - cbn [allChars] in Hws. apply andb_true_iff in Hws as [Hw Hws].
    cbn [append quiet].
    rewrite lineRule_unmarked
      by (apply hashes_unmarked; [exact Hp | now apply space_not_hash]).
    now apply IH.
Qed.

(** A heading rule with more hashes than the line has finds nothing. *)
Lemma quiet_longer_rule pre q o c ws u :
  String.prefix "#" pre = true -> allChars notLineEnd pre = true ->
  ws <> EmptyString -> allChars isSpaceChar ws = true -> titleText u = true ->
  quiet (lineRule (hashes (pre ++ String "#" q)) o c) true (pre ++ ws ++ u)
  = true.
Proof.
  intros Hpre Hline Hne Hws Hu.
  destruct pre as [|h pre']; [discriminate Hpre|].
  destruct ws as [|w ws']; [congruence|].
  assert (Hw : (code w =? 35) = false).
  { cbn [allChars] in Hws. apply andb_true_iff in Hws as [Hw _].
    now apply space_not_hash. }
  cbn [allChars] in Hline. apply andb_true_iff in Hline as [Hh Hline].
  change ((String h pre' ++ String w ws' ++ u)%string)
    with (String h (pre' ++ String w ws' ++ u)).
  cbn [quiet].
  change (String h (pre' ++ String w ws' ++ u))
    with ((String h pre' ++ String w (ws' ++ u))%string).
  rewrite lineRule_unmarked by (now apply hashes_longer).
  unfold notLineEnd in Hh. apply negb_true_iff in Hh. rewrite Hh.
  rewrite quiet_inside by exact Hline.
  apply (quiet_spaces_text _ o c (String w ws') u); auto.
  cbn [append String.prefix] in *.
  destruct (ascii_dec "#" h); [now destruct (pre' ++ String "#" q)%string | discriminate Hpre].
Qed.

Lemma endsInSpace_snoc a c :
  forall last, endsInSpace last (a ++ String c EmptyString) = isSpaceChar c.
Proof. induction a as [|x r IH]; intros last; [reflexivity | apply IH]. Qed.

(** A single line between [<h] and [>] is left as it is by the paragraph
    step. *)
Lemma heading_view y :
  allChars notLineEnd y = true ->
  String.concat EmptyString
    (map paragraph (splitParagraphs ("<h" ++ y ++ ">")))
  = ("<h" ++ y ++ ">")%string.
Proof.
  intros H.
  rewrite splitParagraphs_single
    by (rewrite !allChars_append, H; reflexivity).
  cbn [map String.concat]. unfold paragraph. cbv zeta.
  rewrite trim_kept; [| discriminate | reflexivity |].
  - change (String.eqb ("<h" ++ y ++ ">") EmptyString) with false.
    now rewrite prefix_refl_app.
  - unfold endsWithSpace. rewrite <- string_app_assoc.
    now rewrite endsInSpace_snoc.
Qed.

(** The pass of the rule of the line, and the later passes. *)
Lemma heading_line_pass p o c ws u :
  p <> EmptyString -> ws <> EmptyString ->
  allChars isSpaceChar ws = true -> titleText u = true ->
  replace (lineRule (hashes p) o c) (p ++ ws ++ u) = (o ++ u ++ c)%string.
Proof.
  intros Hp Hne Hws Hu.
  destruct (titleText_parts u Hu) as (ch & r & Hueq & Hsp & _ & Hline).
  unfold replace.
  rewrite <- (string_app_nil_r u) at 1.
  rewrite (lineRule_matches (hashes p) o c p ws u EmptyString 0); auto.
  - cbn [replaceAll]. now rewrite string_app_nil_r.
  - apply hashes_same.
  - rewrite Hueq. discriminate.
  - now rewrite Hueq.
Qed.

Lemma quiet_heading_tag marker o c tag u close :
  leads marker -> titleText u = true ->
  allChars notLineEnd tag = true -> allChars notLineEnd close = true ->
  quiet (lineRule marker o c) true ("<" ++ tag ++ u ++ close) = true.
Proof.
  intros Hm Hu Htag Hclose.
  destruct (titleText_parts u Hu) as (ch & r & _ & _ & _ & Hline).
  apply quiet_one_line.
  - intros _. now apply Hm.
  - cbn [append allChars]. rewrite !allChars_append, Htag, Hline, Hclose.
    reflexivity.
Qed.

Lemma space_not_star w : isSpaceChar w = true -> notStar w = true.
Proof.
  intros H. unfold notStar. destruct (code w =? 42) eqn:E; [|reflexivity].
  apply Nat.eqb_eq in E. unfold isSpaceChar in H. rewrite E in H. discriminate H.
Qed.

Lemma heading_tag_view digit u :
  titleText u = true -> notLineEnd digit = true ->
  String.concat EmptyString
    (map paragraph
       (splitParagraphs
          ("<h" ++ String digit ">" ++ u ++ "</h" ++ String digit ">")))
  = ("<h" ++ String digit ">" ++ u ++ "</h" ++ String digit ">")%string.
Proof.
  intros Hu Hd.
  destruct (titleText_parts u Hu) as (ch & r & _ & _ & _ & Hline).
  replace ("<h" ++ String digit ">" ++ u ++ "</h" ++ String digit ">")%string
    with ("<h" ++ (String digit ">" ++ u ++ "</h" ++ String digit "") ++ ">")%string
    by (now rewrite !string_app_assoc).
  apply heading_view.
  rewrite !allChars_append, Hline. cbn [allChars]. now rewrite Hd.
Qed.

(** The passes after the one that wrote a heading leave it alone. *)
Lemma heading_tag_kept marker o c digit u :
  leads marker -> titleText u = true -> notLineEnd digit = true ->
  replace (lineRule marker o c)
    ("<h" ++ String digit ">" ++ u ++ "</h" ++ String digit ">")
  = ("<h" ++ String digit ">" ++ u ++ "</h" ++ String digit ">")%string.
Proof.
  intros Hm Hu Hd. apply replace_quiet.
  apply (quiet_heading_tag marker o c (String "h" (String digit ">")) u
           ("</h" ++ String digit ">")); auto; cbn [append allChars];
    now rewrite Hd.
Qed.

(** X16.  A line that consists of one to three hashes, white space and a title is
    the whole content: the view is the title between the tags of a heading,
    [h2] for one hash and [h3] for two or three, with the bold spans of the
    title converted. *)
Theorem heading_lines_become_headings ws title :
  ws <> EmptyString -> allChars isSpaceChar ws = true ->
  titleText title = true ->
  formattedContent ("#" ++ ws ++ title)
  = ("<h2>" ++ replace bold title ++ "</h2>")%string
  /\ formattedContent ("##" ++ ws ++ title)
     = ("<h3>" ++ replace bold title ++ "</h3>")%string
  /\ formattedContent ("###" ++ ws ++ title)
     = ("<h3>" ++ replace bold title ++ "</h3>")%string
  /\ (allChars notStar title = true -> replace bold title = title).
Proof.
  intros Hne Hws Ht.
  pose proof (replace_bold_titleText title Ht) as Hu.
  assert (Hplain : allChars notStar ws = true)
    by (eapply allChars_weaken; [apply space_not_star | exact Hws]).
  assert (Hbold : forall pre,
             allChars notStar pre = true ->
             replace bold (pre ++ ws ++ title)
             = (pre ++ ws ++ replace bold title)%string).
  { intros pre Hpre. rewrite <- !string_app_assoc.
    apply replace_bold_prefix. now rewrite allChars_append, Hpre, Hplain. }
  assert (Hview : forall pre x,
             pre <> EmptyString ->
             formattedContent (pre ++ x)
             = String.concat EmptyString
                 (map paragraph (splitParagraphs (markup (pre ++ x))))).
  { intros pre x Hpre. destruct pre; [congruence | reflexivity]. }
  set (u := replace bold title) in *.
  split_all.
  - rewrite Hview by discriminate. unfold markup.
    rewrite (Hbold "#") by reflexivity.
    rewrite (replace_quiet (lineRule (hashes "###") _ _))
      by (apply (quiet_longer_rule "#" "#"); auto).
    rewrite (replace_quiet (lineRule (hashes "##") _ _))
      by (apply (quiet_longer_rule "#" ""); auto).
    rewrite heading_line_pass by (auto; discriminate).
    rewrite (heading_tag_kept bulletMark _ _ "2" u)
      by (auto using bulletMark_leads).
    apply (heading_tag_view "2" u); auto.
  - rewrite Hview by discriminate. unfold markup.
    rewrite (Hbold "##") by reflexivity.
    rewrite (replace_quiet (lineRule (hashes "###") _ _))
      by (apply (quiet_longer_rule "##" ""); auto).
    rewrite heading_line_pass by (auto; discriminate).
    rewrite (heading_tag_kept (hashes "#") _ _ "3" u)
      by (auto using hashes_leads).
    rewrite (heading_tag_kept bulletMark _ _ "3" u)
      by (auto using bulletMark_leads).
    apply (heading_tag_view "3" u); auto.
  - rewrite Hview by discriminate. unfold markup.
    rewrite (Hbold "###") by reflexivity.
    rewrite heading_line_pass by (auto; discriminate).
    rewrite (heading_tag_kept (hashes "##") _ _ "3" u)
      by (auto using hashes_leads).
    rewrite (heading_tag_kept (hashes "#") _ _ "3" u)
      by (auto using hashes_leads).
    rewrite (heading_tag_kept bulletMark _ _ "3" u)
      by (auto using bulletMark_leads).
    apply (heading_tag_view "3" u); auto.
  - intros Hstar. subst u. apply replace_quiet.
    now apply quiet_bold_plain.
Qed.

(** *** The empty view *)

Lemma string_ind2 (P : string -> Prop) :
  P EmptyString -> (forall c, P (String c EmptyString)) ->
  (forall c d r, P r -> P (String d r) -> P (String c (String d r))) ->
  forall s, P s.
Proof.
  intros H0 H1 H2 s.
  assert (H : P s /\ forall c, P (String c s)).
  { induction s as [|d r [IHr IHdr]]; [auto|]. split; auto. }
  apply H.
Qed.

Lemma isBlank_append a b :
  Client.isBlank (a ++ b) = Client.isBlank a && Client.isBlank b.
Proof.
  induction a as [|c r IH]; [reflexivity|].
  cbn [append Client.isBlank]. now rewrite IH, andb_assoc.
Qed.

Lemma space_not_bullet w : isSpaceChar w = true -> isBulletChar w = false.
Proof.
  intros H. unfold isBulletChar.
  destruct (code w =? 45) eqn:E1;
    [apply Nat.eqb_eq in E1; unfold isSpaceChar in H; rewrite E1 in H; discriminate H|].
  destruct (code w =? 42) eqn:E2;
    [apply Nat.eqb_eq in E2; unfold isSpaceChar in H; rewrite E2 in H; discriminate H|].
  reflexivity.
Qed.

Lemma quiet_blank rule :
  (forall b c x, isSpaceChar c = true -> rule b (String c x) = None) ->
  forall s b, Client.isBlank s = true -> quiet rule b s = true.
Proof.
  intros Hrule. induction s as [|c r IH]; intros b H; [reflexivity|].
  cbn [Client.isBlank] in H. apply andb_true_iff in H as [Hc Hr].
  cbn [quiet]. rewrite Hrule by exact Hc. now apply IH.
Qed.

Lemma lineRule_blank marker o c :
  leads marker ->
  forall b ch x, isSpaceChar ch = true -> lineRule marker o c b (String ch x) = None.
Proof.
  intros Hm b ch x H. apply lineRule_unmarked. apply Hm.
  now rewrite (space_not_hash ch H), (space_not_bullet ch H).
Qed.

Lemma markup_blank s : Client.isBlank s = true -> markup s = s.
Proof.
  intros H. unfold markup.
  rewrite (replace_quiet bold)
    by (apply quiet_blank; [|exact H]; intros; apply bold_none;
        now apply space_not_star).
  rewrite (replace_quiet (lineRule (hashes "###") _ _))
    by (apply quiet_blank; [|exact H]; apply lineRule_blank;
        now apply hashes_leads).
  rewrite (replace_quiet (lineRule (hashes "##") _ _))
    by (apply quiet_blank; [|exact H]; apply lineRule_blank;
        now apply hashes_leads).
  rewrite (replace_quiet (lineRule (hashes "#") _ _))
    by (apply quiet_blank; [|exact H]; apply lineRule_blank;
        now apply hashes_leads).
  apply replace_quiet. apply quiet_blank; [|exact H].
  apply lineRule_blank. exact bulletMark_leads.
Qed.

Lemma splitParagraphs_step c d r :
  splitParagraphs (String c (String d r))
  = if (code c =? 10) && (code d =? 10)
    then EmptyString :: splitParagraphs r
    else match splitParagraphs (String d r) with
         | piece :: pieces => String c piece :: pieces
         | [] => [String c EmptyString]
         end.
Proof. reflexivity. Qed.

Lemma splitParagraphs_blank s :
  Client.isBlank s = true ->
  Forall (fun p => Client.isBlank p = true) (splitParagraphs s).
Proof.
  induction s as [| c | c d r IHr IHdr] using string_ind2; intros H.
  - repeat constructor.
  - repeat constructor. exact H.
  - cbn [Client.isBlank] in H.
    apply andb_true_iff in H as [Hc H]. pose proof H as Hdr.
    apply andb_true_iff in H as [Hd Hr].
    rewrite splitParagraphs_step.
    destruct ((code c =? 10) && (code d =? 10)).
    + constructor; [reflexivity | now apply IHr].
    + specialize (IHdr Hdr).
      destruct (splitParagraphs (String d r)) as [|piece pieces].
      * repeat constructor. cbn. now rewrite Hc.
      * inversion IHdr as [|? ? Hp Hps]; subst.
        constructor; [|exact Hps]. cbn [Client.isBlank]. now rewrite Hc.
Qed.

Lemma trimStart_blank s : Client.isBlank s = true -> trimStart s = EmptyString.
Proof.
  induction s as [|c r IH]; intros H; [reflexivity|].
  cbn [Client.isBlank] in H. apply andb_true_iff in H as [Hc Hr].
  cbn [trimStart]. rewrite Hc. now apply IH.
Qed.

Lemma paragraph_blank p : Client.isBlank p = true -> paragraph p = EmptyString.
Proof.
  intros H. unfold paragraph, trim. now rewrite trimStart_blank.
Qed.

Lemma concat_cons x rest :
  String.concat EmptyString (x :: rest)
  = (x ++ String.concat EmptyString rest)%string.
Proof.
  destruct rest; cbn [String.concat]; [now rewrite string_app_nil_r | reflexivity].
Qed.

Lemma concat_all_empty l :
  Forall (fun x => x = EmptyString) l -> String.concat EmptyString l = EmptyString.
Proof.
  induction 1 as [|x rest Hx _ IH]; [reflexivity|].
  now rewrite concat_cons, Hx, IH.
Qed.

Lemma concat_some_full l :
  Exists (fun x => x <> EmptyString) l -> String.concat EmptyString l <> EmptyString.
Proof.
  induction 1 as [x rest Hx | x rest _ IH]; rewrite concat_cons.
  - destruct x; [congruence | discriminate].
  - destruct x; [exact IH | discriminate].
Qed.

(** A pass keeps a text that is not blank from becoming blank, when what it
    writes for a match is not blank. *)
Lemma replaceAll_nonblank (rule : Rule) :
  (forall b s out n, rule b s = Some (out, n) -> Client.isBlank out = false) ->
  forall s b,
    Client.isBlank s = false -> Client.isBlank (replaceAll rule b 0 s) = false.
Proof.
  intros Hrule. induction s as [|c r IH]; intros b H; [discriminate H|].
  cbn [replaceAll]. destruct (rule b (String c r)) as [[out n]|] eqn:E.
  - rewrite isBlank_append, (Hrule _ _ _ _ E). reflexivity.
  - cbn [Client.isBlank] in *. destruct (isSpaceChar c); [|reflexivity].
    cbn [andb] in *. now apply IH.
Qed.

Lemma bold_writes b s out n :
  bold b s = Some (out, n) -> Client.isBlank out = false.
Proof.
  intros H. now destruct (bold_replacement _ _ _ _ H) as (g & -> & _).
Qed.

Lemma lineRule_writes marker o c b s out n :
  Client.isBlank o = false ->
  lineRule marker o c b s = Some (out, n) -> Client.isBlank out = false.
Proof.
  intros Ho. unfold lineRule. destruct b; [|discriminate].
  destruct (marker s) as [k|]; [|discriminate].
  destruct (spacesThenText (dropChars k s)) as [[run g]|]; [|discriminate].
  intros H. injection H as <- _. now rewrite isBlank_append, Ho.
Qed.

Lemma markup_nonblank s :
  Client.isBlank s = false -> Client.isBlank (markup s) = false.
Proof.
  intros H. unfold markup, replace.
  repeat (apply replaceAll_nonblank;
          [intros b s0 out n; first [apply bold_writes
                                    | now apply lineRule_writes]|]).
  exact H.
Qed.

Lemma newline_is_space c : (code c =? 10) = true -> isSpaceChar c = true.
Proof.
  intros H. apply Nat.eqb_eq in H. unfold isSpaceChar. now rewrite H.
Qed.

Lemma splitParagraphs_nonblank s :
  Client.isBlank s = false ->
  Exists (fun p => Client.isBlank p = false) (splitParagraphs s).
Proof.
  induction s as [| c | c d r IHr IHdr] using string_ind2; intros H.
  - discriminate H.
  - now constructor.
  - rewrite splitParagraphs_step.
    destruct ((code c =? 10) && (code d =? 10)) eqn:E.
    + apply andb_true_iff in E as [Ec Ed].
      apply Exists_cons_tl. apply IHr.
      cbn [Client.isBlank] in H.
      now rewrite (newline_is_space c Ec), (newline_is_space d Ed) in H.
    + change (Client.isBlank (String c (String d r)))
        with (isSpaceChar c && Client.isBlank (String d r)) in H.
      destruct (isSpaceChar c) eqn:Ec.
      * cbn [andb] in H. specialize (IHdr H).
        destruct (splitParagraphs (String d r)) as [|piece pieces];
          [inversion IHdr|].
        inversion IHdr as [? ? Hp | ? ? Hps]; subst.
        -- apply Exists_cons_hd. cbn [Client.isBlank]. now rewrite Hp, andb_false_r.
        -- now apply Exists_cons_tl.
      * destruct (splitParagraphs (String d r)) as [|piece pieces];
          apply Exists_cons_hd; cbn [Client.isBlank]; now rewrite Ec.
Qed.

Lemma trimEnd_full c r : trimEnd (String c r) <> EmptyString \/ isSpaceChar c = true.
Proof.
  cbn [trimEnd]. destruct (trimEnd r); [|left; discriminate].
  destruct (isSpaceChar c); [now right | left; discriminate].
Qed.

Lemma trim_nonblank p : Client.isBlank p = false -> trim p <> EmptyString.
Proof.
  unfold trim. induction p as [|c r IH]; intros H; [discriminate H|].
  cbn [Client.isBlank] in H. cbn [trimStart].
  destruct (isSpaceChar c) eqn:Ec; [now apply IH|].
  destruct (trimEnd_full c r) as [Hfull|Hsp]; [exact Hfull | congruence].
Qed.

Lemma paragraph_nonblank p :
  Client.isBlank p = false -> paragraph p <> EmptyString.
Proof.
  intros H. pose proof (trim_nonblank p H) as Hne.
  unfold paragraph. cbv zeta.
  destruct (trim p) as [|c r] eqn:E; [congruence|].
  change (String.eqb (String c r) EmptyString) with false. cbv iota.
  destruct (String.prefix "<h" (String c r)); [discriminate|].
  destruct (includes (String c r) "<li>"); [discriminate|].
  match goal with |- (if ?b then _ else _) <> _ => destruct b end;
    discriminate.
Qed.

(** X17.  The view is empty for a blank draft and for no other: a draft with a
    visible character is never formatted away. *)
Theorem view_is_empty_only_for_blank_draft s :
  formattedContent s = EmptyString <-> Client.isBlank s = true.
Proof.
  split.
  - intros Hview. destruct (Client.isBlank s) eqn:Hb; [reflexivity|]. exfalso.
    unfold formattedContent in Hview.
    destruct s as [|c r]; [discriminate Hb|].
    change (String.eqb (String c r) EmptyString) with false in Hview.
    cbv iota in Hview. revert Hview. apply concat_some_full.
    apply Exists_exists.
    pose proof (splitParagraphs_nonblank _ (markup_nonblank _ Hb)) as Hex.
    apply Exists_exists in Hex as (p & Hin & Hp).
    exists (paragraph p). split; [now apply in_map|].
    now apply paragraph_nonblank.
  - intros Hb. unfold formattedContent.
    destruct (String.eqb s EmptyString); [reflexivity|].
    rewrite markup_blank by exact Hb.
    apply concat_all_empty. apply Forall_forall. intros x Hx.
    apply in_map_iff in Hx as (p & <- & Hin).
    apply paragraph_blank.
    pose proof (splitParagraphs_blank s Hb) as Hall.
    rewrite Forall_forall in Hall. now apply Hall.
Qed.

(** *** Lists *)

Lemma itemText_parts t :
  itemText t = true ->
  exists c r,
    t = String c r /\ isSpaceChar c = false
    /\ allChars notStar t = true /\ allChars notLineEnd t = true.
Proof.
  unfold itemText. intros H. apply andb_true_iff in H as [H Hline].
  apply andb_true_iff in H as [H Hstar].
  destruct t as [|c r]; [discriminate H|].
  exists c, r. split_all; auto. now apply negb_true_iff.
Qed.

Lemma bullet_not_hash mark : isBulletChar mark = true -> (code mark =? 35) = false.
Proof.
  unfold isBulletChar. intros H. apply orb_true_iff in H as [H|H];
    apply Nat.eqb_eq in H; now rewrite H.
Qed.

Lemma bullet_in_line mark : isBulletChar mark = true -> isLineTerminator mark = false.
Proof.
  unfold isBulletChar, isLineTerminator. intros H.
  apply orb_true_iff in H as [H|H]; apply Nat.eqb_eq in H; now rewrite H.
Qed.

Lemma quiet_bold_flag s : forall b b', quiet bold b s = quiet bold b' s.
Proof.
  induction s as [|c r IH]; intros b b'; [reflexivity|].
  cbn [quiet]. change (bold b (String c r)) with (bold b' (String c r)).
  reflexivity.
Qed.

Lemma quiet_bold_app x tail b :
  allChars notStar x = true -> quiet bold b (x ++ tail) = quiet bold b tail.
Proof.
  revert b. induction x as [|c r IH]; intros b H; [reflexivity|].
  cbn [allChars] in H. apply andb_true_iff in H as [Hc Hr].
  cbn [append quiet]. rewrite (bold_none b c _ Hc), IH by exact Hr.
  apply quiet_bold_flag.
Qed.

Lemma bold_single_star b mark x : bold b (String mark (String " " x)) = None.
Proof.
  unfold bold. cbn [String.prefix].
  destruct (ascii_dec "*" mark); [|reflexivity].
  destruct (ascii_dec "*" " "); [discriminate | reflexivity].
Qed.

Lemma concat_two sep (x y : string) l :
  String.concat sep (x :: y :: l)
  = (x ++ sep ++ String.concat sep (y :: l))%string.
Proof. reflexivity. Qed.

Lemma quiet_bold_bullets mark items :
  Forall (fun it => itemText it = true) items ->
  forall b,
    quiet bold b
      (String.concat nl (map (fun it => String mark (" " ++ it)) items))
    = true.
Proof.
  induction 1 as [|it rest Hit _ IH]; intros b; [reflexivity|].
  destruct (itemText_parts it Hit) as (ch & r & _ & _ & Hstar & _).
  destruct rest as [|it2 rest'].
  - cbn [map String.concat append quiet]. rewrite bold_single_star.
    rewrite (bold_none _ " ") by reflexivity.
    now apply quiet_bold_plain.
  - cbn [map] in *. rewrite concat_two.
    set (tail := String.concat nl (_ :: map _ rest')) in *.
    cbn [append quiet]. rewrite bold_single_star.
    rewrite (bold_none _ " ") by reflexivity.
    rewrite quiet_bold_app by exact Hstar.
    cbn [nl append quiet]. rewrite bold_none by reflexivity. apply IH.
Qed.

Lemma quiet_step rule b c r :
  quiet rule b (String c r)
  = match rule b (String c r) with
    | Some _ => false
    | None => quiet rule (isLineTerminator c) r
    end.
Proof. reflexivity. Qed.

(** A line that does not start with the marker, and the line break after
    it. *)
Lemma quiet_line_break marker o c ch x tail :
  (forall y, marker (String ch y) = None) ->
  allChars notLineEnd (String ch x) = true ->
  quiet (lineRule marker o c) true (String ch x ++ nl ++ tail)
  = quiet (lineRule marker o c) true tail.
Proof.
  intros Hm H. cbn [allChars] in H. apply andb_true_iff in H as [Hc Hx].
  change (String ch x ++ nl ++ tail)%string with (String ch (x ++ nl ++ tail)).
  rewrite quiet_step, lineRule_unmarked by apply Hm.
  unfold notLineEnd in Hc. apply negb_true_iff in Hc. rewrite Hc.
  rewrite quiet_inside by exact Hx.
  change (nl ++ tail)%string with (String (ascii_of_nat 10) tail).
  rewrite quiet_step, lineRule_inside. reflexivity.
Qed.

Lemma quiet_hash_bullets p o c mark items :
  String.prefix "#" p = true -> isBulletChar mark = true ->
  Forall (fun it => itemText it = true) items ->
  quiet (lineRule (hashes p) o c) true
    (String.concat nl (map (fun it => String mark (" " ++ it)) items))
  = true.
Proof.
  intros Hp Hmark. induction 1 as [|it rest Hit _ IH]; [reflexivity|].
  destruct (itemText_parts it Hit) as (ch & r & _ & _ & _ & Hline).
  assert (Hrule : forall y, hashes p (String mark y) = None).
  { intros y. apply hashes_unmarked; [exact Hp|]. now apply bullet_not_hash. }
  assert (Hl : allChars notLineEnd (String mark (" " ++ it)) = true).
  { cbn [allChars append]. unfold notLineEnd at 1.
    now rewrite (bullet_in_line mark Hmark), Hline. }
  destruct rest as [|it2 rest'].
  - cbn [map String.concat]. apply quiet_one_line; auto.
  - cbn [map] in *. rewrite concat_two.
    rewrite quiet_line_break by assumption. exact IH.
Qed.

Lemma bullet_pass mark items :
  isBulletChar mark = true ->
  Forall (fun it => itemText it = true) items ->
  replace (lineRule bulletMark "<li>" "</li>")
    (String.concat nl (map (fun it => String mark (" " ++ it)) items))
  = String.concat nl (map (fun it => "<li>" ++ it ++ "</li>")%string items).
Proof.
  intros Hmark. unfold replace.
  assert (Hm : forall y, bulletMark (String mark "" ++ y)
                         = Some (String.length (String mark ""))).
  { intros y. cbn. now rewrite Hmark. }
  induction 1 as [|it rest Hit _ IH]; [reflexivity|].
  destruct (itemText_parts it Hit) as (ch & r & Heq & Hsp & _ & Hline).
  assert (Hne : it <> EmptyString) by (rewrite Heq; discriminate).
  assert (Hstart : startsWithSpace it = false) by (now rewrite Heq).
  destruct rest as [|it2 rest'].
  - cbn [map String.concat].
    change (String mark (" " ++ it))
      with (String mark "" ++ " " ++ it)%string.
    rewrite <- (string_app_nil_r it) at 1.
    rewrite (lineRule_matches bulletMark "<li>" "</li>" (String mark "") " "
               it EmptyString 0); auto; discriminate.
  - cbn [map] in *. rewrite !concat_two.
    set (tail := String.concat nl (String mark _ :: map _ rest')) in *.
    set (out := String.concat nl (("<li>" ++ _)%string :: map _ rest')) in *.
    change (String mark (" " ++ it) ++ nl ++ tail)%string
      with (String mark "" ++ " " ++ it ++ (nl ++ tail))%string.
    rewrite (lineRule_matches bulletMark "<li>" "</li>" (String mark "") " "
               it (nl ++ tail) 0); auto; try discriminate.
    cbn [nl append replaceAll]. rewrite lineRule_inside.
    change (isLineTerminator (ascii_of_nat 10)) with true.
    rewrite IH, !string_app_assoc. reflexivity.
Qed.

Lemma splitParagraphs_line_break x z0 rest :
  allChars notLineEnd x = true -> (code z0 =? 10) = false ->
  splitParagraphs (x ++ nl ++ String z0 rest)
  = match splitParagraphs (String z0 rest) with
    | piece :: pieces => (x ++ nl ++ piece)%string :: pieces
    | [] => [(x ++ nl)%string]
    end.
Proof.
  intros Hx Hz. induction x as [|c r IH].
  - cbn [append nl]. rewrite splitParagraphs_step, Hz, andb_false_r.
    reflexivity.
  - cbn [allChars] in Hx. apply andb_true_iff in Hx as [Hc Hr].
    specialize (IH Hr).
    assert (Hc' : (code c =? 10) = false).
    { unfold notLineEnd, isLineTerminator in Hc. apply negb_true_iff in Hc.
      now apply orb_false_iff in Hc as [Hc _]. }
    cbn [append].
    destruct (r ++ nl ++ String z0 rest)%string as [|d r'] eqn:E;
      [destruct r; discriminate E|].
    rewrite splitParagraphs_step, Hc'. cbn [andb]. rewrite IH.
    now destruct (splitParagraphs (String z0 rest)).
Qed.

Lemma splitParagraphs_lines ls :
  ls <> [] ->
  Forall (fun l => startsWithLineEnd l = false /\ l <> EmptyString
                   /\ allChars notLineEnd l = true) ls ->
  splitParagraphs (String.concat nl ls) = [String.concat nl ls].
Proof.
  intros Hne H. induction H as [|x rest (_ & _ & Hx) Hrest IH]; [congruence|].
  cbn [String.concat]. destruct rest as [|y rest'].
  - now apply splitParagraphs_single.
  - set (tail := String.concat nl (y :: rest')) in *.
    assert (Htail : exists z0 z, tail = String z0 z /\ (code z0 =? 10) = false).
    { inversion Hrest as [|? ? (Hs & Hy & Hl) _]; subst.
      destruct y as [|z0 y']; [congruence|].
      exists z0. subst tail. cbn [String.concat].
      destruct rest'; eexists; (split; [reflexivity|]);
        cbn in Hs; unfold isLineTerminator in Hs;
        now apply orb_false_iff in Hs as [Hs _]. }
    destruct Htail as (z0 & z & Ez & Hz).
    rewrite Ez, splitParagraphs_line_break, <- Ez by assumption.
    rewrite IH by discriminate. reflexivity.
Qed.

Lemma endsInSpace_app a b :
  b <> EmptyString ->
  forall last, endsInSpace last (a ++ b) = endsInSpace false b.
Proof.
  intros Hb. induction a as [|c r IH]; intros last; [|apply IH].
  destruct b; [congruence | reflexivity].
Qed.

Lemma list_ends_visible items :
  items <> [] ->
  endsWithSpace
    (String.concat nl (map (fun it => "<li>" ++ it ++ "</li>")%string items))
  = false.
Proof.
  unfold endsWithSpace. generalize false at 1 as last.
  induction items as [|it rest IH]; intros last Hne; [congruence|].
  destruct rest as [|it2 rest'].
  - cbn [map String.concat].
    replace ("<li>" ++ it ++ "</li>")%string
      with (("<li>" ++ it ++ "</li") ++ ">")%string
      by (now rewrite !string_app_assoc).
    apply endsInSpace_snoc.
  - cbn [map] in *. rewrite concat_two, <- string_app_assoc, endsInSpace_app.
    + apply (IH false). discriminate.
    + destruct (map _ rest'); discriminate.
Qed.

(** X18.  Lines that start with [-] or [*] and a space, one item each, are the
    whole content: the view is one list, every line an item of it, in
    order. *)
Theorem bullet_lines_become_a_list mark items :
  isBulletChar mark = true -> items <> [] ->
  Forall (fun it => itemText it = true) items ->
  formattedContent
    (String.concat nl (map (fun it => String mark (" " ++ it)) items))
  = ("<ul>"
     ++ String.concat nl (map (fun it => "<li>" ++ it ++ "</li>")%string items)
     ++ "</ul>")%string.
Proof.
  intros Hmark Hne H.
  destruct items as [|it rest] eqn:Eitems; [congruence|]. rewrite <- Eitems in *.
  assert (Hfull : String.eqb
                    (String.concat nl (map (fun it => String mark (" " ++ it)) items))
                    EmptyString = false).
  { rewrite Eitems. cbn [map String.concat]. now destruct (map _ rest). }
  unfold formattedContent, markup. rewrite Hfull. clear Hfull.
  rewrite (replace_quiet bold) by (now apply quiet_bold_bullets).
  rewrite (replace_quiet (lineRule (hashes "###") _ _))
    by (now apply quiet_hash_bullets).
  rewrite (replace_quiet (lineRule (hashes "##") _ _))
    by (now apply quiet_hash_bullets).
  rewrite (replace_quiet (lineRule (hashes "#") _ _))
    by (now apply quiet_hash_bullets).
  rewrite bullet_pass by assumption.
  rewrite splitParagraphs_lines.
  - cbn [map String.concat]. unfold paragraph. cbv zeta.
    pose proof (list_ends_visible items Hne) as Hend.
    set (out := String.concat nl (map _ items)) in *.
    assert (Hshape : exists x, out = ("<li>" ++ x)%string).
    { subst out. rewrite Eitems. cbn [map String.concat].
      destruct (map _ rest); eexists; rewrite ?string_app_assoc; reflexivity. }
    destruct Hshape as [x Hx].
    rewrite trim_kept; [| rewrite Hx; discriminate | now rewrite Hx | exact Hend].
    rewrite Hx. change (String.eqb ("<li>" ++ x) EmptyString) with false.
    change (String.prefix "<h" ("<li>" ++ x)) with false.
    cbv iota.
    assert (Hinc : includes ("<li>" ++ x) "<li>" = true).
    { change ("<li>" ++ x)%string with (String "<" ("li>" ++ x)).
      cbn [includes].
      change (String "<" ("li>" ++ x)) with ("<li>" ++ x)%string.
      now rewrite prefix_refl_app. }
    now rewrite Hinc.
  - rewrite Eitems. discriminate.
  - apply Forall_forall. intros l Hl.
    apply in_map_iff in Hl as (it0 & <- & Hin).
    rewrite Forall_forall in H. specialize (H it0 Hin).
    destruct (itemText_parts it0 H) as (ch & r & _ & _ & _ & Hline).
    split_all; [reflexivity | discriminate |].
    now rewrite !allChars_append, Hline.
Qed.

End FormattedView.

(** ** The keywords and the spelling of the prompt *)

Lemma lowerChar_idempotent c : lowerChar (lowerChar c) = lowerChar c.
Proof. destruct c as [[] [] [] [] [] [] [] []]; reflexivity. Qed.

Lemma lowerChar_class c :
  isWordChar (lowerChar c) || isSpaceChar (lowerChar c)
  = isWordChar c || isSpaceChar c.
Proof. destruct c as [[] [] [] [] [] [] [] []]; reflexivity. Qed.

Lemma toLowerCase_idempotent p : toLowerCase (toLowerCase p) = toLowerCase p.
Proof.
  unfold toLowerCase. induction p as [|c r IH]; [reflexivity|].
  cbn [mapString]. now rewrite lowerChar_idempotent, IH.
Qed.

Lemma strip_lower_strip p :
  stripNonWord (toLowerCase (stripNonWord p)) = stripNonWord (toLowerCase p).
Proof.
  unfold stripNonWord, toLowerCase. induction p as [|c r IH]; [reflexivity|].
  cbn [filterString mapString]. rewrite lowerChar_class.
  destruct (isWordChar c || isSpaceChar c) eqn:E; [|exact IH].
  cbn [filterString mapString]. now rewrite lowerChar_class, E, IH.
Qed.

(** X19.  For a prompt made of code units below 256, the strings of this
    development, the keywords do not depend on the case of its letters nor
    on its punctuation: the prompt in lower case, and the prompt without the
    characters that are neither word characters nor white space, give the
    keywords of the prompt itself.  The statement does not extend to every
    JavaScript string: above 255, [toLowerCase] turns U+0130 into [i]
    followed by U+0307 and U+212A into [k], word characters that stripping
    first would have removed. *)
Theorem keywords_ignore_case_and_punctuation p ct :
  extractKeywordsSimple (JStr (toLowerCase p)) ct
  = extractKeywordsSimple (JStr p) ct
  /\ extractKeywordsSimple (JStr (stripNonWord p)) ct
     = extractKeywordsSimple (JStr p) ct.
Proof.
  unfold extractKeywordsSimple, promptWords.
  now rewrite toLowerCase_idempotent, strip_lower_strip.
Qed.

(** ** Instances of the further properties *)

Lemma server_error_always_blames_quota_witness :
  let req := requestWithPrompt (JStr "Write about AI in healthcare") in
  textFields req = true
  /\ exists message tr,
       router_post brokenWorld req = (Err500 message, tr)
       /\ message = quotaAnswer
       /\ List.length (llmCalls tr) = 2
       /\ searchesOf tr = [].
Proof.
  cbv zeta. split; [reflexivity|].
  assert (H : exists message tr,
             router_post brokenWorld
               (requestWithPrompt (JStr "Write about AI in healthcare"))
             = (Err500 message, tr)
             /\ List.length (llmCalls tr) = 2)
    by (do 2 eexists; vm_compute; split; reflexivity).
  destruct H as (message & tr & H & Hcalls). exists message, tr.
  split; [exact H|].
  destruct (server_error_always_blames_quota brokenWorld
              (requestWithPrompt (JStr "Write about AI in healthcare"))
              message tr eq_refl H) as (Hm & _ & _ & Hsearch).
  split_all; auto.
Defined.

Lemma ok_answer_carries_provider_text_witness :
  exists text wc pf imgs tys tr,
    router_post photoWorld sampleRequest = (Ok200 text wc pf imgs tys, tr)
    /\ exists tr0 ks,
         tr = tr0 ++ [LlmCall "gemini-2.5-flash" (enhancedPrompt sampleRequest)]
                  ++ map UnsplashSearch ks
         /\ llm photoWorld tr0 "gemini-2.5-flash" (enhancedPrompt sampleRequest)
            = Generated text
         /\ searchesOf tr0 = []
         /\ List.length ks <= 3
         /\ (envIsSet (unsplashKey photoWorld) = false -> ks = [])
         /\ pf = orElse (platform sampleRequest) (JStr "standard").
Proof.
  assert (H : exists text wc pf imgs tys tr,
             router_post photoWorld sampleRequest
             = (Ok200 text wc pf imgs tys, tr))
    by (do 6 eexists; vm_compute; reflexivity).
  destruct H as (text & wc & pf & imgs & tys & tr & H).
  exists text, wc, pf, imgs, tys, tr. split; [exact H|].
  exact (ok_answer_carries_provider_text photoWorld sampleRequest
           text wc pf imgs tys tr H).
Defined.

Lemma wordCount_of_answer_witness :
  exists text wc pf imgs tys tr,
    router_post calmWorld sampleRequest = (Ok200 text wc pf imgs tys, tr)
    /\ countTokens text = 2
    /\ wc = 3
    /\ 1 <= wc <= countTokens text + 2.
Proof.
  assert (H : exists text wc pf imgs tys tr,
             router_post calmWorld sampleRequest
             = (Ok200 text wc pf imgs tys, tr)
             /\ countTokens text = 2 /\ wc = 3)
    by (do 6 eexists; vm_compute; repeat split; reflexivity).
  destruct H as (text & wc & pf & imgs & tys & tr & H & Htok & Hwc).
  exists text, wc, pf, imgs, tys, tr. split_all; auto;
    apply (wordCount_of_answer calmWorld sampleRequest text wc pf imgs tys tr H).
Defined.

Lemma generateImageSuggestions_in_cooldown_witness :
  let st := LegacyRoute.mkProcess true (sampleTime + 60000)%N 0 in
  LegacyRoute.isRateLimited st = true
  /\ (LegacyRoute.clock limitedEnv 0 < LegacyRoute.rateLimitResetTime st)%N
  /\ (LegacyRoute.clock limitedEnv 1 < LegacyRoute.rateLimitResetTime st)%N
  /\ llmCalls (snd (LegacyRoute.generateImageSuggestions limitedEnv st
                      (JStr "AI in healthcare") (JStr "article") "Hello" []))
     = []
  /\ LegacyRoute.isRateLimited
       (snd (fst (LegacyRoute.generateImageSuggestions limitedEnv st
                    (JStr "AI in healthcare") (JStr "article") "Hello" [])))
     = true.
Proof.
  cbv zeta.
  assert (H0 : (LegacyRoute.clock limitedEnv 0 < sampleTime + 60000)%N)
    by (vm_compute; reflexivity).
  assert (H1 : (LegacyRoute.clock limitedEnv 1 < sampleTime + 60000)%N)
    by (vm_compute; reflexivity).
  split; [reflexivity|]. split; [exact H0|]. split; [exact H1|].
  destruct (generateImageSuggestions_in_cooldown limitedEnv
              (LegacyRoute.mkProcess true (sampleTime + 60000)%N 0)
              (JStr "AI in healthcare") (JStr "article") "Hello" []
              eq_refl H0 H1) as (Hcalls & Hflag & _).
  split; [exact Hcalls | exact Hflag].
Defined.

Lemma legacy_answer_images_and_tags_witness :
  exists text wc pf imgs tys st' tr,
    LegacyRoute.router_post drawingEnv LegacyRoute.started sampleRequest
    = (Ok200 text wc pf imgs tys, st', tr)
    /\ List.length imgs = 3
    /\ tys = ["ai-generated"; "stock"; "stock"].
Proof.
  assert (H : exists text wc pf imgs tys st' tr,
             LegacyRoute.router_post drawingEnv LegacyRoute.started
               sampleRequest
             = (Ok200 text wc pf imgs tys, st', tr)
             /\ tys = ["ai-generated"; "stock"; "stock"])
    by (do 7 eexists; vm_compute; split; reflexivity).
  destruct H as (text & wc & pf & imgs & tys & st' & tr & H & Htys).
  exists text, wc, pf, imgs, tys, st', tr. split; [exact H|].
  destruct (legacy_answer_images_and_tags drawingEnv LegacyRoute.started
              sampleRequest text wc pf imgs tys st' tr H)
    as (ai & found & fill & _ & Hlen & _).
  split; [exact Hlen | exact Htys].
Defined.

Lemma legacy_search_is_all_or_nothing_witness :
  envIsSet (unsplashKey (LegacyRoute.world flakyEnv)) = true
  /\ LegacyRoute.searchLoop flakyEnv [JStr "healthcare"] [] []
     = (Some ["https://images.unsplash.com/healthcare"],
        [UnsplashSearch "healthcare"])
  /\ rejects (unsplash (LegacyRoute.world flakyEnv)
                [UnsplashSearch "healthcare"] (render (JStr "robots"))) = true
  /\ LegacyRoute.fetchUnsplashImages flakyEnv
       ([JStr "healthcare"] ++ JStr "robots" :: [JStr "future"]) []
     = (None, [UnsplashSearch "healthcare"; UnsplashSearch "robots"]).
Proof.
  split; [reflexivity|]. split; [reflexivity|]. split; [reflexivity|].
  apply (legacy_search_is_all_or_nothing flakyEnv [JStr "healthcare"]
           (JStr "robots") [JStr "future"] []
           ["https://images.unsplash.com/healthcare"]
           [UnsplashSearch "healthcare"]); reflexivity.
Defined.

Lemma loadVersion_restores_version_witness :
  Client.contentHistory Client.initial = []
  /\ forallb Client.isWriting sampleSession = true
  /\ List.length (Client.chronicle Client.initial sampleSession) = 3
  /\ Client.generatedContent
       (Client.loadVersion (Client.run Client.initial sampleSession) 2)
     = "first draft"
  /\ Client.generatedContent
       (Client.loadVersion (Client.run Client.initial sampleSession) 0)
     = "second draft"
  /\ Client.contentHistory
       (Client.loadVersion (Client.run Client.initial sampleSession) 2)
     = Client.contentHistory (Client.run Client.initial sampleSession).
Proof.
  split; [reflexivity|]. split; [reflexivity|]. split; [reflexivity|].
  destruct (loadVersion_restores_version Client.initial sampleSession
              eq_refl eq_refl) as [Hload _].
  destruct (Hload 0 (Client.mkVersion "first draft" 10%N) eq_refl)
    as (H0 & _ & _ & Hh & _).
  destruct (Hload 2 (Client.mkVersion "second draft" 30%N) eq_refl)
    as (H2 & _).
  split_all; [exact H0 | exact H2 | exact Hh].
Defined.

Lemma draft_is_the_current_version_witness :
  draftIsCurrent Client.initial
  /\ loadsInRange Client.initial browsingSession = true
  /\ draftIsCurrent (Client.run Client.initial browsingSession)
  /\ Client.generatedContent (Client.run Client.initial browsingSession)
     = "first draft".
Proof.
  assert (H : draftIsCurrent Client.initial).
  { split; [now left | intros Hne; now contradiction Hne]. }
  split; [exact H|]. split; [reflexivity|].
  split; [|reflexivity].
  apply (draft_is_the_current_version Client.initial browsingSession H).
  reflexivity.
Defined.

Lemma client_requests_pass_the_guard_witness :
  let s := Client.typePrompt Client.initial "AI in healthcare" in
  exists req,
    ClientRequests.generateRequest s ClientRequests.initialForm = Some req
    /\ prompt req = JStr "AI in healthcare"
    /\ contentType req = JStr "article"
    /\ exists rest,
         snd (router_post calmWorld req)
         = LlmCall "gemini-2.5-flash" (enhancedPrompt req) :: rest.
Proof.
  cbv zeta. eexists. split; [reflexivity|].
  split; [reflexivity|]. split; [reflexivity|].
  eapply (client_requests_pass_the_guard
            (Client.typePrompt Client.initial "AI in healthcare")
            ClientRequests.initialForm _ calmWorld).
  left. reflexivity.
Defined.


Lemma heading_lines_become_headings_witness :
  let ws := (nl ++ " ")%string in
  ws <> EmptyString
  /\ allChars isSpaceChar ws = true
  /\ titleText "My **big** plan" = true
  /\ Markdown.formattedContent ("#" ++ ws ++ "My **big** plan")
     = "<h2>My <strong>big</strong> plan</h2>"
  /\ Markdown.formattedContent ("###" ++ ws ++ "My **big** plan")
     = "<h3>My <strong>big</strong> plan</h3>".
Proof.
  cbv zeta. split; [discriminate|]. split; [reflexivity|].
  split; [reflexivity|].
  destruct (heading_lines_become_headings (nl ++ " ") "My **big** plan"
              ltac:(discriminate) eq_refl eq_refl) as (H1 & _ & H3 & _).
  split; [exact H1 | exact H3].
Defined.

Lemma bullet_lines_become_a_list_witness :
  Markdown.isBulletChar "-" = true
  /\ ["fast"; "cheap"; "good <3"] <> []
  /\ Forall (fun it => itemText it = true) ["fast"; "cheap"; "good <3"]
  /\ Markdown.formattedContent
       ("- fast" ++ nl ++ "- cheap" ++ nl ++ "- good <3")
     = ("<ul><li>fast</li>" ++ nl ++ "<li>cheap</li>" ++ nl
        ++ "<li>good <3</li></ul>")%string.
Proof.
  split; [reflexivity|]. split; [discriminate|].
  split; [repeat constructor|].
  exact (bullet_lines_become_a_list "-" ["fast"; "cheap"; "good <3"]
           eq_refl ltac:(discriminate) ltac:(repeat constructor)).
Defined.
